(** * ai-trip-finance: the aggregation and pacing arithmetic of the pages

    A shallow embedding of the arithmetic in [src/pages/Dashboard.tsx],
    [src/pages/Savings.tsx] and the [ai-coach] edge function, with the
    column constraints of the [savings_goals] table from the migration.

    JavaScript numbers are read through an interface, [JsNumber], that has
    two instances: [Binary64], the kernel's IEEE-754 binary64 floats, which
    is what the pages run on, and [Exact], the rationals [Qc], which is
    what the formulas of the pages mean.  The totals of the dashboard are
    examined on both: the closed forms hold on [Exact] and, up to a stated
    rounding error, on [Binary64].  The store keeps decimals
    ([DECIMAL(10, 2)]); the amounts written to it are followed on [Exact],
    and the binary64 sum the page sends is shown to be stored as the same
    two-decimal value. *)

From Stdlib Require Import ZArith QArith Qround Qcanon List String Bool Lia.
From Stdlib Require Import Floats.
Import ListNotations.

Set Implicit Arguments.

(** ** Numbers *)

(** The operations of a JS [number] the pages use.  [js_truthy] is
    [ToBoolean] (false on [0], [-0] and [NaN]); [js_of_Z] reads an integer
    literal such as [12], [30] or [100]. *)
Class JsNumber (num : Type) : Type := {
  js_add : num -> num -> num;
  js_sub : num -> num -> num;
  js_mul : num -> num -> num;
  js_div : num -> num -> num;
  js_gt : num -> num -> bool;
  js_truthy : num -> bool;
  js_of_Z : Z -> num
}.

Declare Scope js_scope.
Delimit Scope js_scope with js.
Infix "+" := js_add : js_scope.
Infix "-" := js_sub : js_scope.
Infix "*" := js_mul : js_scope.
Infix "/" := js_div : js_scope.
Infix ">" := js_gt : js_scope.

(** [x || 0] where [x] may be [undefined] (the result of [data?.reduce]
    on a null [data]). *)
Definition or_zero {num} `{JsNumber num} (x : option num) : num :=
  match x with
  | Some v => if js_truthy v then v else js_of_Z 0
  | None => js_of_Z 0
  end.

(** Rationals: every operation is exact. *)
Definition Qc_of_Z (z : Z) : Qc := Q2Qc (inject_Z z).

Definition Qc_gtb (a b : Qc) : bool :=
  match (b ?= a)%Qc with Lt => true | _ => false end.

#[export] Instance Exact : JsNumber Qc := {
  js_add := Qcplus;
  js_sub := Qcminus;
  js_mul := Qcmult;
  js_div := Qcdiv;
  js_gt := Qc_gtb;
  js_truthy := fun q => negb (Qc_eq_bool q 0);
  js_of_Z := Qc_of_Z
}.

(** IEEE-754 binary64, the representation of a JS [number]. *)
Definition float_of_Z (z : Z) : float :=
  match z with
  | Zneg _ => PrimFloat.opp (PrimFloat.of_uint63 (Uint63.of_Z (Z.opp z)))
  | _ => PrimFloat.of_uint63 (Uint63.of_Z z)
  end.

#[export] Instance Binary64 : JsNumber float := {
  js_add := PrimFloat.add;
  js_sub := PrimFloat.sub;
  js_mul := PrimFloat.mul;
  js_div := PrimFloat.div;
  js_gt := fun a b => PrimFloat.ltb b a;
  js_truthy := fun x => negb (PrimFloat.eqb x PrimFloat.zero || PrimFloat.is_nan x);
  js_of_Z := float_of_Z
}.

(** ** Rows as the queries return them

    [parseFloat(item.amount)] is the number held in the field: a row keeps
    the parsed value. *)

Module Income.
Record row (num : Type) : Type := { amount : num; frequency : string }.
End Income.

Module Expense.
Record row (num : Type) : Type := { amount : num; category : string }.
End Expense.

Module Goal.
Record row (num : Type) : Type := { target_amount : num; current_amount : num }.
End Goal.

(** ** Dashboard.tsx, [fetchDashboardData] *)

Module Dashboard.
Section WithNumber.
Context {num : Type} `{JsNumber num}.
Local Open Scope js_scope.

(** The reducer of [totalIncome] (lines 54-59). *)
Definition incomeStep (sum : num) (item : Income.row num) : num :=
  let amount := Income.amount item in
  if (Income.frequency item =? "yearly")%string then sum + amount / js_of_Z 12
  else if (Income.frequency item =? "monthly")%string then sum + amount
  else sum.

Definition totalIncome (incomeData : option (list (Income.row num))) : num :=
  or_zero (option_map (fun l => fold_left incomeStep l (js_of_Z 0)) incomeData).

(** Line 67. *)
Definition totalExpenses (expensesData : option (list (Expense.row num))) : num :=
  or_zero (option_map
    (fun l => fold_left (fun sum item => sum + Expense.amount item) l (js_of_Z 0))
    expensesData).

(** An element of [expensesByCategory]. *)
Record entry : Type := { name : string; value : num }.

(** [existing.value += a] on the object [acc.find] returned: the first
    entry named [c] is updated in place, the array keeps its order. *)
Fixpoint addToExisting (c : string) (a : num) (acc : list entry) : list entry :=
  match acc with
  | [] => []
  | e :: rest =>
      if (name e =? c)%string
      then {| name := name e; value := value e + a |} :: rest
      else e :: addToExisting c a rest
  end.

(** The reducer of [expensesByCategory] (lines 70-78). *)
Definition categoryStep (acc : list entry) (item : Expense.row num) : list entry :=
  match find (fun e => (name e =? Expense.category item)%string) acc with
  | Some _ => addToExisting (Expense.category item) (Expense.amount item) acc
  | None => acc ++ [{| name := Expense.category item; value := Expense.amount item |}]
  end.

(** [expensesData?.reduce(..., []) || []]; an array is always truthy. *)
Definition expensesByCategory (expensesData : option (list (Expense.row num)))
  : list entry :=
  match expensesData with
  | Some l => fold_left categoryStep l []
  | None => []
  end.

(** Lines 86-88. *)
Definition totalTargetSavings (savingsData : option (list (Goal.row num))) : num :=
  or_zero (option_map
    (fun l => fold_left (fun sum item => sum + Goal.target_amount item) l (js_of_Z 0))
    savingsData).

Definition totalCurrentSavings (savingsData : option (list (Goal.row num))) : num :=
  or_zero (option_map
    (fun l => fold_left (fun sum item => sum + Goal.current_amount item) l (js_of_Z 0))
    savingsData).

Definition savingsGoalProgress (savingsData : option (list (Goal.row num))) : num :=
  if totalTargetSavings savingsData > js_of_Z 0
  then (totalCurrentSavings savingsData / totalTargetSavings savingsData) * js_of_Z 100
  else js_of_Z 0.

End WithNumber.
End Dashboard.

(** ** Savings.tsx: the goal pacer *)

Module Savings.

(** A row of [savings_goals] as the page holds it.  [target_date] is the
    DATE column, kept as the day number since the epoch: [new Date] reads
    a date-only string as midnight UTC of that day. *)
Record SavingsGoal (num : Type) : Type := {
  id : string;
  goal_name : string;
  target_amount : num;
  current_amount : num;
  target_date : Z
}.

(** [1000 * 60 * 60 * 24] *)
Definition msPerDay : Z := 1000 * 60 * 60 * 24.

(** [new Date(goal.target_date).getTime()] *)
Definition getTime (date : Z) : Z := date * msPerDay.

(** [Math.ceil(a / b)] for integers [a] and [b > 0].  The quotient of
    two times in milliseconds is rounded by less than the distance of an
    inexact quotient to the integer below (at least [1 / b]) as long as
    it stays under [10^8] days, the range of [Date], so the ceiling of
    the rounded quotient is the ceiling of the exact one. *)
Definition ceilDiv (a b : Z) : Z := - ((- a) / b).

Section WithNumber.
Context {num : Type} `{JsNumber num}.
Local Open Scope js_scope.

(** Line 248. *)
Definition progress (goal : SavingsGoal num) : num :=
  (current_amount goal / target_amount goal) * js_of_Z 100.

(** Lines 249-251; [now] is [new Date().getTime()], in milliseconds. *)
Definition daysUntilTarget (goal : SavingsGoal num) (now : Z) : Z :=
  ceilDiv (getTime (target_date goal) - now) msPerDay.

(** Lines 252-254. *)
Definition monthlyNeeded (goal : SavingsGoal num) (now : Z) : num :=
  if (daysUntilTarget goal now >? 0)%Z
  then (target_amount goal - current_amount goal)
       / (js_of_Z (daysUntilTarget goal now) / js_of_Z 30)
  else js_of_Z 0.

(** Lines 290-297: the "Save $x/month to reach goal" element is rendered
    only under the guard [monthlyNeeded > 0]; [Some x] is the element
    showing [x], [None] is no element. *)
Definition pacingFigure (goal : SavingsGoal num) (now : Z) : option num :=
  if monthlyNeeded goal now > js_of_Z 0 then Some (monthlyNeeded goal now) else None.

End WithNumber.

(** *** The stored [current_amount]

    The migration declares
    [current_amount DECIMAL(10, 2) DEFAULT 0 CHECK (current_amount >= 0)]:
    a written value is rounded to two decimals (half away from zero), must
    stay below [10^8] in absolute value and must not be negative.  Amounts
    on this side are exact rationals, and so is the sum of line 317, which
    the browser takes in binary64.  For a goal holding a two-decimal
    amount of the column and an amount typed that is at most four tenths
    of a cent away from a two-decimal one, the number the browser sends is
    stored as the same two-decimal value as the exact sum (shown below,
    with the rounding of the stored amount); the statements about
    contributions keep to such amounts.  At a tie the two can differ: 0.075 added to
    0.01 is 0.085 exactly, stored as 0.09, and 0.08499999999999999 in
    binary64, stored as 0.08 (see [half_cent_tie_on_binary64]). *)

Definition cents (n : Z) : Qc := (Qc_of_Z n / Qc_of_Z 100)%Qc.

Definition half : Qc := (Qc_of_Z 1 / Qc_of_Z 2)%Qc.

Definition roundHalfAway (q : Qc) : Z :=
  if Qc_gtb (Qc_of_Z 0) q
  then (- Qfloor (this (- q + half)%Qc))%Z
  else Qfloor (this (q + half)%Qc).

Definition numeric_10_2 (q : Qc) : option Qc :=
  let n := roundHalfAway (q * Qc_of_Z 100)%Qc in
  if (Z.abs n <? 10 ^ 10)%Z then Some (cents n) else None.

Inductive dbError : Type := numeric_field_overflow | check_violation.

Definition storeCurrentAmount (v : Qc) : dbError + Qc :=
  match numeric_10_2 v with
  | None => inl numeric_field_overflow
  | Some v' => if Qc_gtb (Qc_of_Z 0) v' then inl check_violation else inr v'
  end.

Definition setCurrentAmount (v : Qc) (g : SavingsGoal Qc) : SavingsGoal Qc :=
  {| id := id g; goal_name := goal_name g; target_amount := target_amount g;
     current_amount := v; target_date := target_date g |}.

(** [.update({ current_amount: v }).eq("id", i)]: every row with that id
    is rewritten, or none is when the new value is refused. *)
Definition update (table : list (SavingsGoal Qc)) (i : string) (v : Qc)
  : dbError + list (SavingsGoal Qc) :=
  if existsb (fun g => (id g =? i)%string) table
  then match storeCurrentAmount v with
       | inl e => inl e
       | inr v' =>
           inr (map (fun g => if (id g =? i)%string then setCurrentAmount v' g else g)
                    table)
       end
  else inr table.

(** *** The page *)

Inductive toast : Type :=
| Success (description : string)
| Error (message : dbError).

(** [table] is the user's rows of [savings_goals] in the store,
    [savingsGoals] the React state the list is rendered from. *)
Record page : Type := {
  table : list (SavingsGoal Qc);
  savingsGoals : list (SavingsGoal Qc);
  toasts : list toast
}.

(** Lines 45-67; the order by [target_date] only arranges the display and
    is left out. *)
Definition fetchSavingsGoals (p : page) : page :=
  {| table := table p; savingsGoals := table p; toasts := toasts p |}.

(** Lines 108-130.  [newAmount] is [newTotal.toString()] read back by
    [parseFloat], which returns [newTotal]. *)
Definition handleUpdateProgress (i : string) (newAmount : Qc) (p : page) : page :=
  match update (table p) i newAmount with
  | inl e =>
      {| table := table p; savingsGoals := savingsGoals p;
         toasts := Error e :: toasts p |}
  | inr t =>
      fetchSavingsGoals
        {| table := t; savingsGoals := savingsGoals p;
           toasts := Success "Progress updated." :: toasts p |}
  end.

(** Lines 313-323, the Add button of the card rendered for [goal] (the
    Enter key handler, lines 304-311, is the same).  [input] is the text of
    the number input: [None] when it is empty, so that
    [input.value || "0"] is ["0"].  The sum is the exact one; [newTotal64]
    below is the sum as the browser takes it. *)
Definition addClicked (goal : SavingsGoal Qc) (input : option Qc) (p : page) : page :=
  let newTotal :=
    (current_amount goal + match input with Some v => v | None => Qc_of_Z 0 end)%Qc in
  handleUpdateProgress (id goal) newTotal p.

(** A click on the Add button of the card of goal [i]; there is a card
    for each element of [savingsGoals]. *)
Definition contribute (i : string) (input : option Qc) (p : page) : page :=
  match find (fun g => (id g =? i)%string) (savingsGoals p) with
  | Some goal => addClicked goal input p
  | None => p
  end.

(** The stored [current_amount] of goal [i]. *)
Definition storedAmount (p : page) (i : string) : option Qc :=
  option_map (@current_amount Qc) (find (fun g => (id g =? i)%string) (table p)).

End Savings.

(** ** The [ai-coach] edge function *)

Module AiCoach.

(** What a [catch] clause receives: an [Error] with its message, or some
    other value. *)
Inductive thrown : Type :=
| ErrorObject (message : string)
| OtherValue.

(** A computation inside the [try] block. *)
Definition attempt (A : Type) : Type := (thrown + A)%type.

Definition ret {A} (a : A) : attempt A := inr a.

Definition throw {A} (message : string) : attempt A := inl (ErrorObject message).

Definition bind {A B} (c : attempt A) (k : A -> attempt B) : attempt B :=
  match c with
  | inl e => inl e
  | inr a => k a
  end.

Notation "x <- c ;; k" := (bind c (fun x => k))
  (at level 61, c at next level, right associativity).
Notation "c ;;; k" := (bind c (fun _ => k))
  (at level 61, right associativity).

(** [if (!x) throw new Error(message)] for a string that may be absent. *)
Definition require (x : option string) (message : string) : attempt unit :=
  match x with
  | None => throw message
  | Some s => if (s =? "")%string then throw message else ret tt
  end.

Inductive body : Type :=
| NoBody
| ErrorJson (error : string)
| RecommendationJson (recommendation : option string).

Record Response : Type := { status : Z; payload : body }.

(** The answer of the gateway to [fetch]: its status, what
    [response.text()] does and what [response.json()] yields at
    [choices?.[0]?.message?.content]. *)
Record GatewayResponse : Type := {
  gatewayStatus : Z;
  text : attempt unit;
  content : attempt (option string)
}.

(** [response.ok] *)
Definition ok (r : GatewayResponse) : bool :=
  ((200 <=? gatewayStatus r) && (gatewayStatus r <=? 299))%Z.

(** Everything the handler reads from outside. *)
Record World (num : Type) : Type := {
  method : string;
  json : attempt (option string);          (* req.json(): userFinancialData *)
  LOVABLE_API_KEY : option string;
  Authorization : option string;
  createClient : attempt unit;
  getUser : bool;                          (* a user and no userError *)
  incomeData : option (list (Income.row num));
  fetch : attempt GatewayResponse
}.

Section WithNumber.
Context {num : Type} `{JsNumber num}.
Local Open Scope js_scope.

(** Lines 135-140, the reducer of the dashboard once more. *)
Definition totalIncome (data : option (list (Income.row num))) : num :=
  or_zero (option_map
    (fun l => fold_left
       (fun sum item =>
          let amount := Income.amount item in
          if (Income.frequency item =? "yearly")%string then sum + amount / js_of_Z 12
          else if (Income.frequency item =? "monthly")%string then sum + amount
          else sum)
       l (js_of_Z 0))
    data).

Definition rateLimited : Response :=
  {| status := 429;
     payload := ErrorJson "Rate limit exceeded. Please try again later." |}.

Definition paymentRequired : Response :=
  {| status := 402;
     payload :=
       ErrorJson "Payment required. Please add credits to your Lovable AI workspace." |}.

(** The [try] block, lines 104-210.  The prompt is assembled from the
    totals and sent with [fetch]; the gateway's answer is taken from the
    world whatever the prompt was. *)
Definition tryBlock (w : World num) : attempt Response :=
  json w ;;;
  require (LOVABLE_API_KEY w) "LOVABLE_API_KEY is not configured" ;;;
  require (Authorization w) "No authorization header" ;;;
  createClient w ;;;
  (if getUser w then ret tt else throw "Unauthorized") ;;;
  response <- fetch w ;;
  if negb (ok response) then
    if (gatewayStatus response =? 429)%Z then ret rateLimited
    else if (gatewayStatus response =? 402)%Z then ret paymentRequired
    else text response ;;; throw "AI gateway error"
  else
    recommendation <- content response ;;
    ret {| status := 200; payload := RecommendationJson recommendation |}.

(** The [catch] clause, lines 212-218. *)
Definition catchClause (error : thrown) : Response :=
  {| status := 500;
     payload := ErrorJson match error with
                          | ErrorObject message => message
                          | OtherValue => "Unknown error"
                          end |}.

Definition serve (w : World num) : Response :=
  if (method w =? "OPTIONS")%string then {| status := 200; payload := NoBody |}
  else match tryBlock w with
       | inr response => response
       | inl error => catchClause error
       end.

End WithNumber.
End AiCoach.

(** * Vocabulary of the statements *)

Section Sums.
Local Open Scope Qc_scope.

(** The sum of a list of amounts. *)
Definition sumQc (l : list Qc) : Qc := fold_right Qcplus 0 l.

(** The rows of a query result; a failed query has none. *)
Definition rowsOf {A : Type} (data : option (list A)) : list A :=
  match data with
  | Some l => l
  | None => []
  end.

(** The amounts of the records tagged [f]. *)
Definition amountsOf (f : string) (l : list (Income.row Qc)) : list Qc :=
  map (@Income.amount Qc) (filter (fun r => (Income.frequency r =? f)%string) l).

End Sums.

Section CategoryVocabulary.
Context {num : Type} `{JsNumber num}.

(** The total recorded for category [c], if [c] has an entry. *)
Definition valueOf (c : string) (acc : list (@Dashboard.entry num)) : option num :=
  option_map (@Dashboard.value num)
    (find (fun e => (Dashboard.name e =? c)%string) acc).

(** The amounts of the records of category [c], in input order. *)
Definition amountsIn (c : string) (l : list (Expense.row num)) : list num :=
  map (@Expense.amount num) (filter (fun r => (Expense.category r =? c)%string) l).

(** The amounts of category [c] added from left to right, from the first
    one on; [None] when no record has category [c]. *)
Definition categorySum (c : string) (l : list (Expense.row num)) : option num :=
  match amountsIn c l with
  | [] => None
  | a :: rest => Some (fold_left js_add rest a)
  end.

End CategoryVocabulary.

Section SavingsVocabulary.
Import Savings.
Local Open Scope Qc_scope.

(** The page shows what the store holds, as after [fetchSavingsGoals]. *)
Definition inSync (p : page) : Prop := savingsGoals p = table p.

(** [parseFloat(input.value || "0")] *)
Definition inputAmount (input : option Qc) : Qc :=
  match input with
  | Some v => v
  | None => Qc_of_Z 0
  end.

(** The amount typed is missing or not positive. *)
Definition notPositive (input : option Qc) : Prop :=
  match input with
  | Some v => v <= 0
  | None => True
  end.

(** The click was turned down: the store keeps its rows and an error is
    shown. *)
Definition rejected (p p' : page) : Prop :=
  table p' = table p /\ exists e, toasts p' = Error e :: toasts p.

End SavingsVocabulary.

Section AdviceVocabulary.
Import AiCoach.
Context {num : Type}.

(** The two answers the [catch] clause gives for the errors the handler
    throws itself after a failed token check and after a failed call. *)
Definition unauthorized : Response := catchClause (ErrorObject "Unauthorized").

Definition gatewayError : Response := catchClause (ErrorObject "AI gateway error").

(** The request gets as far as the token check: it is not a preflight,
    its body parses, the key and the header are there and the client is
    created. *)
Definition reachesTokenCheck (w : World num) : Prop :=
  method w <> "OPTIONS"%string
  /\ (exists data, json w = inr data)
  /\ require (LOVABLE_API_KEY w) "LOVABLE_API_KEY is not configured" = inr tt
  /\ require (Authorization w) "No authorization header" = inr tt
  /\ createClient w = inr tt.

End AdviceVocabulary.

(** [parseFloat] of the two-decimal text of [n] hundredths: the binary64
    nearest to [n / 100].  Both [n] and [100] are binary64 numbers (for
    [|n| < 2^53]) and the division rounds to nearest. *)
Definition parseCents (n : Z) : float :=
  PrimFloat.div (float_of_Z n) (float_of_Z 100).

(** * Sample inputs *)

(** A one-time income of 5000, a monthly one of 1000 and a yearly one of
    12000. *)
Definition threeIncomes {num : Type} `{JsNumber num} : list (Income.row num) :=
  [ {| Income.amount := js_of_Z 5000; Income.frequency := "one-time" |};
    {| Income.amount := js_of_Z 1000; Income.frequency := "monthly" |};
    {| Income.amount := js_of_Z 12000; Income.frequency := "yearly" |} ].

Section Samples.
Import Savings.

(** A goal of 2000 with 500 saved, due on day 20090; now is 07:30 UTC on
    day 20000, ninety days (rounded up) before. *)
Definition goal2000 : SavingsGoal Qc :=
  {| id := "g1"; goal_name := "Paris Trip";
     target_amount := Qc_of_Z 2000; current_amount := Qc_of_Z 500;
     target_date := 20090 |}.

Definition morningOfDay20000 : Z := 20000 * msPerDay + 27000000.

(** The goal of 2000 seen on the afternoon of its target day, and a week
    later. *)
Definition afternoonOfDay20090 : Z := 20090 * msPerDay + 54000000.

(** A goal of 1000 with 1200 saved, ninety days ahead. *)
Definition overshotGoal : SavingsGoal Qc :=
  {| id := "g2"; goal_name := "Weekend in Rome";
     target_amount := Qc_of_Z 1000; current_amount := Qc_of_Z 1200;
     target_date := 20090 |}.

(** A goal of 2000 with nothing saved yet. *)
Definition emptyGoal : SavingsGoal Qc :=
  {| id := "g1"; goal_name := "Paris Trip";
     target_amount := cents 200000; current_amount := cents 0;
     target_date := 20090 |}.

(** A goal of 2000 holding 100. *)
Definition goalHolding100 : SavingsGoal Qc :=
  {| id := "g1"; goal_name := "Paris Trip";
     target_amount := cents 200000; current_amount := cents 10000;
     target_date := 20090 |}.

(** The page showing one goal, nothing done yet. *)
Definition pageOf (g : SavingsGoal Qc) : page :=
  {| table := [g]; savingsGoals := [g]; toasts := [] |}.

(** Two expenses, 0.10 and 0.20, both for food. *)
Definition tenAndTwentyCents : list (Expense.row float) :=
  [ {| Expense.amount := parseCents 10; Expense.category := "Food" |};
    {| Expense.amount := parseCents 20; Expense.category := "Food" |} ].

(** An answer of the gateway with status [code]. *)
Definition gatewayAnswers (code : Z) : AiCoach.GatewayResponse :=
  {| AiCoach.gatewayStatus := code;
     AiCoach.text := inr tt;
     AiCoach.content := inr (Some "Book flights early."%string) |}.

(** A request without a question, with key and header in place. *)
Definition requestWith (signedIn : bool) (answer : AiCoach.attempt AiCoach.GatewayResponse)
  : AiCoach.World Qc :=
  {| AiCoach.method := "POST";
     AiCoach.json := inr None;
     AiCoach.LOVABLE_API_KEY := Some "key"%string;
     AiCoach.Authorization := Some "Bearer token"%string;
     AiCoach.createClient := inr tt;
     AiCoach.getUser := signedIn;
     AiCoach.incomeData := Some [];
     AiCoach.fetch := answer |}.

End Samples.

(** * Further code of the pages *)

From Stdlib Require Import Permutation Sorted Lqa Qabs Qpower.
From Stdlib Require Uint63.

(** ** Dashboard.tsx: the trend, the funds and the pie *)

Module DashboardView.
Section WithNumber.
Context {num : Type} `{JsNumber num}.
Local Open Scope js_scope.

(** The decimal literal [0.k]: the number nearest to [k / 10], which is
    what the division of [k] by [10] gives. *)
Definition tenths (k : Z) : num := js_of_Z k / js_of_Z 10.

(** An element of [monthlyTrend]. *)
Record point : Type := { month : string; income : num; expenses : num }.

(** Lines 96-100. *)
Definition monthlyTrend (totalIncome totalExpenses : num) : list point :=
  [ {| month := "Jan"; income := totalIncome * tenths 8;
       expenses := totalExpenses * tenths 7 |};
    {| month := "Feb"; income := totalIncome * tenths 9;
       expenses := totalExpenses * tenths 8 |};
    {| month := "Mar"; income := totalIncome; expenses := totalExpenses |} ].

(** Line 122. *)
Definition availableFunds (totalIncome totalExpenses : num) : num :=
  totalIncome - totalExpenses.

End WithNumber.

(** Line 109. *)
Definition COLORS : list string :=
  [ "hsl(200, 95%, 45%)"; "hsl(175, 70%, 50%)"; "hsl(14, 90%, 65%)";
    "hsl(190, 85%, 55%)"; "hsl(210, 40%, 96%)" ]%string.

(** Line 198, [COLORS[index % COLORS.length]]; [None] is [undefined]. *)
Definition cellFill (index : nat) : option string :=
  nth_error COLORS (index mod List.length COLORS).

(** Line 184: the pie is drawn when [expensesByCategory.length > 0], the
    text "No expense data yet" otherwise. *)
Definition pieShown {A : Type} (expensesByCategory : list A) : bool :=
  (0 <? List.length expensesByCategory)%nat.

End DashboardView.

(** ** Expenses.tsx *)

Module Expenses.

(** Line 23; the table's CHECK on [category] lists the same seven. *)
Definition CATEGORIES : list string :=
  [ "Flights"; "Hotels"; "Food"; "Activities"; "Transportation"; "Shopping";
    "Other" ]%string.

End Expenses.

(** ** Vocabulary of the further statements *)

(** The categories of [l] in the order in which each is met first, those
    in [seen] left out. *)
Fixpoint firstSeen (seen : list string) (l : list string) : list string :=
  match l with
  | [] => []
  | c :: rest =>
      if in_dec string_dec c seen then firstSeen seen rest
      else c :: firstSeen (seen ++ [c]) rest
  end.

(** One expense of 1 in each of the seven categories, on binary64. *)
Definition oneOfEach : list (Expense.row float) :=
  map (fun c => {| Expense.amount := float_of_Z 1; Expense.category := c |})
      Expenses.CATEGORIES.

(** Three expenses of 0.10, 0.20 and 0.30 for food, and the same three
    the other way round. *)
Definition threeExpenses : list (Expense.row float) :=
  [ {| Expense.amount := parseCents 10; Expense.category := "Food" |};
    {| Expense.amount := parseCents 20; Expense.category := "Food" |};
    {| Expense.amount := parseCents 30; Expense.category := "Food" |} ].

(** One goal of 1000 that holds 1200. *)
Definition overshotRows : list (Goal.row Qc) :=
  [ {| Goal.target_amount := Qc_of_Z 1000; Goal.current_amount := Qc_of_Z 1200 |} ].

(** The incomes and the expenses of a query result are not negative, as
    the tables require. *)
Definition incomesChecked (data : option (list (Income.row Qc))) : Prop :=
  Forall (fun r => (0 <= Income.amount r)%Qc) (rowsOf data).

Definition expensesChecked (data : option (list (Expense.row Qc))) : Prop :=
  Forall (fun r => (0 <= Expense.amount r)%Qc) (rowsOf data).

(** A monthly income of 1000 and an expense of 300. *)
Definition oneIncome : list (Income.row Qc) :=
  [ {| Income.amount := Qc_of_Z 1000; Income.frequency := "monthly" |} ].

Definition oneExpense : list (Expense.row Qc) :=
  [ {| Expense.amount := Qc_of_Z 300; Expense.category := "Food" |} ].

(** ** Savings.tsx: adding and deleting goals *)

(** The state [newGoal] at the moment the browser lets the form through:
    the required fields are filled and the number inputs hold numbers, so
    the amounts are the values [parseFloat] returns. *)
Module NewGoal.
Record t : Type := {
  goal_name : string;
  target_amount : Qc;
  current_amount : Qc;
  target_date : Z
}.
End NewGoal.

Module SavingsCrud.
Import Savings.

(** [target_amount DECIMAL(10, 2) NOT NULL CHECK (target_amount > 0)] *)
Definition storeTargetAmount (v : Qc) : dbError + Qc :=
  match numeric_10_2 v with
  | None => inl numeric_field_overflow
  | Some v' => if Qc_gtb v' (Qc_of_Z 0) then inr v' else inl check_violation
  end.

(** [.insert({...})], the store choosing the id [newId]
    ([gen_random_uuid()]).  The store first brings both amounts to the
    type of their columns, [DECIMAL(10, 2)], and an amount out of range
    fails there, as a numeric field overflow, whatever the other one is;
    the CHECK constraints are tested on the row so formed, and a failed
    one is a check violation, whichever it is. *)
Definition insert (table : list (SavingsGoal Qc)) (newId : string) (f : NewGoal.t)
  : dbError + list (SavingsGoal Qc) :=
  match numeric_10_2 (NewGoal.target_amount f),
        numeric_10_2 (NewGoal.current_amount f) with
  | Some _, Some _ =>
      match storeTargetAmount (NewGoal.target_amount f) with
      | inl e => inl e
      | inr target =>
          match storeCurrentAmount (NewGoal.current_amount f) with
          | inl e => inl e
          | inr current =>
              inr (table ++ [ {| id := newId;
                                 goal_name := NewGoal.goal_name f;
                                 target_amount := target;
                                 current_amount := current;
                                 target_date := NewGoal.target_date f |} ])
          end
      end
  | _, _ => inl numeric_field_overflow
  end.

(** Lines 69-106, for a signed-in user; the reset of the form, which does
    not reach the store, is left out. *)
Definition handleAddGoal (newId : string) (f : NewGoal.t) (p : page) : page :=
  match insert (table p) newId f with
  | inl e =>
      {| table := table p; savingsGoals := savingsGoals p;
         toasts := Error e :: toasts p |}
  | inr t =>
      fetchSavingsGoals
        {| table := t; savingsGoals := savingsGoals p;
           toasts := Success "Savings goal added successfully." :: toasts p |}
  end.

(** Lines 132-154: [.delete().eq("id", i)] removes the rows with that id,
    none if there is none, and reports no error either way. *)
Definition handleDeleteGoal (i : string) (p : page) : page :=
  fetchSavingsGoals
    {| table := filter (fun g => negb (id g =? i)%string) (table p);
       savingsGoals := savingsGoals p;
       toasts := Success "Savings goal deleted." :: toasts p |}.

(** What the user does on the page. *)
Inductive action : Type :=
| AddGoal (newId : string) (f : NewGoal.t)
| Contribute (i : string) (input : option Qc)
| DeleteGoal (i : string).

Definition step (p : page) (a : action) : page :=
  match a with
  | AddGoal newId f => handleAddGoal newId f p
  | Contribute i input => contribute i input p
  | DeleteGoal i => handleDeleteGoal i p
  end.

Definition run (actions : list action) (p : page) : page :=
  fold_left step actions p.

End SavingsCrud.

(** A stored goal holds two-decimal amounts in the range of the columns,
    a positive target and a current amount that is not negative. *)
Definition wellStoredGoal (g : Savings.SavingsGoal Qc) : Prop :=
  exists k t : Z,
    Savings.current_amount g = Savings.cents k /\ (0 <= k < 10 ^ 10)%Z
    /\ Savings.target_amount g = Savings.cents t /\ (0 < t < 10 ^ 10)%Z.

Definition wellStored (table : list (Savings.SavingsGoal Qc)) : Prop :=
  Forall wellStoredGoal table.

(** The row of goal [i] in the store. *)
Definition storedGoal (p : Savings.page) (i : string)
  : option (Savings.SavingsGoal Qc) :=
  find (fun g => (Savings.id g =? i)%string) (Savings.table p).

(** The page before anything was stored. *)
Definition emptyPage : Savings.page :=
  {| Savings.table := []; Savings.savingsGoals := []; Savings.toasts := [] |}.

(** A form for a goal of 2000, due on day 20090, with 100.555 typed as
    the amount already saved. *)
Definition parisForm : NewGoal.t :=
  {| NewGoal.goal_name := "Paris Trip";
     NewGoal.target_amount := Qc_of_Z 2000;
     NewGoal.current_amount := (Qc_of_Z 100555 / Qc_of_Z 1000)%Qc;
     NewGoal.target_date := 20090 |}.


(** Half a cent. *)
Definition halfCent : Qc := (Qc_of_Z 1 / Qc_of_Z 200)%Qc.


(** A form for a goal of 2000 that holds 100 already, and the same with a
    target of 0. *)
Definition goalOf2000Form : NewGoal.t :=
  {| NewGoal.goal_name := "Paris Trip";
     NewGoal.target_amount := Savings.cents 200000;
     NewGoal.current_amount := Savings.cents 10000;
     NewGoal.target_date := 20090 |}.

Definition zeroTargetForm : NewGoal.t :=
  {| NewGoal.goal_name := "Paris Trip";
     NewGoal.target_amount := Savings.cents 0;
     NewGoal.current_amount := Savings.cents 10000;
     NewGoal.target_date := 20090 |}.

(** ** The [ai-coach] edge function: the figures of the prompt *)

Module AiCoachPrompt.
Section WithNumber.
Context {num : Type} `{JsNumber num}.
Local Open Scope js_scope.

(** Lines 142-143. *)
Definition totalExpenses (data : option (list (Expense.row num))) : num :=
  or_zero (option_map
    (fun l => fold_left (fun sum item => sum + Expense.amount item) l (js_of_Z 0))
    data).

(** The object [acc] of lines 145-148: its keys in the order in which
    they were set, which is the order [JSON.stringify] prints them in for
    keys that are category names. *)
Definition object : Type := list (string * num).

(** [acc[key]]; [None] is [undefined]. *)
Fixpoint get (acc : object) (key : string) : option num :=
  match acc with
  | [] => None
  | (k, v) :: rest => if (k =? key)%string then Some v else get rest key
  end.

(** [acc[key] = v] *)
Fixpoint set (acc : object) (key : string) (v : num) : object :=
  match acc with
  | [] => [(key, v)]
  | (k, v0) :: rest =>
      if (k =? key)%string then (k, v) :: rest else (k, v0) :: set rest key v
  end.

(** Lines 145-148. *)
Definition expensesByCategory (data : option (list (Expense.row num))) : object :=
  match data with
  | Some l =>
      fold_left
        (fun acc item =>
           set acc (Expense.category item)
             (or_zero (get acc (Expense.category item)) + Expense.amount item))
        l []
  | None => []
  end.

(** The user message, lines 161-168: the question as it came, or the
    template with the figures it prints (the amounts with two decimals,
    the object as JSON). *)
Inductive prompt : Type :=
| Question (text : string)
| Summary (income expenses funds : num) (byCategory : object) (goals : nat).

(** [userFinancialData || `...`]; the empty string is falsy. *)
Definition userPrompt (userFinancialData : option string)
    (incomeData : option (list (Income.row num)))
    (expensesData : option (list (Expense.row num)))
    (savingsData : option (list (Goal.row num))) : prompt :=
  let summary :=
    Summary (AiCoach.totalIncome incomeData) (totalExpenses expensesData)
      (AiCoach.totalIncome incomeData - totalExpenses expensesData)
      (expensesByCategory expensesData)
      (List.length (rowsOf savingsData)) in
  match userFinancialData with
  | Some text => if (text =? "")%string then summary else Question text
  | None => summary
  end.

End WithNumber.
End AiCoachPrompt.

(** ** The AICoach page (the component after the Income page in Income.tsx) *)

(** The body of a 2xx answer of the function, [data]: [data.error] and
    [data.recommendation], [None] for a field that is not there. *)
Module FunctionData.
Record t : Type := {
  error : option string;
  recommendation : option string
}.
End FunctionData.

Module AICoachPage.

(** What [supabase.functions.invoke] resolves to: [error] set and [data]
    null, or [data] set and [error] null. *)
Inductive invoked : Type :=
| Failure (message : string)
| Returned (data : FunctionData.t).

Inductive toast : Type :=
| Success (description : string)
| Error (description : string).

(** The state of the page; [recommendation] is [None] once it was set to
    [undefined]. *)
Record page : Type := {
  loading : bool;
  recommendation : option string;
  userQuestion : string;
  toasts : list toast
}.

(** [x || y] on strings. *)
Definition orElse (x y : string) : string :=
  if (x =? "")%string then y else x.

(** The body of the request, [{ userFinancialData: customQuestion || null }]. *)
Definition requestBody (customQuestion : option string) : option string :=
  match customQuestion with
  | Some text => if (text =? "")%string then None else Some text
  | None => None
  end.

Definition failed (message : string) (p : page) : page :=
  {| loading := false;
     recommendation := recommendation p;
     userQuestion := userQuestion p;
     toasts :=
       Error (orElse message "Failed to get recommendations. Please try again.")
       :: toasts p |}.

(** [getRecommendations], lines 266-297; [invoke] is the call of the
    function with the given [userFinancialData]. *)
Definition getRecommendations (invoke : option string -> invoked)
    (customQuestion : option string) (p : page) : page :=
  match invoke (requestBody customQuestion) with
  | Failure message => failed message p
  | Returned data =>
      match FunctionData.error data with
      | Some message =>
          if (message =? "")%string
          then {| loading := false;
                  recommendation := FunctionData.recommendation data;
                  userQuestion := userQuestion p;
                  toasts := Success "AI recommendations generated!" :: toasts p |}
          else failed message p
      | None =>
          {| loading := false;
             recommendation := FunctionData.recommendation data;
             userQuestion := userQuestion p;
             toasts := Success "AI recommendations generated!" :: toasts p |}
      end
  end.

(** The recommendation card is rendered for a non-empty text. *)
Definition cardShown (p : page) : bool :=
  match recommendation p with
  | Some text => negb (text =? "")%string
  | None => false
  end.

End AICoachPage.

(** The pairs of name and value of the dashboard's entries. *)
Definition asObject {num : Type} (entries : list (@Dashboard.entry num))
  : list (string * num) :=
  map (fun e => (Dashboard.name e, Dashboard.value e)) entries.

(** The status is one of a successful answer. *)
Definition is2xx (r : AiCoach.Response) : bool :=
  ((200 <=? AiCoach.status r) && (AiCoach.status r <=? 299))%Z.

(** What the page receives for an answer of the function when the client
    reports every answer outside 2xx as one failure with the message
    [message], and hands on the body of the others. *)
Definition reportsStatusOnly (message : string)
    (transport : AiCoach.Response -> AICoachPage.invoked) : Prop :=
  forall r : AiCoach.Response, is2xx r = false ->
    transport r = AICoachPage.Failure message.

(** The body of an answer read as [data]. *)
Definition bodyOf (r : AiCoach.Response) : FunctionData.t :=
  {| FunctionData.error :=
       match AiCoach.payload r with
       | AiCoach.ErrorJson e => Some e
       | _ => None
       end;
     FunctionData.recommendation :=
       match AiCoach.payload r with
       | AiCoach.RecommendationJson text => text
       | _ => None
       end |}.

(** The client hands on the body of a 2xx answer. *)
Definition handsOnBody (transport : AiCoach.Response -> AICoachPage.invoked) : Prop :=
  forall r : AiCoach.Response, is2xx r = true ->
    transport r = AICoachPage.Returned (bodyOf r).

(** A client that does both. *)
Definition statusOnlyClient (r : AiCoach.Response) : AICoachPage.invoked :=
  if is2xx r
  then AICoachPage.Returned (bodyOf r)
  else AICoachPage.Failure "Edge Function returned a non-2xx status code".

(** The page as it is opened. *)
Definition freshCoachPage : AICoachPage.page :=
  {| AICoachPage.loading := false;
     AICoachPage.recommendation := Some ""%string;
     AICoachPage.userQuestion := "";
     AICoachPage.toasts := [] |}.

(** A request that reaches a function without key, and without header
    and user besides. *)
Definition unconfiguredRequest : AiCoach.World Qc :=
  {| AiCoach.method := "POST";
     AiCoach.json := inr None;
     AiCoach.LOVABLE_API_KEY := None;
     AiCoach.Authorization := None;
     AiCoach.createClient := inr tt;
     AiCoach.getUser := false;
     AiCoach.incomeData := None;
     AiCoach.fetch := inr (gatewayAnswers 429) |}.

(** A gateway that answers 200 without any choice. *)
Definition silentGateway : AiCoach.GatewayResponse :=
  {| AiCoach.gatewayStatus := 200;
     AiCoach.text := inr tt;
     AiCoach.content := inr None |}.

(** * Binary64 amounts *)

(** ** The number a float stands for *)

Definition pow2 (e : Z) : Q := (2 ^ e)%Q.

Definition SF2Q (x : spec_float) : Q :=
  match x with
  | S754_finite s m e =>
      ((if s then - inject_Z (Z.pos m) else inject_Z (Z.pos m)) * pow2 e)%Q
  | _ => 0%Q
  end.

Definition value64 (x : float) : Q := SF2Q (Prim2SF x).

(** A float that is a number: a zero or a finite one. *)
Definition SFfinite (x : spec_float) : bool :=
  match x with
  | S754_zero _ | S754_finite _ _ _ => true
  | _ => false
  end.

Definition finite64 (x : float) : bool := SFfinite (Prim2SF x).

(** A float that is zero or a positive finite number. *)
Definition SFnonneg (x : spec_float) : bool :=
  match x with
  | S754_zero false | S754_finite false _ _ => true
  | _ => false
  end.

Definition nonneg64 (x : float) : bool := SFnonneg (Prim2SF x).

(** [x] is a float that is not negative and stands for [q] up to [err]. *)
Definition approx (x : float) (q err : Q) : Prop :=
  nonneg64 x = true /\ (Qabs (value64 x - q) <= err)%Q.

Definition sumQ (l : list Q) : Q := fold_right Qplus 0%Q l.

Definition sumZ (l : list Z) : Z := fold_right Z.add 0%Z l.

(** [x.toFixed(2)], as the cards of the dashboard show their totals
    (lines 138 and 149) and the prompt of the edge function prints them
    (lines 162-164), read as a number of cents: for [x >= 0] below
    [10^21] the integer [n] for which [n / 100 - x] is closest to zero,
    the larger one of two such; for [x < 0] the same for [- x], with the
    sign in front; [None] for what is not a finite number. *)
Definition toFixed2 (x : float) : option Z :=
  match Prim2SF x with
  | S754_zero _ => Some 0%Z
  | S754_finite s m e =>
      let n := Qfloor (inject_Z (Z.pos m) * pow2 e * 100 + (1 # 2)) in
      Some (if s then (- n)%Z else n)
  | _ => None
  end.

(** ** Rounding as [SpecFloat] does it *)

(** Where [r / d] lies in the unit interval. *)
Definition locOf (r d : Z) : location :=
  if (r =? 0)%Z then loc_Exact else loc_Inexact (2 * r ?= d)%Z.

Definition inexact (l : location) : bool :=
  match l with loc_Exact => false | loc_Inexact _ => true end.

(** The quotient [N / D] with what is left of it. *)
Definition recOf (N D : Z) : shr_record :=
  shr_record_of_loc (N / D) (locOf (N mod D) D).

(** The quotient of two mantissas as [SFdiv] prepares it for rounding:
    the dividend is scaled so that the integer quotient has at least 53
    digits. *)
Definition divExponent (mx my : positive) (ex ey : Z) : Z :=
  Z.min (Z.pos (digits2_pos mx) + ex - (Z.pos (digits2_pos my) + ey) - 53) (ex - ey).

Definition divNumerator (mx my : positive) (ex ey : Z) : Z :=
  (Z.pos mx * 2 ^ (ex - ey - divExponent mx my ex ey))%Z.

(** ** Rows read from the store *)

(** The rows of [expenses] and [income_sources] as the queries return
    them to a page: the [amount] column holds [n] hundredths, and
    [parseFloat] reads it as the nearest float. *)
Definition expenseOf (r : Z * string) : Expense.row float :=
  {| Expense.amount := parseCents (fst r); Expense.category := snd r |}.

Definition incomeOf (r : Z * string) : Income.row float :=
  {| Income.amount := parseCents (fst r); Income.frequency := snd r |}.

(** The amount fits the column, [DECIMAL(10, 2)] with [CHECK (amount >= 0)]. *)
Definition inColumn (r : Z * string) : Prop := (0 <= fst r < 10 ^ 10)%Z.

(** The rows are few enough for their sums to come out right to the
    cent: at most 500 of them, or at most 10 000 that come to at most
    1 000 000 000 ([total] is in hundredths). *)
Definition fewEnough (count total : Z) : Prop :=
  (count <= 500)%Z \/ ((count <= 10000)%Z /\ (total <= 10 ^ 11)%Z).

(** The hundredths of the rows tagged [c]. *)
Definition centsOf (c : string) (rows : list (Z * string)) : list Z :=
  map fst (filter (fun r => (snd r =? c)%string) rows).

(** What a record adds to the monthly income: its amount when it is
    monthly, a twelfth when it is yearly, nothing otherwise. *)
Definition monthlyTerms {num : Type} `{JsNumber num} (l : list (Income.row num))
  : list num :=
  flat_map
    (fun item =>
       if (Income.frequency item =? "yearly")%string
       then [js_div (Income.amount item) (js_of_Z 12)]
       else if (Income.frequency item =? "monthly")%string
       then [Income.amount item]
       else [])
    l.

(** The exact values of the terms of [monthlyTerms]. *)
Definition termsExact (rows : list (Z * string)) : list Q :=
  flat_map
    (fun r =>
       if (snd r =? "yearly")%string then [(inject_Z (fst r) / 100 / 12)%Q]
       else if (snd r =? "monthly")%string then [(inject_Z (fst r) / 100)%Q]
       else [])
    rows.

(** The closed form of the monthly income of rows given in hundredths. *)
Definition monthlyExact (rows : list (Z * string)) : Q :=
  (inject_Z (sumZ (centsOf "monthly" rows)) / 100
   + inject_Z (sumZ (centsOf "yearly" rows)) / 100 / 12)%Q.

(** ** The sum of line 317 of Savings.tsx *)

(** The amount shown and the amount typed, each parsed, are added. *)
Definition newTotal64 (shown typed : float) : float := PrimFloat.add shown typed.

(** [parseFloat] of the three-decimal text of [n] thousandths. *)
Definition parseMills (n : Z) : float :=
  PrimFloat.div (float_of_Z n) (float_of_Z 1000).

(** Four tenths of a cent. *)
Definition fourMills : Qc := (Qc_of_Z 4 / Qc_of_Z 1000)%Qc.

(** ** Sample inputs on binary64 *)

(** 2500 hotel bills of 99 999 999.99, the largest amount of the column. *)
Definition largeExpenses : list (Z * string) :=
  repeat (9999999999%Z, "Hotels"%string) 2500.

(** 0.10 for food, 0.10 for a hotel and 0.40 for food. *)
Definition foodHotelFood : list (Z * string) :=
  [ (10%Z, "Food"%string); (10%Z, "Hotels"%string); (40%Z, "Food"%string) ].

(** Two yearly incomes of 1.00 and 7.00. *)
Definition yearlyOneAndSeven : list (Z * string) :=
  [ (100%Z, "yearly"%string); (700%Z, "yearly"%string) ].

(** A gift of 5000.00, a salary of 1000.00 a month and 12000.00 a year on
    the side. *)
Definition threeIncomeRows : list (Z * string) :=
  [ (500000%Z, "one-time"%string); (100000%Z, "monthly"%string);
    (1200000%Z, "yearly"%string) ].

(** The goal of 2000 holding one cent. *)
Definition goalHoldingACent : Savings.SavingsGoal Qc :=
  {| Savings.id := "g1"; Savings.goal_name := "Paris Trip";
     Savings.target_amount := Savings.cents 200000;
     Savings.current_amount := Savings.cents 1;
     Savings.target_date := 20090 |}.

(** * Properties *)

(** ** Exact arithmetic *)

Section ExactFacts.
Local Open Scope Qc_scope.

Lemma Qc_gtb_spec (a b : Qc) : Qc_gtb a b = true <-> b < a.
Proof.
  unfold Qc_gtb. rewrite Qclt_alt.
  destruct (b ?= a); split; congruence.
Qed.

Lemma Qc_gtb_false (a b : Qc) : Qc_gtb a b = false <-> a <= b.
Proof.
  split; intro Hab.
  - apply Qcnot_lt_le. intro Hlt. apply Qc_gtb_spec in Hlt. congruence.
  - destruct (Qc_gtb a b) eqn:E; [|reflexivity].
    apply Qc_gtb_spec in E. exfalso. exact (Qcle_not_lt _ _ Hab E).
Qed.

(** On rationals [x || 0] is [x]. *)
Lemma or_zero_exact (v : Qc) : or_zero (Some v) = v.
Proof.
  unfold or_zero; cbn.
  destruct (Qc_eq_bool v 0) eqn:E; cbn; [|reflexivity].
  apply Qc_eq_bool_correct in E. now subst.
Qed.

Lemma or_zero_undefined : or_zero (num := Qc) None = 0.
Proof. reflexivity. Qed.

Lemma Qc_of_Z_0 : Qc_of_Z 0 = 0.
Proof. reflexivity. Qed.

Lemma Qc_of_Z_inj (a b : Z) : Qc_of_Z a = Qc_of_Z b -> a = b.
Proof.
  unfold Qc_of_Z. intro Heq. apply Q2Qc_eq_iff in Heq.
  unfold Qeq in Heq. cbn in Heq. lia.
Qed.

Lemma Qc_of_Z_neq0 (z : Z) : z <> 0%Z -> Qc_of_Z z <> 0.
Proof. intros Hz Heq. apply Hz. now apply Qc_of_Z_inj. Qed.

Lemma Qc_of_Z_add (a b : Z) : Qc_of_Z (a + b) = Qc_of_Z a + Qc_of_Z b.
Proof.
  apply Qc_is_canon. unfold Qc_of_Z, Qcplus, Q2Qc, this.
  rewrite !Qred_correct. rewrite inject_Z_plus. reflexivity.
Qed.

Lemma Qc_of_Z_lt (a b : Z) : (a < b)%Z <-> Qc_of_Z a < Qc_of_Z b.
Proof.
  unfold Qclt, Qc_of_Z, Q2Qc, this. rewrite !Qred_correct.
  rewrite <- Zlt_Qlt. reflexivity.
Qed.

Lemma Qc_of_Z_le (a b : Z) : (a <= b)%Z <-> Qc_of_Z a <= Qc_of_Z b.
Proof.
  unfold Qcle, Qc_of_Z, Q2Qc, this. rewrite !Qred_correct.
  rewrite <- Zle_Qle. reflexivity.
Qed.

Lemma sumQc_nil : sumQc [] = 0.
Proof. reflexivity. Qed.

Lemma sumQc_cons (a : Qc) (l : list Qc) : sumQc (a :: l) = a + sumQc l.
Proof. reflexivity. Qed.

Lemma sumQc_app (l1 l2 : list Qc) : sumQc (l1 ++ l2) = sumQc l1 + sumQc l2.
Proof.
  induction l1 as [|a l1 IH]; cbn [app].
  - rewrite sumQc_nil. ring.
  - rewrite !sumQc_cons, IH. ring.
Qed.

End ExactFacts.

(** ** Binary64 arithmetic

    The error of one addition, one division and one conversion, from the
    definitions of [SpecFloat], which the primitive floats are specified
    by; all of it for numbers in the normal range. *)

Section Rounding.

Local Open Scope Z_scope.

Lemma digits2_pos_bounds (p : positive) :
  2 ^ (Z.pos (digits2_pos p) - 1) <= Z.pos p < 2 ^ Z.pos (digits2_pos p).
Proof.
  induction p as [p IH|p IH|]; cbn [digits2_pos].
  - rewrite Pos2Z.inj_succ.
    replace (Z.succ (Z.pos (digits2_pos p)) - 1) with (Z.succ (Z.pos (digits2_pos p) - 1)) by lia.
    rewrite !Z.pow_succ_r by lia. lia.
  - rewrite Pos2Z.inj_succ.
    replace (Z.succ (Z.pos (digits2_pos p)) - 1) with (Z.succ (Z.pos (digits2_pos p) - 1)) by lia.
    rewrite !Z.pow_succ_r by lia. lia.
  - cbn. lia.
Qed.

Lemma shr_1_of_loc (q : Z) (l : location) :
  0 <= q ->
  shr_1 (shr_record_of_loc q l)
  = {| shr_m := q / 2; shr_r := Z.odd q; shr_s := inexact l |}.
Proof.
  intro Hq.
  assert (Hm : shr_m (shr_1 (shr_record_of_loc q l)) = q / 2).
  { destruct q as [|[p|p|]|]; try lia;
      destruct l as [|[]]; cbn [shr_record_of_loc shr_1 shr_m];
      try reflexivity; first [apply Z.div_unique with (r := 1); lia | apply Z.div_unique with (r := 0); lia]. }
  destruct q as [|[p|p|]|]; try lia;
    destruct l as [|[]]; cbn [shr_record_of_loc shr_1 shr_m] in *;
    rewrite <- Hm; reflexivity.
Qed.

Lemma shr_1_recOf (N D : Z) :
  0 <= N -> 0 < D -> shr_1 (recOf N D) = recOf N (2 * D).
Proof.
  intros HN HD. unfold recOf.
  pose proof (Z.div_mod N D ltac:(lia)) as Hdm.
  pose proof (Z.mod_pos_bound N D HD) as Hr.
  pose proof (Z.div_pos N D HN HD) as Hq.
  rewrite shr_1_of_loc by exact Hq.
  set (q := N / D) in *. set (r := N mod D) in *.
  assert (Hq2 : N / (2 * D) = q / 2).
  { rewrite Z.mul_comm, <- Z.div_div by lia. reflexivity. }
  pose proof (Z.div_mod q 2 ltac:(lia)) as Hq'.
  pose proof (Z.mod_pos_bound q 2 ltac:(lia)) as Hb.
  assert (Hr2 : N mod (2 * D) = (q mod 2) * D + r).
  { pose proof (Z.div_mod N (2 * D) ltac:(lia)) as H2. rewrite Hq2 in H2. nia. }
  rewrite Hq2, Hr2. clear Hq' Hb Hq2 Hr2. rewrite Zmod_odd.
  unfold locOf.
  destruct (Z.odd q).
  - assert (E1 : (1 * D + r =? 0) = false) by (apply Z.eqb_neq; lia). rewrite E1.
    destruct (r =? 0) eqn:E.
    + apply Z.eqb_eq in E.
      replace (2 * (1 * D + r) ?= 2 * D) with Eq
        by (symmetry; apply Z.compare_eq_iff; lia).
      reflexivity.
    + apply Z.eqb_neq in E.
      replace (2 * (1 * D + r) ?= 2 * D) with Gt
        by (symmetry; apply Z.compare_gt_iff; lia).
      reflexivity.
  - rewrite Z.mul_0_l, Z.add_0_l.
    destruct (r =? 0) eqn:E; [reflexivity|].
    apply Z.eqb_neq in E.
    replace (2 * r ?= 2 * D) with Lt by (symmetry; apply Z.compare_lt_iff; lia).
    reflexivity.
Qed.

Lemma iter_pos_shr_1 (p : positive) (N D : Z) :
  0 <= N -> 0 < D -> SpecFloat.iter_pos shr_1 p (recOf N D) = recOf N (D * 2 ^ Z.pos p).
Proof.
  intro HN. revert D. induction p as [p IH|p IH|]; intros D HD; cbn [SpecFloat.iter_pos].
  - assert (0 < 2 ^ Z.pos p) by (apply Z.pow_pos_nonneg; lia).
    rewrite shr_1_recOf, !IH by nia.
    f_equal. replace (Z.pos p~1) with (Z.pos p + Z.pos p + 1) by lia.
    rewrite !Z.pow_add_r by lia. ring.
  - assert (0 < 2 ^ Z.pos p) by (apply Z.pow_pos_nonneg; lia).
    rewrite !IH by nia.
    f_equal. replace (Z.pos p~0) with (Z.pos p + Z.pos p) by lia.
    rewrite !Z.pow_add_r by lia. ring.
  - rewrite shr_1_recOf by lia. f_equal. change (2 ^ 1) with 2. ring.
Qed.

(** Shifting right by [n >= 0] places. *)
Lemma shr_recOf (N D e n : Z) :
  0 <= N -> 0 < D -> 0 <= n ->
  shr (recOf N D) e n = (recOf N (D * 2 ^ n), e + n).
Proof.
  intros HN HD Hn. destruct n as [|p|p]; [| |lia]; cbn [shr].
  - now rewrite Z.mul_1_r, Z.add_0_r.
  - now rewrite iter_pos_shr_1.
Qed.

Lemma loc_of_recOf (N D : Z) : loc_of_shr_record (recOf N D) = locOf (N mod D) D.
Proof. unfold recOf. now destruct (locOf (N mod D) D) as [|[]]. Qed.

Lemma shr_m_recOf (N D : Z) : shr_m (recOf N D) = N / D.
Proof. unfold recOf. now destruct (locOf (N mod D) D) as [|[]]. Qed.

(** Rounding to nearest, ties to even: the result is [N / D] or the next
    integer and lies within a half of [N / D]. *)
Lemma round_nearest_even_recOf (N D : Z) :
  0 <= N -> 0 < D ->
  let m := round_nearest_even (N / D) (locOf (N mod D) D) in
  N / D <= m <= N / D + 1 /\ 2 * m * D - D <= 2 * N <= 2 * m * D + D.
Proof.
  intros HN HD.
  pose proof (Z.div_mod N D ltac:(lia)) as Hdm.
  pose proof (Z.mod_pos_bound N D HD) as Hr.
  set (q := N / D) in *. set (r := N mod D) in *. clearbody q r.
  unfold locOf, round_nearest_even. cbv zeta.
  destruct (r =? 0) eqn:E.
  - apply Z.eqb_eq in E. nia.
  - subst N. destruct (Z.compare_spec (2 * r) D) as [C|C|C].
    + destruct (Z.even q); (split; [lia|nia]).
    + split; [lia|nia].
    + split; [lia|nia].
Qed.

Lemma Zdigits2_bounds (m : Z) :
  0 < m -> 2 ^ (Zdigits2 m - 1) <= m < 2 ^ Zdigits2 m.
Proof.
  destruct m as [|p|p]; try lia. intros _. apply digits2_pos_bounds.
Qed.

Lemma Zdigits2_unique (m d : Z) :
  2 ^ (d - 1) <= m < 2 ^ d -> 0 < d -> Zdigits2 m = d.
Proof.
  intros Hm Hd.
  assert (H0 : 0 < m).
  { assert (0 < 2 ^ (d - 1)) by (apply Z.pow_pos_nonneg; lia). lia. }
  pose proof (Zdigits2_bounds H0) as Hb.
  assert (Hpos : 0 < Zdigits2 m) by (destruct m; cbn; lia).
  destruct (Z.lt_trichotomy (Zdigits2 m) d) as [Hlt|[Heq|Hgt]]; [|exact Heq|].
  - assert (2 ^ Zdigits2 m <= 2 ^ (d - 1)) by (apply Z.pow_le_mono_r; lia). lia.
  - assert (2 ^ d <= 2 ^ (Zdigits2 m - 1)) by (apply Z.pow_le_mono_r; lia). lia.
Qed.

Lemma fexp_normal (z : Z) : -1021 <= z -> fexp prec emax z = z - 53.
Proof. unfold fexp, SpecFloat.emin, prec, emax. lia. Qed.

Lemma fexp_subnormal (z : Z) : z <= -1021 -> fexp prec emax z = -1074.
Proof. unfold fexp, SpecFloat.emin, prec, emax. lia. Qed.

Lemma recOf_exact (m : Z) : shr_record_of_loc m loc_Exact = recOf m 1.
Proof. unfold recOf, locOf. now rewrite Z.div_1_r, Z.mod_1_r. Qed.

(** A mantissa that is already in place is kept. *)
Lemma binary_round_aux_exact (m : positive) (e : Z) :
  fexp prec emax (Z.pos (digits2_pos m) + e) = e -> e <= 971 ->
  binary_round_aux prec emax false (Z.pos m) e loc_Exact = S754_finite false m e.
Proof.
  intros Hfexp He. unfold binary_round_aux, shr_fexp.
  cbn [Zdigits2]. rewrite Hfexp, Z.sub_diag. cbn [shr shr_record_of_loc shr_m loc_of_shr_record round_nearest_even].
  cbn [Zdigits2]. rewrite Hfexp, Z.sub_diag. cbn [shr shr_record_of_loc shr_m].
  unfold emax, prec. change (1024 - 53) with 971.
  apply Z.leb_le in He. now rewrite He.
Qed.

(** Rounding [N / D * 2 ^ e], a number with at least 53 digits before
    the point and in the normal range, to 53 digits: the mantissa [m1]
    kept is within a half of [N / D'], where [D'] is [D] scaled to leave
    53 digits, and the result holds [m1] or, when [m1] is [2 ^ 53], its
    half at the next exponent. *)
Lemma binary_round_aux_normal (N D e : Z) :
  0 <= N -> 0 < D -> 53 <= Zdigits2 (N / D) ->
  -1021 <= Zdigits2 (N / D) + e <= 1023 ->
  exists (m : positive) (e' m1 : Z),
    binary_round_aux prec emax false (N / D) e (locOf (N mod D) D)
    = S754_finite false m e'
    /\ (let D' := D * 2 ^ (Zdigits2 (N / D) - 53) in
        2 * m1 * D' - D' <= 2 * N <= 2 * m1 * D' + D')
    /\ 2 ^ 52 <= m1 <= 2 ^ 53
    /\ ((e' = e + Zdigits2 (N / D) - 53 /\ Z.pos m = m1)
        \/ (e' = e + Zdigits2 (N / D) - 52 /\ 2 * Z.pos m = m1)).
Proof.
  intros HN HD Hd Hrange.
  set (d := Zdigits2 (N / D)) in *.
  assert (Hq : 0 < N / D).
  { pose proof (Z.div_pos N D HN HD).
    destruct (N / D) as [|p|p] eqn:E; cbn in d; subst d; lia. }
  pose proof (Zdigits2_bounds Hq) as Hb. fold d in Hb.
  set (n := d - 53). set (D' := D * 2 ^ n).
  assert (Hn : 0 <= n) by (subst n; lia).
  assert (Hpow : 0 < 2 ^ n) by (apply Z.pow_pos_nonneg; lia).
  assert (HD' : 0 < D') by (subst D'; nia).
  assert (Hq' : 2 ^ 52 <= N / D' < 2 ^ 53).
  { subst D'. rewrite <- Z.div_div by lia.
    assert (E1 : 2 ^ (d - 1) = 2 ^ 52 * 2 ^ n)
      by (rewrite <- Z.pow_add_r by lia; f_equal; subst n; lia).
    assert (E2 : 2 ^ d = 2 ^ 53 * 2 ^ n)
      by (rewrite <- Z.pow_add_r by lia; f_equal; subst n; lia).
    split.
    - apply Z.div_le_lower_bound; lia.
    - apply Z.div_lt_upper_bound; lia. }
  destruct (round_nearest_even_recOf HN HD') as [Hm1 Herr].
  set (m1 := round_nearest_even (N / D') (locOf (N mod D') D')) in *.
  assert (Hfirst :
    shr_fexp prec emax (N / D) e (locOf (N mod D) D) = (recOf N D', e + n)).
  { unfold shr_fexp. fold d. rewrite fexp_normal by lia. fold (recOf N D).
    replace (d + e - 53 - e) with n by (subst n; lia).
    now apply shr_recOf. }
  unfold binary_round_aux. rewrite Hfirst, shr_m_recOf, loc_of_recOf. fold m1.
  clearbody m1. clear Hfirst.
  destruct (Z.eq_dec m1 (2 ^ 53)) as [Htop|Hless].
  - assert (Hsecond :
      shr_fexp prec emax m1 (e + n) loc_Exact = (recOf m1 2, e + n + 1)).
    { unfold shr_fexp. rewrite (@Zdigits2_unique m1 54) by (subst m1; cbn; lia).
      rewrite fexp_normal by (subst n; lia). rewrite recOf_exact.
      replace (54 + (e + n) - 53 - (e + n)) with 1 by lia.
      rewrite shr_recOf by lia. reflexivity. }
    rewrite Hsecond, shr_m_recOf, Htop.
    change (2 ^ 53 / 2) with (Z.pos (2 ^ 52)).
    replace (e + n + 1 <=? emax - prec) with true
      by (symmetry; apply Z.leb_le; unfold emax, prec; subst n; lia).
    exists (2 ^ 52)%positive, (e + n + 1), m1.
    split; [reflexivity|]. split; [exact Herr|]. split; [lia|].
    right. split; [subst n; lia | rewrite Htop; reflexivity].
  - assert (Hsecond :
      shr_fexp prec emax m1 (e + n) loc_Exact
      = (shr_record_of_loc m1 loc_Exact, e + n)).
    { unfold shr_fexp. rewrite (@Zdigits2_unique m1 53) by lia.
      rewrite fexp_normal by (subst n; lia).
      replace (53 + (e + n) - 53 - (e + n)) with 0 by lia. reflexivity. }
    rewrite Hsecond. cbn [shr_record_of_loc shr_m].
    destruct m1 as [|p|p] eqn:Ep; try lia.
    replace (e + n <=? emax - prec) with true
      by (symmetry; apply Z.leb_le; unfold emax, prec; subst n; lia).
    exists p, (e + n), (Z.pos p).
    split; [reflexivity|]. split; [exact Herr|]. split; [lia|].
    left. split; [subst n; lia | reflexivity].
Qed.

End Rounding.

Section Powers.
Local Open Scope Q_scope.

Lemma pow2_pos (e : Z) : 0 < pow2 e.
Proof. apply Qpower_0_lt. reflexivity. Qed.

Lemma pow2_add (a b : Z) : pow2 (a + b) == pow2 a * pow2 b.
Proof. apply Qpower_plus. discriminate. Qed.

Lemma pow2_le (a b : Z) : (a <= b)%Z -> pow2 a <= pow2 b.
Proof. intro Hab. apply Qpower_le_compat_l; [exact Hab | discriminate]. Qed.

Lemma pow2_lt_inv (a b : Z) : pow2 a < pow2 b -> (a < b)%Z.
Proof. intro Hab. apply (Qpower_lt_compat_l_inv _ _ _ Hab). reflexivity. Qed.

Lemma pow2_inject (n : Z) : (0 <= n)%Z -> inject_Z (2 ^ n) == pow2 n.
Proof. intro Hn. unfold pow2. now rewrite Zpower_Qpower. Qed.

Lemma pow2_half (e : Z) : pow2 (e - 1) == pow2 e / 2.
Proof.
  replace (e - 1)%Z with (e + -1)%Z by lia.
  rewrite pow2_add. reflexivity.
Qed.

Lemma scaled_error (t a b c : Q) :
  0 < t -> a - c <= b <= a + c -> Qabs (t * a - t * b) <= t * c.
Proof.
  intros Ht [Hlo Hhi]. apply Qabs_diff_Qle_condition.
  assert (H1 : t * (a - c) <= t * b) by (apply Qmult_le_l; assumption).
  assert (H2 : t * b <= t * (a + c)) by (apply Qmult_le_l; assumption).
  split; lra.
Qed.

End Powers.

Section RoundValue.
Local Open Scope Q_scope.

Lemma Zpos_iter_xO (m p : positive) :
  Z.pos (Pos.iter xO m p) = (Z.pos m * 2 ^ Z.pos p)%Z.
Proof.
  change (Pos.iter xO m p) with (shift_pos p m).
  rewrite shift_pos_correct. change (Z.pow_pos 2 p) with (2 ^ Z.pos p)%Z. ring.
Qed.

Lemma digits2_pos_iter_xO (m p : positive) :
  Z.pos (digits2_pos (Pos.iter xO m p)) = (Z.pos (digits2_pos m) + Z.pos p)%Z.
Proof.
  change (Z.pos (digits2_pos (Pos.iter xO m p)))
    with (Zdigits2 (Z.pos (Pos.iter xO m p))).
  pose proof (digits2_pos_bounds m) as Hb.
  assert (Hp : (0 < 2 ^ Z.pos p)%Z) by (apply Z.pow_pos_nonneg; lia).
  apply Zdigits2_unique; [|lia]. rewrite Zpos_iter_xO.
  replace (Z.pos (digits2_pos m) + Z.pos p - 1)%Z
    with (Z.pos (digits2_pos m) - 1 + Z.pos p)%Z by lia.
  rewrite !Z.pow_add_r by lia. nia.
Qed.

Lemma value_lt_digits (m : positive) (e k : Z) :
  inject_Z (Z.pos m) * pow2 e < pow2 k -> (Z.pos (digits2_pos m) + e <= k)%Z.
Proof.
  intro Hlt. pose proof (digits2_pos_bounds m) as [Hlo _].
  assert (Hd : pow2 (Z.pos (digits2_pos m) - 1) <= inject_Z (Z.pos m)).
  { rewrite <- pow2_inject by lia. now rewrite <- Zle_Qle. }
  assert (pow2 (Z.pos (digits2_pos m) - 1 + e) < pow2 k).
  { rewrite pow2_add. eapply Qle_lt_trans; [|exact Hlt].
    apply Qmult_le_compat_r; [exact Hd | apply Qlt_le_weak, pow2_pos]. }
  apply pow2_lt_inv in H. lia.
Qed.

(** A number with at most 53 digits above the least exponent is kept as
    it is. *)
Lemma binary_round_exact (M : positive) (E : Z) :
  (fexp prec emax (Z.pos (digits2_pos M) + E) <= E)%Z ->
  (fexp prec emax (Z.pos (digits2_pos M) + E) <= 971)%Z ->
  exists (m : positive) (e : Z),
    binary_round prec emax false M E = S754_finite false m e
    /\ inject_Z (Z.pos m) * pow2 e == inject_Z (Z.pos M) * pow2 E.
Proof.
  intros Hle Hmax. set (d := Z.pos (digits2_pos M)) in *.
  unfold binary_round. fold d. unfold shl_align.
  destruct (fexp prec emax (d + E) - E)%Z as [|p|p] eqn:Ep; try lia.
  - assert (Hsame : fexp prec emax (d + E) = E) by lia.
    exists M, E. split; [|reflexivity].
    apply binary_round_aux_exact; [exact Hsame | lia].
  - assert (Hfe : fexp prec emax (d + E) = (E - Z.pos p)%Z) by lia.
    exists (Pos.iter xO M p), (fexp prec emax (d + E)). split.
    + apply binary_round_aux_exact; [|exact Hmax].
      rewrite digits2_pos_iter_xO. fold d. rewrite Hfe at 1.
      replace (d + Z.pos p + (E - Z.pos p))%Z with (d + E)%Z by lia.
      reflexivity.
    + rewrite Hfe, Zpos_iter_xO, inject_Z_mult, pow2_inject by lia.
      replace E with (Z.pos p + (E - Z.pos p))%Z at 2 by lia.
      rewrite (pow2_add (Z.pos p)). ring.
Qed.

(** Rounding [M * 2 ^ E] to a float: in range, the result is finite and
    within half a unit in the last place. *)
Lemma binary_round_value (M : positive) (E k : Z) :
  (-1074 <= E)%Z -> (k <= 1023)%Z -> inject_Z (Z.pos M) * pow2 E < pow2 k ->
  exists (m : positive) (e : Z),
    binary_round prec emax false M E = S754_finite false m e
    /\ Qabs (inject_Z (Z.pos m) * pow2 e - inject_Z (Z.pos M) * pow2 E)
       <= pow2 (k - 54).
Proof.
  intros HE Hk Hlt. pose proof (value_lt_digits _ _ Hlt) as Hd.
  set (d := Z.pos (digits2_pos M)) in *.
  assert (Hzero : forall x : Q, Qabs (x - x) <= pow2 (k - 54)).
  { intro x. setoid_replace (x - x) with 0 by ring.
    apply Qlt_le_weak, pow2_pos. }
  destruct (Z.le_gt_cases (fexp prec emax (d + E)) E) as [Hlow|Hhigh].
  - (* at most 53 digits: nothing is lost *)
    destruct (@binary_round_exact M E) as (m & e & Hres & Hvalue); fold d.
    + exact Hlow.
    + unfold fexp, SpecFloat.emin, prec, emax in *. lia.
    + exists m, e. split; [exact Hres|]. rewrite Hvalue. apply Hzero.
  - (* more than 53 digits: rounding *)
    unfold binary_round. fold d. unfold shl_align.
    destruct (fexp prec emax (d + E) - E)%Z as [|p|p] eqn:Ep; try lia.
    assert (Hnormal : fexp prec emax (d + E) = (d + E - 53)%Z).
    { unfold fexp, SpecFloat.emin, prec, emax in *. lia. }
    assert (Hd53 : (53 < d)%Z) by lia.
    destruct (@binary_round_aux_normal (Z.pos M) 1 E) as (m & e' & m1 & Hres & Herr & Hm1 & Hcase);
      rewrite ?Z.div_1_r; try lia;
      [cbn [Zdigits2]; fold d; lia | cbn [Zdigits2]; fold d; lia |].
    rewrite Z.div_1_r, Z.mod_1_r in Hres. change (locOf 0 1) with loc_Exact in Hres.
    rewrite Z.div_1_r in Herr, Hcase. cbn [Zdigits2] in Herr, Hcase. fold d in Herr, Hcase.
    cbv zeta in Herr. rewrite Z.mul_1_l in Herr.
    exists m, e'. split; [exact Hres|].
    assert (Hvalue : inject_Z (Z.pos m) * pow2 e' == pow2 (E + d - 53) * inject_Z m1).
    { destruct Hcase as [[-> ->]|[-> <-]].
      - ring.
      - replace (E + d - 52)%Z with (E + d - 53 + 1)%Z by lia.
        rewrite pow2_add, inject_Z_mult. change (pow2 1) with 2.
        change (inject_Z 2) with 2. ring. }
    rewrite Hvalue.
    replace (E + d - 53)%Z with (E + (d - 53))%Z by lia. rewrite pow2_add.
    setoid_replace (pow2 E * pow2 (d - 53) * inject_Z m1 - inject_Z (Z.pos M) * pow2 E)
      with (pow2 E * (pow2 (d - 53) * inject_Z m1) - pow2 E * inject_Z (Z.pos M)) by ring.
    eapply Qle_trans.
    + apply scaled_error with (c := pow2 (d - 53) * (1 # 2)); [apply pow2_pos|].
      rewrite <- pow2_inject by lia.
      set (P := (2 ^ (d - 53))%Z) in *.
      destruct Herr as [Hlo Hhi].
      rewrite Zle_Qle in Hlo, Hhi.
      unfold Z.sub in Hlo. rewrite inject_Z_plus, inject_Z_opp, !inject_Z_mult in Hlo.
      rewrite inject_Z_plus, !inject_Z_mult in Hhi.
      change (inject_Z 2) with 2 in Hlo, Hhi.
      split; lra.
    + change (1 # 2) with (pow2 (-1)). rewrite <- !pow2_add. apply pow2_le. lia.
Qed.

End RoundValue.

Section Addition.
Local Open Scope Q_scope.

Lemma valid_exponent (s : bool) (m : positive) (e : Z) :
  valid_binary (S754_finite s m e) = true -> (-1074 <= e)%Z.
Proof.
  cbn [SpecFloat.valid_binary]. unfold bounded, canonical_mantissa.
  intro Hv. apply andb_prop in Hv as [Hc _]. apply Z.eqb_eq in Hc.
  unfold fexp, SpecFloat.emin, prec, emax in Hc. lia.
Qed.

Lemma shl_align_value (mx : positive) (ex ez : Z) :
  (ez <= ex)%Z ->
  inject_Z (Z.pos (fst (shl_align mx ex ez))) * pow2 ez
  == inject_Z (Z.pos mx) * pow2 ex.
Proof.
  intro Hle. unfold shl_align.
  destruct (ez - ex)%Z as [|p|p] eqn:Ep; cbn [fst]; try lia.
  - replace ez with ex by lia. reflexivity.
  - rewrite Zpos_iter_xO, inject_Z_mult, pow2_inject by lia.
    replace ex with (Z.pos p + ez)%Z by lia. rewrite pow2_add. ring.
Qed.

Lemma SFnonneg_value (x : spec_float) : SFnonneg x = true -> 0 <= SF2Q x.
Proof.
  destruct x as [[]|[]| |[] m e]; intro Hx; try discriminate Hx; cbn [SF2Q].
  - apply Qle_refl.
  - apply Qmult_le_0_compat; [now rewrite <- (Zle_Qle 0) | apply Qlt_le_weak, pow2_pos].
Qed.

(** The sum of two floats that are not negative: as long as the exact
    sum stays below [2 ^ k], the float sum is within [2 ^ (k - 54)], half
    a unit in the last place of numbers that size, of it. *)
Lemma SFadd_value (x y : spec_float) (k : Z) :
  valid_binary x = true -> valid_binary y = true ->
  SFnonneg x = true -> SFnonneg y = true ->
  (k <= 1023)%Z -> SF2Q x + SF2Q y < pow2 k ->
  SFnonneg (SF64add x y) = true
  /\ Qabs (SF2Q (SF64add x y) - (SF2Q x + SF2Q y)) <= pow2 (k - 54).
Proof.
  intros Hvx Hvy Hx Hy Hk Hlt.
  assert (Hzero : forall a b : Q, a == b -> Qabs (a - b) <= pow2 (k - 54)).
  { intros a b Hab. setoid_replace (a - b) with 0 by lra.
    apply Qlt_le_weak, pow2_pos. }
  destruct x as [[]|[]| |[] mx ex]; try discriminate Hx;
    destruct y as [[]|[]| |[] my ey]; try discriminate Hy;
    cbn [SF2Q] in *.
  - split; [reflexivity | apply Hzero; cbn; lra].
  - split; [reflexivity | apply Hzero; cbn [SF64add SFadd SF2Q]; lra].
  - split; [reflexivity | apply Hzero; cbn [SF64add SFadd SF2Q]; lra].
  - unfold SF64add, SFadd. cbn [cond_Zopp].
    set (ez := Z.min ex ey).
    pose proof (valid_exponent _ _ _ Hvx) as Hex.
    pose proof (valid_exponent _ _ _ Hvy) as Hey.
    pose proof (@shl_align_value mx ex ez ltac:(subst ez; lia)) as Hax.
    pose proof (@shl_align_value my ey ez ltac:(subst ez; lia)) as Hay.
    set (a := fst (shl_align mx ex ez)) in *. set (b := fst (shl_align my ey ez)) in *.
    change (Z.pos a + Z.pos b)%Z with (Z.pos (a + b)). cbn [binary_normalize].
    assert (Hsum : inject_Z (Z.pos (a + b)) * pow2 ez
                   == inject_Z (Z.pos mx) * pow2 ex + inject_Z (Z.pos my) * pow2 ey).
    { rewrite Pos2Z.inj_add, inject_Z_plus, <- Hax, <- Hay. ring. }
    destruct (@binary_round_value (a + b) ez k) as (m & e & Hres & Herr);
      [subst ez; lia | exact Hk | now rewrite Hsum |].
    rewrite Hres. split; [reflexivity|]. cbn [SF2Q]. now rewrite <- Hsum.
Qed.

Lemma add_value (x y : float) (k : Z) :
  nonneg64 x = true -> nonneg64 y = true ->
  (k <= 1023)%Z -> value64 x + value64 y < pow2 k ->
  nonneg64 (x + y) = true
  /\ Qabs (value64 (x + y) - (value64 x + value64 y)) <= pow2 (k - 54).
Proof.
  unfold nonneg64, value64. rewrite add_spec.
  apply SFadd_value; apply Prim2SF_valid.
Qed.

End Addition.

Section SignedAddition.
Local Open Scope Q_scope.

Lemma binary_round_aux_opp (m e : Z) (l : location) :
  binary_round_aux prec emax true m e l
  = SFopp (binary_round_aux prec emax false m e l).
Proof.
  unfold binary_round_aux.
  destruct (shr_fexp prec emax m e l) as [r1 e1].
  destruct (shr_fexp prec emax _ e1 loc_Exact) as [r2 e2].
  destruct (shr_m r2); [reflexivity| |reflexivity].
  destruct (e2 <=? emax - prec)%Z; reflexivity.
Qed.

Lemma binary_round_opp (m : positive) (e : Z) :
  binary_round prec emax true m e = SFopp (binary_round prec emax false m e).
Proof.
  unfold binary_round.
  destruct (shl_align m e _) as [mz ez]. apply binary_round_aux_opp.
Qed.

Lemma SF2Q_opp (x : spec_float) : SF2Q (SFopp x) == - SF2Q x.
Proof.
  destruct x as [s|s| |s m e]; cbn [SFopp SF2Q]; try reflexivity.
  destruct s; cbn [negb]; ring.
Qed.

Lemma SFnonneg_finite (x : spec_float) : SFnonneg x = true -> SFfinite x = true.
Proof. destruct x as [[]|[]| |[] m e]; intro Hx; try discriminate Hx; reflexivity. Qed.

(** The sum of two floats of any sign: as long as the exact sum stays
    below [2 ^ k] in absolute value, the float sum is within
    [2 ^ (k - 54)] of it. *)
Lemma SFadd_value_signed (x y : spec_float) (k : Z) :
  valid_binary x = true -> valid_binary y = true ->
  SFfinite x = true -> SFfinite y = true ->
  (k <= 1023)%Z -> Qabs (SF2Q x + SF2Q y) < pow2 k ->
  SFfinite (SF64add x y) = true
  /\ Qabs (SF2Q (SF64add x y) - (SF2Q x + SF2Q y)) <= pow2 (k - 54).
Proof.
  intros Hvx Hvy Hx Hy Hk Hlt.
  assert (Hzero : forall a b : Q, a == b -> Qabs (a - b) <= pow2 (k - 54)).
  { intros a b Hab. setoid_replace (a - b) with 0 by lra.
    apply Qlt_le_weak, pow2_pos. }
  destruct x as [sx|sx| |sx mx ex]; try discriminate Hx;
    destruct y as [sy|sy| |sy my ey]; try discriminate Hy.
  - split; [destruct sx, sy; reflexivity|].
    apply Hzero. destruct sx, sy; cbn; lra.
  - split; [reflexivity|]. apply Hzero. cbn [SF64add SFadd SF2Q]. lra.
  - split; [reflexivity|]. apply Hzero. cbn [SF64add SFadd SF2Q]. lra.
  - unfold SF64add, SFadd.
    set (ez := Z.min ex ey).
    pose proof (valid_exponent _ _ _ Hvx) as Hex.
    pose proof (valid_exponent _ _ _ Hvy) as Hey.
    pose proof (@shl_align_value mx ex ez ltac:(subst ez; lia)) as Hax.
    pose proof (@shl_align_value my ey ez ltac:(subst ez; lia)) as Hay.
    set (a := fst (shl_align mx ex ez)) in *. set (b := fst (shl_align my ey ez)) in *.
    set (M := (cond_Zopp sx (Z.pos a) + cond_Zopp sy (Z.pos b))%Z).
    assert (Hsum : inject_Z M * pow2 ez
                   == SF2Q (S754_finite sx mx ex) + SF2Q (S754_finite sy my ey)).
    { subst M. cbn [SF2Q]. rewrite inject_Z_plus.
      destruct sx, sy; cbn [cond_Zopp]; rewrite ?inject_Z_opp; lra. }
    rewrite <- Hsum in Hlt |- *. clearbody M. clear Hsum.
    destruct M as [|p|p]; cbn [binary_normalize].
    + split; [reflexivity|]. apply Hzero. cbn [SF2Q]. ring.
    + destruct (@binary_round_value p ez k) as (m & e & Hres & Herr);
        [subst ez; lia | exact Hk | |].
      * rewrite Qabs_pos in Hlt; [exact Hlt|].
        apply Qmult_le_0_compat; [now rewrite <- (Zle_Qle 0) | apply Qlt_le_weak, pow2_pos].
      * rewrite Hres. split; [reflexivity|]. exact Herr.
    + destruct (@binary_round_value p ez k) as (m & e & Hres & Herr);
        [subst ez; lia | exact Hk | |].
      * change (Z.neg p) with (- Z.pos p)%Z in Hlt. rewrite inject_Z_opp in Hlt.
        setoid_replace (- inject_Z (Z.pos p) * pow2 ez)
          with (- (inject_Z (Z.pos p) * pow2 ez)) in Hlt by ring.
        rewrite Qabs_opp, Qabs_pos in Hlt; [exact Hlt|].
        apply Qmult_le_0_compat; [now rewrite <- (Zle_Qle 0) | apply Qlt_le_weak, pow2_pos].
      * rewrite binary_round_opp, Hres. split; [reflexivity|].
        cbn [SFopp SF2Q negb].
        change (Z.neg p) with (- Z.pos p)%Z. rewrite inject_Z_opp.
        setoid_replace (- inject_Z (Z.pos m) * pow2 e - - inject_Z (Z.pos p) * pow2 ez)
          with (- (inject_Z (Z.pos m) * pow2 e - inject_Z (Z.pos p) * pow2 ez)) by ring.
        rewrite Qabs_opp. exact Herr.
Qed.

Lemma add_value_signed (x y : float) (k : Z) :
  finite64 x = true -> finite64 y = true ->
  (k <= 1023)%Z -> Qabs (value64 x + value64 y) < pow2 k ->
  finite64 (x + y) = true
  /\ Qabs (value64 (x + y) - (value64 x + value64 y)) <= pow2 (k - 54).
Proof.
  unfold finite64, value64. rewrite add_spec.
  apply SFadd_value_signed; apply Prim2SF_valid.
Qed.

End SignedAddition.

Section Division.
Local Open Scope Q_scope.

Lemma new_location_locOf (nb k : Z) :
  (0 < nb)%Z -> new_location nb k = locOf k nb.
Proof.
  intro Hnb. unfold new_location, new_location_even, new_location_odd, locOf.
  destruct (Z.even nb) eqn:Eeven; [reflexivity|].
  destruct (k =? 0)%Z; [reflexivity|]. f_equal.
  assert (Hodd : Z.odd nb = true) by (rewrite <- Z.negb_even, Eeven; reflexivity).
  apply Z.odd_spec in Hodd as [j Hj].
  destruct (Z.compare_spec (2 * k + 1) nb) as [C|C|C];
    symmetry; [apply Z.compare_lt_iff | apply Z.compare_lt_iff | apply Z.compare_gt_iff];
    lia.
Qed.

Lemma pow2_sub (a b : Z) : pow2 (a - b) == pow2 a / pow2 b.
Proof.
  replace a with (a - b + b)%Z at 2 by lia. rewrite pow2_add.
  field. apply Qnot_eq_sym, Qlt_not_eq, pow2_pos.
Qed.

Lemma inject_Z_pos (p : positive) : 0 < inject_Z (Z.pos p).
Proof. now rewrite <- (Zlt_Qlt 0). Qed.

Lemma SFdiv_core_normal (mx my : positive) (ex ey : Z) :
  (-1021 <= Z.pos (digits2_pos mx) + ex - (Z.pos (digits2_pos my) + ey))%Z ->
  SFdiv_core_binary prec emax (Z.pos mx) ex (Z.pos my) ey
  = ((divNumerator mx my ex ey / Z.pos my)%Z, divExponent mx my ex ey,
     locOf (divNumerator mx my ex ey mod Z.pos my) (Z.pos my)).
Proof.
  intro HA. unfold SFdiv_core_binary. cbn [Zdigits2].
  rewrite fexp_normal by exact HA. fold (divExponent mx my ex ey).
  unfold divNumerator. set (e0 := divExponent mx my ex ey).
  assert (Hs : (0 <= ex - ey - e0)%Z) by (subst e0; unfold divExponent; lia).
  set (s := (ex - ey - e0)%Z) in *.
  assert (Hm : match s with
               | Z.pos _ => Z.shiftl (Z.pos mx) s
               | 0%Z => Z.pos mx
               | Z.neg _ => 0%Z
               end = (Z.pos mx * 2 ^ s)%Z).
  { destruct s as [|p|p] eqn:Es; try lia. now rewrite Z.shiftl_mul_pow2. }
  rewrite Hm. unfold Z.div, Z.modulo.
  destruct (Z.div_eucl (Z.pos mx * 2 ^ s) (Z.pos my)) as [q r].
  now rewrite new_location_locOf.
Qed.

Lemma divNumerator_digits (mx my : positive) (ex ey : Z) :
  (2 ^ 52 <= divNumerator mx my ex ey / Z.pos my)%Z
  /\ (Z.pos (digits2_pos mx) + ex - (Z.pos (digits2_pos my) + ey)
      <= Zdigits2 (divNumerator mx my ex ey / Z.pos my) + divExponent mx my ex ey)%Z.
Proof.
  unfold divNumerator. set (e0 := divExponent mx my ex ey).
  pose proof (digits2_pos_bounds mx) as [Hx _].
  pose proof (digits2_pos_bounds my) as [_ Hy].
  set (d1 := Z.pos (digits2_pos mx)) in *. set (d2 := Z.pos (digits2_pos my)) in *.
  assert (Hs : (0 <= ex - ey - e0 /\ d2 - d1 + 53 <= ex - ey - e0)%Z)
    by (subst e0; unfold divExponent; fold d1 d2; lia).
  set (s := (ex - ey - e0)%Z) in *.
  assert (Hlow : forall j : Z, (0 <= j)%Z -> (j <= d1 - 1 + s - d2)%Z ->
                 (2 ^ j <= Z.pos mx * 2 ^ s / Z.pos my)%Z).
  { intros j Hj0 Hj. apply Z.div_le_lower_bound; [lia|].
    assert (H1 : (2 ^ (d1 - 1) * 2 ^ s <= Z.pos mx * 2 ^ s)%Z).
    { apply Z.mul_le_mono_nonneg_r; [apply Z.pow_nonneg; lia | exact Hx]. }
    assert (H2 : (Z.pos my * 2 ^ j <= 2 ^ d2 * 2 ^ j)%Z).
    { apply Z.mul_le_mono_nonneg_r; [apply Z.pow_nonneg; lia | lia]. }
    rewrite <- Z.pow_add_r in H1, H2 by lia.
    assert (H3 : (2 ^ (d2 + j) <= 2 ^ (d1 - 1 + s))%Z)
      by (apply Z.pow_le_mono_r; lia).
    lia. }
  split; [apply Hlow; lia|].
  assert (Hq : (0 < Z.pos mx * 2 ^ s / Z.pos my)%Z).
  { pose proof (Hlow 52%Z ltac:(lia) ltac:(lia)). lia. }
  pose proof (Zdigits2_bounds Hq) as [_ Hd].
  set (d := Zdigits2 (Z.pos mx * 2 ^ s / Z.pos my)) in *.
  assert (Hdpos : (0 <= d)%Z).
  { subst d. destruct (Z.pos mx * 2 ^ s / Z.pos my)%Z; cbn; lia. }
  assert (Hj : (0 <= d1 - 1 + s - d2)%Z) by lia.
  pose proof (Hlow _ Hj (Z.le_refl _)) as Hq'.
  assert (Hlt : (2 ^ (d1 - 1 + s - d2) < 2 ^ d)%Z) by lia.
  apply Z.pow_lt_mono_r_iff in Hlt; [|lia|lia].
  subst s. lia.
Qed.

Lemma pow2_neq0 (e : Z) : ~ pow2 e == 0.
Proof. apply Qnot_eq_sym, Qlt_not_eq, pow2_pos. Qed.

Lemma digits_value_bounds (m : positive) (e : Z) :
  pow2 (Z.pos (digits2_pos m) - 1 + e) <= inject_Z (Z.pos m) * pow2 e
  /\ inject_Z (Z.pos m) * pow2 e < pow2 (Z.pos (digits2_pos m) + e).
Proof.
  pose proof (digits2_pos_bounds m) as [Hlo Hhi].
  rewrite Zle_Qle in Hlo. rewrite Zlt_Qlt in Hhi.
  rewrite pow2_inject in Hlo, Hhi by lia.
  rewrite !pow2_add. split.
  - apply Qmult_le_compat_r; [exact Hlo | apply Qlt_le_weak, pow2_pos].
  - apply Qmult_lt_compat_r; [apply pow2_pos | exact Hhi].
Qed.

(** The quotient of two positive floats: in the normal range, the float
    quotient is within half a unit in the last place of the exact one. *)
Lemma SFdiv_value (mx my : positive) (ex ey k : Z) :
  let X := inject_Z (Z.pos mx) * pow2 ex in
  let Y := inject_Z (Z.pos my) * pow2 ey in
  pow2 (-1021) <= X / Y -> X / Y < pow2 k -> (k <= 1023)%Z ->
  exists (m : positive) (e : Z),
    SF64div (S754_finite false mx ex) (S754_finite false my ey)
    = S754_finite false m e
    /\ Qabs (inject_Z (Z.pos m) * pow2 e - X / Y) <= pow2 (k - 54).
Proof.
  intros X Y Hlow Hhigh Hk.
  pose proof (digits_value_bounds mx ex) as [HXlo HXhi].
  pose proof (digits_value_bounds my ey) as [HYlo HYhi].
  fold X in HXlo, HXhi. fold Y in HYlo, HYhi.
  assert (HY : 0 < Y).
  { apply Qmult_lt_0_compat; [apply inject_Z_pos | apply pow2_pos]. }
  set (d1 := Z.pos (digits2_pos mx)) in *. set (d2 := Z.pos (digits2_pos my)) in *.
  assert (HA : (-1021 <= d1 + ex - (d2 + ey))%Z).
  { assert (Hlt : X / Y < pow2 (d1 + ex - (d2 + ey) + 1)).
    { apply Qlt_shift_div_r; [exact HY|].
      eapply Qlt_le_trans; [exact HXhi|].
      replace (d1 + ex)%Z with (d1 + ex - (d2 + ey) + 1 + (d2 - 1 + ey))%Z at 1 by lia.
      rewrite pow2_add. apply Qmult_le_l; [apply pow2_pos | exact HYlo]. }
    assert (Hp : pow2 (-1021) < pow2 (d1 + ex - (d2 + ey) + 1))
      by (eapply Qle_lt_trans; eassumption).
    apply pow2_lt_inv in Hp. lia. }
  pose proof (SFdiv_core_normal mx my ex ey HA) as Hcore.
  pose proof (divNumerator_digits mx my ex ey) as [Hq52 Hdlow].
  fold d1 d2 in Hdlow.
  set (e0 := divExponent mx my ex ey) in *.
  set (N := divNumerator mx my ex ey) in *.
  set (D := Z.pos my) in *.
  assert (HD : (0 < D)%Z) by (subst D; lia).
  assert (HN : (0 <= N)%Z).
  { subst N. unfold divNumerator. apply Z.mul_nonneg_nonneg; [lia|].
    apply Z.pow_nonneg. lia. }
  (* the exact quotient, from the scaled dividend *)
  assert (Hs : (0 <= ex - ey - e0)%Z) by (subst e0; unfold divExponent; lia).
  assert (HQ : X / Y == inject_Z N / inject_Z D * pow2 e0).
  { subst N X Y. unfold divNumerator. fold e0.
    rewrite inject_Z_mult, pow2_inject by exact Hs.
    rewrite (pow2_sub (ex - ey) e0), (pow2_sub ex ey).
    field. repeat split; try apply pow2_neq0.
    subst D. apply Qnot_eq_sym, Qlt_not_eq, inject_Z_pos. }
  (* the integer quotient and its digits *)
  pose proof (Z.div_mod N D ltac:(lia)) as Hdm.
  pose proof (Z.mod_pos_bound N D HD) as Hr.
  assert (Hq : (0 < N / D)%Z) by lia.
  destruct (N / D)%Z as [|q|q] eqn:Eq; try lia.
  assert (Hqle : inject_Z (Z.pos q) <= inject_Z N / inject_Z D).
  { apply Qle_shift_div_l; [now rewrite <- (Zlt_Qlt 0)|].
    rewrite <- inject_Z_mult, <- Zle_Qle. nia. }
  assert (Hdk : (Z.pos (digits2_pos q) + e0 <= k)%Z).
  { apply value_lt_digits.
    apply Qle_lt_trans with (inject_Z N / inject_Z D * pow2 e0);
      [|rewrite <- HQ; exact Hhigh].
    apply Qmult_le_compat_r; [exact Hqle | apply Qlt_le_weak, pow2_pos]. }
  cbn [Zdigits2] in Hdlow.
  assert (Hd53 : (53 <= Z.pos (digits2_pos q))%Z).
  { pose proof (digits2_pos_bounds q) as [_ Hhi].
    assert (Hlt : (2 ^ 52 < 2 ^ Z.pos (digits2_pos q))%Z) by lia.
    apply Z.pow_lt_mono_r_iff in Hlt; lia. }
  destruct (@binary_round_aux_normal N D e0 HN HD)
    as (m & e' & m1 & Hres & Herr & Hm1 & Hcase);
    rewrite ?Eq; cbn [Zdigits2]; try lia.
  rewrite Eq in Hres, Herr, Hcase. cbn [Zdigits2] in Herr, Hcase. cbv zeta in Herr.
  set (d := Z.pos (digits2_pos q)) in *.
  exists m, e'. split.
  - unfold SF64div, SFdiv. fold D. rewrite Hcore. cbn [xorb]. exact Hres.
  - assert (Hvalue : inject_Z (Z.pos m) * pow2 e' == pow2 (e0 + d - 53) * inject_Z m1).
    { destruct Hcase as [[-> ->]|[-> <-]].
      - ring.
      - replace (e0 + d - 52)%Z with (e0 + d - 53 + 1)%Z by lia.
        rewrite pow2_add, inject_Z_mult. change (pow2 1) with 2.
        change (inject_Z 2) with 2. ring. }
    set (P := (2 ^ (d - 53))%Z) in *.
    assert (HP : (0 < P)%Z) by (apply Z.pow_pos_nonneg; lia).
    assert (HDP : 0 < inject_Z (D * P)) by (rewrite <- (Zlt_Qlt 0); nia).
    assert (Hexact : X / Y == pow2 (e0 + d - 53) * (inject_Z N / inject_Z (D * P))).
    { rewrite HQ. replace (e0 + d - 53)%Z with (e0 + (d - 53))%Z by lia.
      rewrite pow2_add, inject_Z_mult. subst P. rewrite pow2_inject by lia.
      field. split; [apply pow2_neq0|].
      subst D. apply Qnot_eq_sym, Qlt_not_eq, inject_Z_pos. }
    rewrite Hvalue, Hexact.
    eapply Qle_trans.
    + apply scaled_error with (c := 1 # 2); [apply pow2_pos|].
      destruct Herr as [Hlo Hhi].
      rewrite Zle_Qle in Hlo, Hhi.
      unfold Z.sub in Hlo. rewrite inject_Z_plus, inject_Z_opp, !inject_Z_mult in Hlo.
      rewrite inject_Z_plus, !inject_Z_mult in Hhi.
      rewrite inject_Z_mult in HDP |- *.
      change (inject_Z 2) with 2 in Hlo, Hhi.
      split.
      * apply Qle_shift_div_l; [exact HDP|]. lra.
      * apply Qle_shift_div_r; [exact HDP|]. lra.
    + change (1 # 2) with (pow2 (-1)). rewrite <- pow2_add. apply pow2_le. lia.
Qed.

End Division.

Section Parsing.
Local Open Scope Q_scope.

(** An integer below [2 ^ 53] is a float. *)
Lemma float_of_Z_exact (n : Z) :
  (0 < n < 2 ^ 53)%Z ->
  exists (m : positive) (e : Z),
    Prim2SF (float_of_Z n) = S754_finite false m e
    /\ inject_Z (Z.pos m) * pow2 e == inject_Z n.
Proof.
  intros [Hpos Hlt]. destruct n as [|p|p]; try lia.
  unfold float_of_Z. rewrite of_uint63_spec, Uint63.of_Z_spec.
  rewrite Z.mod_small by (change Uint63.wB with (2 ^ 63)%Z; lia).
  cbn [binary_normalize].
  pose proof (digits2_pos_bounds p) as [Hlo _].
  assert (Hd : (Z.pos (digits2_pos p) <= 53)%Z).
  { assert (H : (2 ^ (Z.pos (digits2_pos p) - 1) < 2 ^ 53)%Z) by lia.
    apply Z.pow_lt_mono_r_iff in H; lia. }
  destruct (@binary_round_exact p 0) as (m & e & Hres & Hvalue).
  - unfold fexp, SpecFloat.emin, prec, emax. lia.
  - unfold fexp, SpecFloat.emin, prec, emax. lia.
  - exists m, e. split; [exact Hres|]. rewrite Hvalue.
    change (pow2 0) with 1. ring.
Qed.

Lemma hundred_exact :
  Prim2SF (float_of_Z 100) = S754_finite false 7036874417766400 (-46).
Proof. reflexivity. Qed.

Lemma twelve_exact :
  Prim2SF (float_of_Z 12) = S754_finite false 6755399441055744 (-49).
Proof. reflexivity. Qed.

End Parsing.

Section Approximation.
Local Open Scope Q_scope.

Lemma approx_weaken (x : float) (q err err' : Q) :
  err <= err' -> approx x q err -> approx x q err'.
Proof. intros Hle [Hn He]. split; [exact Hn | lra]. Qed.

Lemma add_approx (x y : float) (qx qy ex ey : Q) (k : Z) :
  approx x qx ex -> approx y qy ey ->
  (k <= 1023)%Z -> qx + qy + ex + ey < pow2 k ->
  approx (x + y) (qx + qy) (ex + ey + pow2 (k - 54)).
Proof.
  intros [Hnx Hx] [Hny Hy] Hk Hlt.
  apply Qabs_diff_Qle_condition in Hx, Hy.
  destruct (@add_value x y k Hnx Hny Hk) as [Hn Hsum]; [lra|].
  split; [exact Hn|].
  apply Qabs_diff_Qle_condition in Hsum.
  apply Qabs_diff_Qle_condition. split; lra.
Qed.

Lemma nonneg64_finite (x : float) :
  nonneg64 x = true -> 0 < value64 x ->
  exists (m : positive) (e : Z), Prim2SF x = S754_finite false m e.
Proof.
  unfold nonneg64, value64.
  destruct (Prim2SF x) as [[]|[]| |[] m e]; cbn [SFnonneg SF2Q];
    intros Hn Hv; try discriminate Hn; try (exfalso; lra).
  now exists m, e.
Qed.

(** The quotient of a float that is not negative by a positive one. *)
Lemma div_approx (x y : float) (qx ex : Q) (my : positive) (ey k : Z) (qy : Q) :
  approx x qx ex -> Prim2SF y = S754_finite false my ey ->
  inject_Z (Z.pos my) * pow2 ey == qy -> 0 < qy ->
  pow2 (-1021) * qy <= qx - ex -> qx + ex < pow2 k * qy -> (k <= 1023)%Z ->
  approx (x / y) (qx / qy) (ex / qy + pow2 (k - 54)).
Proof.
  intros [Hnx Hx] Hy Hqy Hpos Hlow Hhigh Hk.
  apply Qabs_diff_Qle_condition in Hx.
  assert (Hvx : 0 < value64 x).
  { assert (0 < pow2 (-1021) * qy)
      by (apply Qmult_lt_0_compat; [apply pow2_pos | exact Hpos]).
    lra. }
  destruct (nonneg64_finite x Hnx Hvx) as (mx & e & Hfx).
  unfold value64 in Hx, Hvx. rewrite Hfx in Hx, Hvx. cbn [SF2Q] in Hx, Hvx.
  destruct (@SFdiv_value mx my e ey k) as (m & e' & Hres & Herr); cbv zeta.
  - rewrite Hqy. apply Qle_shift_div_l; [exact Hpos | lra].
  - rewrite Hqy. apply Qlt_shift_div_r; [exact Hpos | lra].
  - exact Hk.
  - cbv zeta in Herr. rewrite Hqy in Herr.
    unfold approx, nonneg64, value64. rewrite div_spec, Hfx, Hy, Hres.
    split; [reflexivity|]. cbn [SF2Q].
    apply Qabs_diff_Qle_condition in Herr. apply Qabs_diff_Qle_condition.
    assert (Hd : forall a b : Q, a <= b -> a / qy <= b / qy).
    { intros a b Hab. apply Qmult_le_compat_r; [exact Hab|].
      apply Qlt_le_weak, Qinv_lt_0_compat, Hpos. }
    pose proof (Hd _ _ (proj1 Hx)) as H1. pose proof (Hd _ _ (proj2 Hx)) as H2.
    assert (E1 : (inject_Z (Z.pos mx) * pow2 e - ex) / qy
                 == inject_Z (Z.pos mx) * pow2 e / qy - ex / qy)
      by (field; lra).
    assert (E2 : (inject_Z (Z.pos mx) * pow2 e + ex) / qy
                 == inject_Z (Z.pos mx) * pow2 e / qy + ex / qy)
      by (field; lra).
    rewrite E1 in H1. rewrite E2 in H2. split; lra.
Qed.

End Approximation.

Section Concrete.
Local Open Scope Q_scope.

Lemma approx_eq (x : float) (q q' err err' : Q) :
  q == q' -> err == err' -> approx x q err -> approx x q' err'.
Proof. intros Hq He [Hn Hx]. split; [exact Hn|]. now rewrite <- Hq, <- He. Qed.

Lemma approx_zero : approx (float_of_Z 0) 0 0.
Proof. split; [reflexivity|]. vm_compute. discriminate. Qed.

Lemma approx_float_of_Z (n : Z) :
  (0 < n < 2 ^ 53)%Z -> approx (float_of_Z n) (inject_Z n) 0.
Proof.
  intro Hn. destruct (float_of_Z_exact Hn) as (m & e & Hres & Hvalue).
  unfold approx, nonneg64, value64. rewrite Hres. split; [reflexivity|].
  cbn [SF2Q]. rewrite Hvalue.
  setoid_replace (inject_Z n - inject_Z n) with 0 by ring. apply Qle_refl.
Qed.

Lemma inject_Z_range (n lo hi : Z) :
  (lo <= n < hi)%Z -> inject_Z lo <= inject_Z n /\ inject_Z n < inject_Z hi.
Proof. intros [H1 H2]. now rewrite <- Zle_Qle, <- Zlt_Qlt. Qed.

(** A two-decimal amount in the range of the columns is parsed to within
    [2 ^ -27]. *)
Lemma parseCents_approx (n : Z) :
  (0 <= n < 10 ^ 10)%Z -> approx (parseCents n) (inject_Z n / 100) (pow2 (-27)).
Proof.
  intro Hn. destruct (Z.eq_dec n 0) as [->|Hn0].
  - split; [reflexivity|]. vm_compute. discriminate.
  - pose proof (@inject_Z_range n 1 (10 ^ 10) ltac:(lia)) as [Hlo Hhi].
    change (inject_Z 1) with 1 in Hlo.
    change (inject_Z (10 ^ 10)) with 10000000000 in Hhi.
    assert (Hsmall : pow2 (-1021) * 100 <= 1) by (vm_compute; discriminate).
    assert (Hbig : 10000000000 <= pow2 27 * 100) by (vm_compute; discriminate).
    eapply approx_eq;
      [reflexivity | |
       apply (@div_approx (float_of_Z n) (float_of_Z 100) (inject_Z n) 0
                7036874417766400 (-46) 27 100)].
    + change (pow2 (27 - 54)) with (pow2 (-27)). field.
    + apply approx_float_of_Z. lia.
    + exact hundred_exact.
    + vm_compute. reflexivity.
    + reflexivity.
    + lra.
    + lra.
    + lia.
Qed.

(** A twelfth of such an amount is computed to within [2 ^ -29]. *)
Lemma twelfth_approx (n : Z) :
  (0 <= n < 10 ^ 10)%Z ->
  approx (parseCents n / float_of_Z 12) (inject_Z n / 100 / 12) (pow2 (-29)).
Proof.
  intro Hn. destruct (Z.eq_dec n 0) as [->|Hn0].
  - split; [reflexivity|]. vm_compute. discriminate.
  - pose proof (@inject_Z_range n 1 (10 ^ 10) ltac:(lia)) as [Hlo Hhi].
    change (inject_Z 1) with 1 in Hlo.
    change (inject_Z (10 ^ 10)) with 10000000000 in Hhi.
    assert (Hsmall : pow2 (-1021) * 12 <= 1 / 100 - pow2 (-27))
      by (vm_compute; discriminate).
    assert (Hbig : 10000000000 / 100 + pow2 (-27) <= pow2 24 * 12)
      by (vm_compute; discriminate).
    assert (Herr : pow2 (-27) / 12 + pow2 (24 - 54) <= pow2 (-29))
      by (vm_compute; discriminate).
    eapply approx_weaken; [exact Herr|].
    apply (@div_approx (parseCents n) (float_of_Z 12) (inject_Z n / 100) (pow2 (-27))
             6755399441055744 (-49) 24 12).
    + now apply parseCents_approx.
    + exact twelve_exact.
    + vm_compute. reflexivity.
    + reflexivity.
    + assert (1 / 100 <= inject_Z n / 100)
        by (apply Qmult_le_compat_r; [exact Hlo | discriminate]).
      lra.
    + assert (inject_Z n / 100 < 10000000000 / 100)
        by (apply Qmult_lt_compat_r; [reflexivity | exact Hhi]).
      lra.
    + lia.
Qed.

Lemma sumQ_nonneg (qs : list Q) : Forall (fun q => 0 <= q) qs -> 0 <= sumQ qs.
Proof.
  induction 1 as [|q qs Hq _ IH]; cbn [sumQ fold_right]; [apply Qle_refl|].
  fold (sumQ qs). lra.
Qed.

(** Adding floats from left to right: each term brings its own error and
    each addition at most [2 ^ (k - 54)] more, as long as the sums stay
    below [2 ^ k]. *)
Lemma fold_approx (eps : Q) (k : Z) (ts : list float) (qs : list Q) :
  Forall2 (fun t q => approx t q eps /\ 0 <= q) ts qs ->
  0 <= eps -> (k <= 1023)%Z ->
  forall (acc : float) (qa ea : Q),
    approx acc qa ea -> 0 <= ea ->
    qa + sumQ qs + ea + inject_Z (Z.of_nat (List.length ts)) * (eps + pow2 (k - 54))
    < pow2 k ->
    approx (fold_left PrimFloat.add ts acc) (qa + sumQ qs)
      (ea + inject_Z (Z.of_nat (List.length ts)) * (eps + pow2 (k - 54))).
Proof.
  intros Hall Heps Hk.
  pose proof (pow2_pos (k - 54)) as Hulp.
  induction Hall as [|t q ts qs [Ht Hq] Hall IH]; intros acc qa ea Hacc Hea Hlt;
    cbn [fold_left List.length sumQ fold_right] in *.
  - eapply approx_eq; [| |exact Hacc]; [ring|].
    change (inject_Z (Z.of_nat 0)) with 0. ring.
  - fold (sumQ qs) in *.
    assert (Hrest : 0 <= sumQ qs).
    { apply sumQ_nonneg. clear -Hall. induction Hall as [|? ? ? ? [_ ?]]; constructor; assumption. }
    assert (Hlen : 0 <= inject_Z (Z.of_nat (List.length ts)))
      by (rewrite <- (Zle_Qle 0); lia).
    assert (Hprod : 0 <= inject_Z (Z.of_nat (List.length ts)) * (eps + pow2 (k - 54)))
      by (apply Qmult_le_0_compat; lra).
    assert (Hsucc : inject_Z (Z.of_nat (S (List.length ts)))
                    == inject_Z (Z.of_nat (List.length ts)) + 1).
    { rewrite Nat2Z.inj_succ. unfold Z.succ. now rewrite inject_Z_plus. }
    rewrite Hsucc in Hlt.
    assert (Hstep : approx (acc + t) (qa + q) (ea + eps + pow2 (k - 54))).
    { apply add_approx; [exact Hacc | exact Ht | exact Hk | lra]. }
    eapply approx_eq; [| |apply (IH (acc + t)%float _ _ Hstep)].
    + ring.
    + rewrite Hsucc. ring.
    + lra.
    + lra.
Qed.

End Concrete.

Section Shown.
Local Open Scope Q_scope.

Lemma Qfloor_unique (x : Q) (n : Z) :
  (inject_Z n <= x)%Q -> (x < inject_Z (n + 1))%Q -> Qfloor x = n.
Proof.
  intros Hlo Hhi.
  pose proof (Qfloor_le x) as Hfl. pose proof (Qlt_floor x) as Hfu.
  assert (H1 : (inject_Z (Qfloor x) < inject_Z (n + 1))%Q) by lra.
  assert (H2 : (inject_Z n < inject_Z (Qfloor x + 1))%Q) by lra.
  rewrite <- Zlt_Qlt in H1, H2. lia.
Qed.

(** A float within half a cent of [N] cents shows [N] cents. *)
Lemma toFixed2_approx (x : float) (N : Z) (err : Q) :
  approx x (inject_Z N / 100) err -> err < 1 # 200 -> toFixed2 x = Some N.
Proof.
  intros [Hn Hx] Herr. apply Qabs_diff_Qle_condition in Hx.
  unfold nonneg64, value64, toFixed2 in *.
  assert (Hdiv : inject_Z N / 100 * 100 == inject_Z N) by field.
  destruct (Prim2SF x) as [[]|[]| |[] m e]; try discriminate Hn; cbn [SF2Q] in Hx.
  - f_equal.
    assert (H1 : inject_Z (-1) < inject_Z N) by (change (inject_Z (-1)) with (-1); lra).
    assert (H2 : inject_Z N < inject_Z 1) by (change (inject_Z 1) with 1; lra).
    rewrite <- Zlt_Qlt in H1, H2. lia.
  - cbv zeta. f_equal. apply Qfloor_unique.
    + lra.
    + rewrite inject_Z_plus. change (inject_Z 1) with 1. lra.
Qed.

(** [x || 0] keeps a float that is not negative, up to the sign of zero. *)
Lemma or_zero_approx (x : float) (q err : Q) :
  approx x q err -> approx (or_zero (Some x)) q err.
Proof.
  intros [Hn Hx]. unfold or_zero. cbn [js_truthy js_of_Z Binary64].
  destruct (negb (PrimFloat.eqb x PrimFloat.zero || PrimFloat.is_nan x)) eqn:E;
    [now split|].
  apply negb_false_iff in E.
  assert (Hzero : value64 x == 0).
  { unfold nonneg64, value64 in *. unfold PrimFloat.is_nan in E.
    rewrite !FloatAxioms.eqb_spec in E.
    destruct (Prim2SF x) as [[]|[]| |[] m e]; try discriminate Hn;
      [reflexivity|].
    exfalso. cbn in E. rewrite Z.compare_refl, Pos.compare_cont_refl in E.
    discriminate E. }
  split; [reflexivity|].
  change (value64 (float_of_Z 0)) with 0. now rewrite <- Hzero.
Qed.

End Shown.

(** ** The frequency normalizer *)

Section FrequencyNormalizer.
Local Open Scope Qc_scope.

Lemma incomeStep_fold (l : list (Income.row Qc)) (acc : Qc) :
  fold_left Dashboard.incomeStep l acc
  = acc + sumQc (amountsOf "monthly" l) + sumQc (amountsOf "yearly" l) / Qc_of_Z 12.
Proof.
  assert (H12 : Qc_of_Z 12 <> 0) by (apply Qc_of_Z_neq0; lia).
  revert acc. induction l as [|r l IH]; intro acc.
  - unfold amountsOf. cbn [fold_left filter map]. rewrite sumQc_nil.
    field. exact H12.
  - cbn [fold_left]. rewrite IH. unfold Dashboard.incomeStep, amountsOf.
    cbn [filter js_add js_div js_of_Z Exact].
    destruct (Income.frequency r =? "yearly")%string eqn:Ey.
    + apply String.eqb_eq in Ey. rewrite Ey.
      replace ("yearly" =? "monthly")%string with false by reflexivity.
      cbn [map]. rewrite sumQc_cons. field. exact H12.
    + destruct (Income.frequency r =? "monthly")%string eqn:Em;
        cbn [map]; rewrite ?sumQc_cons; field; exact H12.
Qed.

(** The three incomes come to 2000 a month, on rationals and on
    binary64. *)
Example three_incomes_monthly :
  Dashboard.totalIncome (Some (threeIncomes (num := Qc))) = Qc_of_Z 2000
  /\ Dashboard.totalIncome (Some (threeIncomes (num := float))) = float_of_Z 2000.
Proof.
  split.
  - apply Qc_is_canon. reflexivity.
  - reflexivity.
Qed.

End FrequencyNormalizer.

(** ** The category aggregator *)

Section CategoryAggregator.
Context {num : Type} `{JsNumber num}.
Local Open Scope js_scope.

Lemma find_name_In (c : string) (acc : list (@Dashboard.entry num)) :
  In c (map (@Dashboard.name num) acc)
  <-> exists e, find (fun e => (Dashboard.name e =? c)%string) acc = Some e.
Proof.
  induction acc as [|e acc IH]; cbn [map In find].
  - split; [tauto | intros [e He]; discriminate].
  - destruct (Dashboard.name e =? c)%string eqn:E.
    + apply String.eqb_eq in E. split; eauto.
    + apply String.eqb_neq in E. rewrite IH. split; [intros [?|?]|]; tauto.
Qed.

Lemma find_name_None (c : string) (acc : list (@Dashboard.entry num)) :
  find (fun e => (Dashboard.name e =? c)%string) acc = None
  <-> ~ In c (map (@Dashboard.name num) acc).
Proof.
  rewrite find_name_In. split.
  - intros Hnone [e He]. congruence.
  - intro Hno. destruct (find _ acc) eqn:E; [|reflexivity].
    exfalso. eauto.
Qed.

Lemma addToExisting_names (c : string) (a : num) (acc : list (@Dashboard.entry num)) :
  map (@Dashboard.name num) (Dashboard.addToExisting c a acc)
  = map (@Dashboard.name num) acc.
Proof.
  induction acc as [|e acc IH]; [reflexivity|].
  cbn [Dashboard.addToExisting].
  destruct (Dashboard.name e =? c)%string; cbn [map Dashboard.name]; congruence.
Qed.

(** The names after one record: unchanged when its category has an entry,
    extended at the end otherwise. *)
Lemma categoryStep_names (acc : list (@Dashboard.entry num)) (item : Expense.row num) :
  map (@Dashboard.name num) (Dashboard.categoryStep acc item)
  = if in_dec string_dec (Expense.category item) (map (@Dashboard.name num) acc)
    then map (@Dashboard.name num) acc
    else map (@Dashboard.name num) acc ++ [Expense.category item].
Proof.
  unfold Dashboard.categoryStep.
  destruct (find _ acc) eqn:E.
  - rewrite addToExisting_names.
    destruct (in_dec _ _ _) as [_|Hno]; [reflexivity|].
    exfalso. apply Hno, find_name_In. eauto.
  - destruct (in_dec _ _ _) as [Hin|_].
    + apply find_name_None in E. contradiction.
    + now rewrite map_app.
Qed.

Lemma categoryFold_names (l : list (Expense.row num)) (acc : list (@Dashboard.entry num)) (c : string) :
  In c (map (@Dashboard.name num) (fold_left Dashboard.categoryStep l acc))
  <-> In c (map (@Dashboard.name num) acc) \/ In c (map (@Expense.category num) l).
Proof.
  revert acc. induction l as [|r l IH]; intro acc; cbn [fold_left map In].
  - tauto.
  - rewrite IH, categoryStep_names.
    destruct (in_dec _ _ _) as [Hin|Hno].
    + split; [tauto|]. intros [?|[<-|?]]; tauto.
    + rewrite in_app_iff. cbn [In]. tauto.
Qed.

Lemma categoryFold_NoDup (l : list (Expense.row num)) (acc : list (@Dashboard.entry num)) :
  NoDup (map (@Dashboard.name num) acc) ->
  NoDup (map (@Dashboard.name num) (fold_left Dashboard.categoryStep l acc)).
Proof.
  revert acc. induction l as [|r l IH]; intros acc Hacc; cbn [fold_left].
  - exact Hacc.
  - apply IH. rewrite categoryStep_names.
    destruct (in_dec _ _ _) as [Hin|Hno]; [exact Hacc|].
    apply NoDup_app; [exact Hacc | repeat constructor; cbn; tauto |].
    intros x Hx [<-|[]]. contradiction.
Qed.

End CategoryAggregator.

(** ** The aggregator, whatever the arithmetic *)

Section CategorySums.
Context {num : Type} `{JsNumber num}.
Local Open Scope js_scope.

Lemma valueOf_addToExisting (c' c : string) (a : num)
    (acc : list (@Dashboard.entry num)) :
  valueOf c (Dashboard.addToExisting c' a acc)
  = if (c' =? c)%string
    then option_map (fun v => v + a) (valueOf c acc)
    else valueOf c acc.
Proof.
  unfold valueOf. induction acc as [|e acc IH]; cbn [Dashboard.addToExisting find].
  - now destruct (c' =? c)%string.
  - destruct (Dashboard.name e =? c')%string eqn:E'.
    + apply String.eqb_eq in E'. cbn [find Dashboard.name]. rewrite E'.
      destruct (c' =? c)%string; reflexivity.
    + cbn [find]. destruct (Dashboard.name e =? c)%string eqn:E.
      * apply String.eqb_eq in E. rewrite E in E'.
        rewrite String.eqb_sym, E'. reflexivity.
      * exact IH.
Qed.

Lemma valueOf_app_one (c : string) (e : @Dashboard.entry num)
    (acc : list (@Dashboard.entry num)) :
  valueOf c (acc ++ [e])
  = match valueOf c acc with
    | Some v => Some v
    | None => if (Dashboard.name e =? c)%string then Some (Dashboard.value e) else None
    end.
Proof.
  unfold valueOf. induction acc as [|e0 acc IH]; cbn [app find].
  - now destruct (Dashboard.name e =? c)%string.
  - destruct (Dashboard.name e0 =? c)%string; [reflexivity | exact IH].
Qed.

Lemma valueOf_categoryStep (c : string) (acc : list (@Dashboard.entry num))
    (item : Expense.row num) :
  valueOf c (Dashboard.categoryStep acc item)
  = if (Expense.category item =? c)%string
    then Some match valueOf c acc with
              | Some v => v + Expense.amount item
              | None => Expense.amount item
              end
    else valueOf c acc.
Proof.
  unfold Dashboard.categoryStep.
  destruct (find _ acc) as [e|] eqn:Efind.
  - rewrite valueOf_addToExisting.
    destruct (Expense.category item =? c)%string eqn:E; [|reflexivity].
    apply String.eqb_eq in E. subst c.
    unfold valueOf. rewrite Efind. reflexivity.
  - rewrite valueOf_app_one. cbn [Dashboard.name Dashboard.value].
    destruct (Expense.category item =? c)%string eqn:E.
    + apply String.eqb_eq in E. subst c.
      unfold valueOf. rewrite Efind. reflexivity.
    + now destruct (valueOf c acc).
Qed.

Lemma valueOf_categoryFold (c : string) (l : list (Expense.row num))
    (acc : list (@Dashboard.entry num)) :
  valueOf c (fold_left Dashboard.categoryStep l acc)
  = match valueOf c acc with
    | Some v => Some (fold_left js_add (amountsIn c l) v)
    | None => categorySum c l
    end.
Proof.
  revert acc. induction l as [|r l IH]; intro acc; cbn [fold_left].
  - unfold categorySum, amountsIn. cbn [filter map fold_left].
    now destruct (valueOf c acc).
  - rewrite IH, valueOf_categoryStep. unfold categorySum, amountsIn.
    cbn [filter]. destruct (Expense.category r =? c)%string; [|reflexivity].
    cbn [map fold_left]. now destruct (valueOf c acc).
Qed.

Lemma totalExpenses_fold (l : list (Expense.row num)) :
  Dashboard.totalExpenses (Some l)
  = or_zero (Some (fold_left js_add (map (@Expense.amount num) l) (js_of_Z 0))).
Proof.
  unfold Dashboard.totalExpenses. cbn [option_map]. f_equal. f_equal.
  generalize (js_of_Z 0). induction l as [|r l IH]; intro acc; cbn [fold_left map].
  - reflexivity.
  - apply IH.
Qed.

End CategorySums.

Section CategoryAggregatorExact.
Local Open Scope Qc_scope.

Lemma addToExisting_sum (c : string) (a : Qc) (acc : list (@Dashboard.entry Qc)) :
  In c (map (@Dashboard.name Qc) acc) ->
  sumQc (map (@Dashboard.value Qc) (Dashboard.addToExisting c a acc))
  = sumQc (map (@Dashboard.value Qc) acc) + a.
Proof.
  induction acc as [|e acc IH]; cbn [map In]; [tauto|].
  intro Hin. cbn [Dashboard.addToExisting].
  destruct (Dashboard.name e =? c)%string eqn:E.
  - cbn [map Dashboard.value js_add Exact]. rewrite !sumQc_cons. ring.
  - apply String.eqb_neq in E. destruct Hin as [?|Hin]; [contradiction|].
    cbn [map]. rewrite !sumQc_cons, (IH Hin). ring.
Qed.

Lemma categoryStep_sum (acc : list (@Dashboard.entry Qc)) (item : Expense.row Qc) :
  sumQc (map (@Dashboard.value Qc) (Dashboard.categoryStep acc item))
  = sumQc (map (@Dashboard.value Qc) acc) + Expense.amount item.
Proof.
  unfold Dashboard.categoryStep. destruct (find _ acc) eqn:E.
  - apply addToExisting_sum, find_name_In. eauto.
  - rewrite map_app, sumQc_app. cbn [map Dashboard.value].
    rewrite sumQc_cons, sumQc_nil. ring.
Qed.

Lemma categoryFold_sum (l : list (Expense.row Qc)) (acc : list (@Dashboard.entry Qc)) :
  sumQc (map (@Dashboard.value Qc) (fold_left Dashboard.categoryStep l acc))
  = sumQc (map (@Dashboard.value Qc) acc) + sumQc (map (@Expense.amount Qc) l).
Proof.
  revert acc. induction l as [|r l IH]; intro acc; cbn [fold_left map].
  - rewrite sumQc_nil. ring.
  - rewrite IH, categoryStep_sum, sumQc_cons. ring.
Qed.

Lemma sum_fold_left {A : Type} (f : A -> Qc) (l : list A) (acc : Qc) :
  fold_left (fun sum item => js_add sum (f item)) l acc = acc + sumQc (map f l).
Proof.
  revert acc. induction l as [|r l IH]; intro acc; cbn [fold_left map].
  - rewrite sumQc_nil. ring.
  - rewrite IH, sumQc_cons. cbn [js_add Exact]. ring.
Qed.

Lemma totalExpenses_sum (data : option (list (Expense.row Qc))) :
  Dashboard.totalExpenses data = sumQc (map (@Expense.amount Qc) (rowsOf data)).
Proof.
  destruct data as [l|]; [|reflexivity].
  unfold Dashboard.totalExpenses. cbn [option_map rowsOf].
  rewrite or_zero_exact, sum_fold_left. cbn [js_of_Z Exact].
  rewrite Qc_of_Z_0. ring.
Qed.

Lemma fold_left_add_sum (l : list Qc) (acc : Qc) :
  fold_left js_add l acc = acc + sumQc l.
Proof.
  revert acc. induction l as [|a l IH]; intro acc; cbn [fold_left].
  - rewrite sumQc_nil. ring.
  - rewrite IH, sumQc_cons. cbn [js_add Exact]. ring.
Qed.

End CategoryAggregatorExact.

(** ** The totals on binary64: what is added, and how far off

    The totals of the dashboard are left-to-right binary64 sums of parsed
    two-decimal amounts.  Each amount is parsed to within [2 ^ -27], and
    each addition adds at most [2 ^ -24] as long as the sums stay below
    [2 ^ 30], at most [2 ^ -18] as long as they stay below [2 ^ 36]: 10 000
    records that come to at most 1 000 000 000, and 500 records whatever
    their amounts, stay within two thousandths of the exact sum, which is
    then the one [toFixed(2)] shows. *)

Section MonthlyTerms.
Context {num : Type} `{JsNumber num}.
Local Open Scope js_scope.

Lemma incomeStep_terms (l : list (Income.row num)) (acc : num) :
  fold_left Dashboard.incomeStep l acc = fold_left js_add (monthlyTerms l) acc.
Proof.
  revert acc. induction l as [|r l IH]; intro acc; [reflexivity|].
  cbn [fold_left monthlyTerms flat_map]. fold (monthlyTerms l).
  rewrite fold_left_app, IH. unfold Dashboard.incomeStep.
  destruct (Income.frequency r =? "yearly")%string; [reflexivity|].
  destruct (Income.frequency r =? "monthly")%string; reflexivity.
Qed.

Lemma totalIncome_terms (l : list (Income.row num)) :
  Dashboard.totalIncome (Some l)
  = or_zero (Some (fold_left js_add (monthlyTerms l) (js_of_Z 0))).
Proof.
  unfold Dashboard.totalIncome. cbn [option_map]. now rewrite incomeStep_terms.
Qed.

Lemma monthlyTerms_drop (f : string) (l : list (Income.row num)) :
  f <> "yearly"%string -> f <> "monthly"%string ->
  monthlyTerms (filter (fun r => negb (Income.frequency r =? f)%string) l)
  = monthlyTerms l.
Proof.
  intros Hy Hm. induction l as [|r l IH]; [reflexivity|].
  cbn [filter]. destruct (Income.frequency r =? f)%string eqn:Ef; cbn [negb].
  - apply String.eqb_eq in Ef. cbn [monthlyTerms flat_map]. fold (monthlyTerms l).
    rewrite Ef. apply String.eqb_neq in Hy, Hm. rewrite Hy, Hm. exact IH.
  - cbn [monthlyTerms flat_map]. fold (monthlyTerms l).
    fold (monthlyTerms (filter (fun r => negb (Income.frequency r =? f)%string) l)).
    now rewrite IH.
Qed.

End MonthlyTerms.

Section Partition.
Context {A : Type} (key : A -> string).

Lemma flat_map_nil {B : Type} (ks : list B) : flat_map (fun _ => @nil A) ks = [].
Proof. induction ks; [reflexivity | assumption]. Qed.

Lemma flat_map_agree {B : Type} (f g : B -> list A) (ks : list B) :
  (forall k, In k ks -> f k = g k) -> flat_map f ks = flat_map g ks.
Proof.
  induction ks as [|k ks IH]; intro Hfg; [reflexivity|].
  cbn [flat_map]. rewrite Hfg by now left.
  f_equal. apply IH. intros k' Hk'. apply Hfg. now right.
Qed.

Lemma flat_map_insert (x : A) (F : string -> list A) (ks : list string) :
  NoDup ks -> In (key x) ks ->
  Permutation
    (flat_map (fun k => if (key x =? k)%string then x :: F k else F k) ks)
    (x :: flat_map F ks).
Proof.
  induction 1 as [|k ks Hk Hnd IH]; intro Hin; [destruct Hin|].
  cbn [flat_map]. destruct (key x =? k)%string eqn:E.
  - apply String.eqb_eq in E. cbn [app]. constructor.
    apply Permutation_app_head.
    rewrite (flat_map_agree _ F); [reflexivity|].
    intros k' Hk'. destruct (key x =? k')%string eqn:E'; [|reflexivity].
    apply String.eqb_eq in E'. congruence.
  - apply String.eqb_neq in E. destruct Hin as [Heq|Hin]; [congruence|].
    rewrite (IH Hin). apply Permutation_sym, Permutation_middle.
Qed.

(** Sorting records into the lists of their keys loses and doubles
    nothing. *)
Lemma partition_by_key (l : list A) (ks : list string) :
  NoDup ks -> (forall x, In x l -> In (key x) ks) ->
  Permutation (flat_map (fun k => filter (fun x => (key x =? k)%string) l) ks) l.
Proof.
  intros Hnd. induction l as [|x l IH]; intro Hin.
  - cbn [filter]. now rewrite flat_map_nil.
  - cbn [filter].
    rewrite (flat_map_insert x (fun k => filter (fun y => (key y =? k)%string) l) Hnd)
      by (apply Hin; now left).
    constructor. apply IH. intros y Hy. apply Hin. now right.
Qed.

End Partition.

Section CentSums.
Local Open Scope Q_scope.

Lemma sumQ_cents (ns : list Z) :
  sumQ (map (fun n => inject_Z n / 100) ns) == inject_Z (sumZ ns) / 100.
Proof.
  induction ns as [|n ns IH]; cbn [map sumQ sumZ fold_right].
  - reflexivity.
  - fold (sumQ (map (fun n => inject_Z n / 100) ns)). fold (sumZ ns).
    rewrite IH, inject_Z_plus. field.
Qed.

Lemma sumZ_cons (n : Z) (ns : list Z) : sumZ (n :: ns) = (n + sumZ ns)%Z.
Proof. reflexivity. Qed.

Lemma sumZ_nonneg (ns : list Z) :
  Forall (fun n => (0 <= n < 10 ^ 10)%Z) ns -> (0 <= sumZ ns)%Z.
Proof.
  induction 1 as [|n ns Hn _ IH]; cbn [sumZ fold_right]; [lia|].
  fold (sumZ ns). lia.
Qed.

Lemma pow2_m27 : pow2 (-27) == 1 # 134217728.
Proof. reflexivity. Qed.

Lemma pow2_m24 : pow2 (30 - 54) == 1 # 16777216.
Proof. reflexivity. Qed.

Lemma pow2_30 : pow2 30 == 1073741824.
Proof. reflexivity. Qed.

(** Adding up to 10 000 floats, each within [2 ^ -27] of its exact
    value, that come to at most 1 000 000 000 in all: every term brings
    the float sum at most [9 * 2 ^ -27] further from the exact one. *)
Lemma counted_fold_approx (ts : list float) (qs : list Q) (acc : float) (qa ea : Q) :
  Forall2 (fun t q => approx t q (pow2 (-27)) /\ 0 <= q) ts qs ->
  (Z.of_nat (List.length ts) <= 10000)%Z ->
  approx acc qa ea -> 0 <= ea -> ea <= pow2 (-27) ->
  qa + sumQ qs <= 1000000000 ->
  approx (fold_left PrimFloat.add ts acc) (qa + sumQ qs)
    (ea + inject_Z (Z.of_nat (List.length ts)) * (9 # 134217728)).
Proof.
  intros Hterms Hlen Hacc Hea0 Hea Hbound.
  assert (HL : 0 <= inject_Z (Z.of_nat (List.length ts)) <= 10000).
  { split.
    - rewrite <- (Zle_Qle 0). lia.
    - change 10000 with (inject_Z 10000). rewrite <- Zle_Qle. lia. }
  pose proof (@fold_approx (pow2 (-27)) 30 _ _ Hterms) as Hfold.
  pose proof pow2_m27 as E27. pose proof pow2_m24 as E24. pose proof pow2_30 as E30.
  set (L := inject_Z (Z.of_nat (List.length ts))) in *.
  assert (Estep : pow2 (-27) + pow2 (30 - 54) == 9 # 134217728)
    by (rewrite E27, E24; reflexivity).
  assert (HP : 0 <= L * (9 # 134217728)
               /\ L * (9 # 134217728) <= 10000 * (9 # 134217728)).
  { split.
    - apply Qmult_le_0_compat; [lra | discriminate].
    - apply Qmult_le_compat_r; [lra | discriminate]. }
  eapply approx_eq; [reflexivity | |apply Hfold].
  - rewrite Estep. reflexivity.
  - lra.
  - lia.
  - exact Hacc.
  - exact Hea0.
  - rewrite Estep. set (P := L * (9 # 134217728)) in *. lra.
Qed.

(** That is less than a thousandth in all. *)
Lemma bounded_fold_approx (ts : list float) (qs : list Q) (acc : float) (qa ea : Q) :
  Forall2 (fun t q => approx t q (pow2 (-27)) /\ 0 <= q) ts qs ->
  (Z.of_nat (List.length ts) <= 10000)%Z ->
  approx acc qa ea -> 0 <= ea -> ea <= pow2 (-27) ->
  qa + sumQ qs <= 1000000000 ->
  approx (fold_left PrimFloat.add ts acc) (qa + sumQ qs) (1 # 1000).
Proof.
  intros Hterms Hlen Hacc Hea0 Hea Hbound.
  assert (HL : inject_Z (Z.of_nat (List.length ts)) <= 10000).
  { change 10000 with (inject_Z 10000). rewrite <- Zle_Qle. lia. }
  pose proof pow2_m27 as E27.
  assert (HP : inject_Z (Z.of_nat (List.length ts)) * (9 # 134217728)
               <= 10000 * (9 # 134217728))
    by (apply Qmult_le_compat_r; [exact HL | discriminate]).
  eapply approx_weaken;
    [|exact (counted_fold_approx Hterms Hlen Hacc Hea0 Hea Hbound)].
  set (P := inject_Z (Z.of_nat (List.length ts)) * (9 # 134217728)) in *. lra.
Qed.

(** Adding up to 500 floats, each within [2 ^ -27] of its exact value,
    that come to at most 50 000 000 000 in all: the float sum is within
    two thousandths of the exact one. *)
Lemma small_fold_approx (ts : list float) (qs : list Q) (acc : float) (qa ea : Q) :
  Forall2 (fun t q => approx t q (pow2 (-27)) /\ 0 <= q) ts qs ->
  (Z.of_nat (List.length ts) <= 500)%Z ->
  approx acc qa ea -> 0 <= ea -> ea <= pow2 (-27) ->
  qa + sumQ qs <= 50000000000 ->
  approx (fold_left PrimFloat.add ts acc) (qa + sumQ qs) (1 # 500).
Proof.
  intros Hterms Hlen Hacc Hea0 Hea Hbound.
  assert (HL : 0 <= inject_Z (Z.of_nat (List.length ts)) <= 500).
  { split.
    - rewrite <- (Zle_Qle 0). lia.
    - change 500 with (inject_Z 500). rewrite <- Zle_Qle. lia. }
  pose proof (@fold_approx (pow2 (-27)) 36 _ _ Hterms) as Hfold.
  pose proof pow2_m27 as E27.
  assert (E18 : pow2 (36 - 54) == 1 # 262144) by reflexivity.
  assert (E36 : pow2 36 == 68719476736) by reflexivity.
  set (L := inject_Z (Z.of_nat (List.length ts))) in *.
  assert (HP : 0 <= L * (pow2 (-27) + pow2 (36 - 54))
               /\ L * (pow2 (-27) + pow2 (36 - 54))
                  <= 500 * (pow2 (-27) + pow2 (36 - 54))).
  { split.
    - apply Qmult_le_0_compat; lra.
    - apply Qmult_le_compat_r; lra. }
  set (P := L * (pow2 (-27) + pow2 (36 - 54))) in *.
  eapply approx_weaken; [|apply Hfold; [lra | lia | exact Hacc | exact Hea0 | fold P; lra]].
  fold P. lra.
Qed.

Lemma sumZ_le_length (ns : list Z) :
  Forall (fun n => (0 <= n < 10 ^ 10)%Z) ns ->
  (sumZ ns <= Z.of_nat (List.length ns) * 10 ^ 10)%Z.
Proof.
  induction 1 as [|n ns Hn _ IH]; cbn [sumZ fold_right List.length]; [lia|].
  fold (sumZ ns). lia.
Qed.

(** The same for amounts given in hundredths: few enough of them are
    added to within two thousandths, which is less than half a cent. *)
Lemma cents_fold_approx (ns : list Z) (acc : float) (N0 : Z) (ea : Q) :
  Forall (fun n => (0 <= n < 10 ^ 10)%Z) ns ->
  approx acc (inject_Z N0 / 100) ea -> 0 <= ea -> ea <= pow2 (-27) ->
  ((Z.of_nat (List.length ns) <= 500)%Z /\ (N0 + sumZ ns <= 5 * 10 ^ 12)%Z)
  \/ ((Z.of_nat (List.length ns) <= 10000)%Z /\ (N0 + sumZ ns <= 10 ^ 11)%Z) ->
  approx (fold_left PrimFloat.add (map parseCents ns) acc)
    (inject_Z (N0 + sumZ ns) / 100) (1 # 500).
Proof.
  intros Hns Hacc Hea0 Hea Hfew.
  assert (Hterms : Forall2 (fun t q => approx t q (pow2 (-27)) /\ 0 <= q)
                     (map parseCents ns) (map (fun n => inject_Z n / 100) ns)).
  { clear -Hns. induction Hns as [|n ns Hn _ IH]; cbn [map]; constructor.
    - split; [now apply parseCents_approx|].
      apply Qle_shift_div_l; [reflexivity|].
      rewrite Qmult_0_l, <- (Zle_Qle 0). lia.
    - exact IH. }
  assert (Hexact : inject_Z N0 / 100 + sumQ (map (fun n => inject_Z n / 100) ns)
                   == inject_Z (N0 + sumZ ns) / 100).
  { rewrite sumQ_cents, inject_Z_plus. field. }
  eapply approx_eq; [exact Hexact | reflexivity |].
  destruct Hfew as [[Hlen Hsum]|[Hlen Hsum]].
  - apply small_fold_approx with (ea := ea); try assumption.
    + now rewrite length_map.
    + rewrite Hexact. apply Qle_shift_div_r; [reflexivity|].
      change (50000000000 * 100) with (inject_Z (5 * 10 ^ 12)). now rewrite <- Zle_Qle.
  - eapply approx_weaken; [|apply bounded_fold_approx with (ea := ea); try assumption].
    + discriminate.
    + now rewrite length_map.
    + rewrite Hexact. apply Qle_shift_div_r; [reflexivity|].
      change (1000000000 * 100) with (inject_Z (10 ^ 11)). now rewrite <- Zle_Qle.
Qed.

End CentSums.

Section Binary64Aggregator.
Local Open Scope Z_scope.

Lemma amounts_expenseOf (rows : list (Z * string)) :
  map (@Expense.amount float) (map expenseOf rows) = map parseCents (map fst rows).
Proof. rewrite !map_map. reflexivity. Qed.

Lemma amountsIn_expenseOf (c : string) (rows : list (Z * string)) :
  amountsIn c (map expenseOf rows) = map parseCents (centsOf c rows).
Proof.
  unfold amountsIn, centsOf. induction rows as [|r rows IH]; [reflexivity|].
  cbn [map filter Expense.category expenseOf].
  destruct (snd r =? c)%string; cbn [map]; [f_equal|]; exact IH.
Qed.

Lemma cents_range (rows : list (Z * string)) :
  Forall inColumn rows -> Forall (fun n => 0 <= n < 10 ^ 10) (map fst rows).
Proof. induction 1; cbn [map]; constructor; assumption. Qed.

Lemma centsOf_range (c : string) (rows : list (Z * string)) :
  Forall inColumn rows -> Forall (fun n => 0 <= n < 10 ^ 10) (centsOf c rows).
Proof.
  intro Hrows. unfold centsOf. apply cents_range.
  apply Forall_forall. intros r Hr. apply filter_In in Hr as [Hr _].
  revert r Hr. now apply Forall_forall.
Qed.

Lemma centsOf_length (c : string) (rows : list (Z * string)) :
  Z.of_nat (List.length (centsOf c rows)) <= Z.of_nat (List.length rows).
Proof.
  unfold centsOf. rewrite length_map.
  pose proof (filter_length_le (fun r => (snd r =? c)%string) rows). lia.
Qed.

Lemma centsOf_sum_le (c : string) (rows : list (Z * string)) :
  Forall inColumn rows -> sumZ (centsOf c rows) <= sumZ (map fst rows).
Proof.
  unfold centsOf. induction 1 as [|r rows Hr _ IH]; cbn [filter map sumZ fold_right].
  - lia.
  - unfold inColumn in Hr. fold (sumZ (map fst rows)).
    destruct (snd r =? c)%string; cbn [map sumZ fold_right];
      fold (sumZ (map fst (filter (fun r => (snd r =? c)%string) rows))); lia.
Qed.

Lemma fewEnough_part (c : string) (rows : list (Z * string)) :
  Forall inColumn rows ->
  fewEnough (Z.of_nat (List.length rows)) (sumZ (map fst rows)) ->
  fewEnough (Z.of_nat (List.length (centsOf c rows))) (sumZ (centsOf c rows)).
Proof.
  intros Hrows Hfew.
  pose proof (centsOf_length c rows). pose proof (centsOf_sum_le c Hrows).
  unfold fewEnough in *. lia.
Qed.

Lemma fewEnough_sum (ns : list Z) :
  Forall (fun n => 0 <= n < 10 ^ 10) ns ->
  fewEnough (Z.of_nat (List.length ns)) (sumZ ns) ->
  (Z.of_nat (List.length ns) <= 500 /\ sumZ ns <= 5 * 10 ^ 12)
  \/ (Z.of_nat (List.length ns) <= 10000 /\ sumZ ns <= 10 ^ 11).
Proof.
  intros Hns [Hlen|[Hlen Hsum]]; [left | right; now split].
  pose proof (sumZ_le_length Hns). split; [exact Hlen | nia].
Qed.

(** The grand total of rows that are few enough is, to the cent, the
    exact sum. *)
Lemma total_shown_exact (rows : list (Z * string)) :
  Forall inColumn rows ->
  fewEnough (Z.of_nat (List.length rows)) (sumZ (map fst rows)) ->
  toFixed2 (Dashboard.totalExpenses (Some (map expenseOf rows)))
  = Some (sumZ (map fst rows)).
Proof.
  intros Hrows Hfew.
  rewrite totalExpenses_fold, amounts_expenseOf.
  apply toFixed2_approx with (err := (1 # 500)%Q); [|reflexivity].
  apply or_zero_approx.
  apply (@cents_fold_approx (map fst rows) (float_of_Z 0) 0 0).
  - now apply cents_range.
  - exact approx_zero.
  - apply Qle_refl.
  - discriminate.
  - rewrite !Z.add_0_l. apply fewEnough_sum; [now apply cents_range|].
    now rewrite length_map.
Qed.

(** So is the total of each category. *)
Lemma category_shown_exact (rows : list (Z * string)) (c : string) :
  Forall inColumn rows ->
  fewEnough (Z.of_nat (List.length rows)) (sumZ (map fst rows)) ->
  option_map toFixed2 (categorySum c (map expenseOf rows))
  = match centsOf c rows with
    | [] => None
    | _ :: _ => Some (Some (sumZ (centsOf c rows)))
    end.
Proof.
  intros Hrows Hfew. unfold categorySum. rewrite amountsIn_expenseOf.
  pose proof (centsOf_range c Hrows) as Hrange.
  pose proof (fewEnough_sum Hrange (fewEnough_part c Hrows Hfew)) as Hpart.
  destruct (centsOf c rows) as [|n ns]; [reflexivity|].
  cbn [map option_map]. do 2 f_equal.
  inversion Hrange as [|? ? Hn Hns]; subst.
  rewrite sumZ_cons in *. cbn [List.length] in Hpart.
  apply toFixed2_approx with (err := (1 # 500)%Q); [|reflexivity].
  apply (@cents_fold_approx ns (parseCents n) n (pow2 (-27))).
  - exact Hns.
  - now apply parseCents_approx.
  - apply Qlt_le_weak, pow2_pos.
  - apply Qle_refl.
  - lia.
Qed.

End Binary64Aggregator.

Section Binary64Income.
Local Open Scope Q_scope.

Lemma sumQ_app (l1 l2 : list Q) : sumQ (l1 ++ l2) == sumQ l1 + sumQ l2.
Proof.
  induction l1 as [|q l1 IH]; cbn [app sumQ fold_right].
  - fold (sumQ l2). ring.
  - fold (sumQ (l1 ++ l2)) (sumQ l1). rewrite IH. ring.
Qed.

Lemma termsExact_sum (rows : list (Z * string)) :
  sumQ (termsExact rows) == monthlyExact rows.
Proof.
  unfold monthlyExact, centsOf.
  induction rows as [|r rows IH]; [reflexivity|].
  cbn [termsExact flat_map filter]. fold (termsExact rows).
  rewrite sumQ_app, IH.
  set (M := sumZ (map fst (filter (fun r => (snd r =? "monthly")%string) rows))).
  set (Y := sumZ (map fst (filter (fun r => (snd r =? "yearly")%string) rows))).
  destruct (snd r =? "yearly")%string eqn:Ey.
  - apply String.eqb_eq in Ey. rewrite Ey.
    replace ("yearly" =? "monthly")%string with false by reflexivity.
    cbn [map sumQ fold_right]. rewrite sumZ_cons. fold M Y.
    rewrite inject_Z_plus. field.
  - destruct (snd r =? "monthly")%string;
      cbn [map sumQ fold_right]; rewrite ?sumZ_cons; fold M Y;
      rewrite ?inject_Z_plus; field.
Qed.

Lemma monthlyTerms_incomeOf (rows : list (Z * string)) :
  Forall inColumn rows ->
  Forall2 (fun t q => approx t q (pow2 (-27)) /\ 0 <= q)
    (monthlyTerms (map incomeOf rows)) (termsExact rows).
Proof.
  induction 1 as [|r rows Hr _ IH]; [constructor|].
  cbn [map monthlyTerms termsExact flat_map]. fold (termsExact rows).
  fold (monthlyTerms (map incomeOf rows)).
  assert (H0 : 0 <= inject_Z (fst r) / 100).
  { apply Qle_shift_div_l; [reflexivity|].
    rewrite Qmult_0_l, <- (Zle_Qle 0). unfold inColumn in Hr. lia. }
  cbn [Income.frequency Income.amount incomeOf].
  destruct (snd r =? "yearly")%string.
  - cbn [app]. constructor; [|exact IH]. split.
    + eapply approx_weaken; [|apply twelfth_approx; exact Hr].
      apply pow2_le. lia.
    + apply Qle_shift_div_l; [reflexivity | lra].
  - destruct (snd r =? "monthly")%string; [|exact IH].
    cbn [app]. constructor; [|exact IH]. split; [|exact H0].
    now apply parseCents_approx.
Qed.

Lemma monthlyTerms_length {num : Type} `{JsNumber num} (l : list (Income.row num)) :
  (Z.of_nat (List.length (monthlyTerms l)) <= Z.of_nat (List.length l))%Z.
Proof.
  induction l as [|r l IH]; [reflexivity|].
  cbn [monthlyTerms flat_map]. fold (monthlyTerms l). rewrite length_app.
  destruct (Income.frequency r =? "yearly")%string;
    [|destruct (Income.frequency r =? "monthly")%string];
    cbn [List.length]; lia.
Qed.

(** On binary64 the monthly income of rows within the bounds is away
    from the closed form by at most [9 * 2 ^ -27] for each row. *)
Lemma totalIncome_approx (rows : list (Z * string)) :
  Forall inColumn rows -> (Z.of_nat (List.length rows) <= 10000)%Z ->
  monthlyExact rows <= 1000000000 ->
  approx (Dashboard.totalIncome (Some (map incomeOf rows))) (monthlyExact rows)
    (inject_Z (Z.of_nat (List.length rows)) * (9 # 134217728)).
Proof.
  intros Hrows Hlen Hbound. rewrite totalIncome_terms.
  apply or_zero_approx.
  pose proof (monthlyTerms_length (map incomeOf rows)) as Hl.
  rewrite length_map in Hl.
  assert (Hweak : 0 + inject_Z (Z.of_nat (List.length (monthlyTerms (map incomeOf rows))))
                      * (9 # 134217728)
                  <= inject_Z (Z.of_nat (List.length rows)) * (9 # 134217728)).
  { rewrite Qplus_0_l. apply Qmult_le_compat_r; [|discriminate].
    now rewrite <- Zle_Qle. }
  eapply approx_weaken; [exact Hweak|].
  eapply approx_eq; [|reflexivity|].
  2: { apply (@counted_fold_approx _ (termsExact rows) (float_of_Z 0) 0 0).
       - now apply monthlyTerms_incomeOf.
       - lia.
       - exact approx_zero.
       - apply Qle_refl.
       - discriminate.
       - rewrite termsExact_sum. lra. }
  rewrite termsExact_sum. ring.
Qed.

End Binary64Income.

Section CategoryPartition.

Lemma sumZ_app (l1 l2 : list Z) : sumZ (l1 ++ l2) = (sumZ l1 + sumZ l2)%Z.
Proof.
  induction l1 as [|n l1 IH]; [reflexivity|].
  cbn [app]. rewrite !sumZ_cons, IH. lia.
Qed.

Lemma sumZ_Permutation (l l' : list Z) : Permutation l l' -> sumZ l = sumZ l'.
Proof.
  induction 1 as [|n l l' _ IH|a b l|l l' l'' _ IH1 _ IH2];
    rewrite ?sumZ_cons; lia.
Qed.

Lemma sumZ_flat_map {B : Type} (F : B -> list Z) (ks : list B) :
  sumZ (flat_map F ks) = sumZ (map (fun k => sumZ (F k)) ks).
Proof.
  induction ks as [|k ks IH]; [reflexivity|].
  cbn [flat_map map]. now rewrite sumZ_app, sumZ_cons, IH.
Qed.

Lemma map_flat_map {B C D : Type} (g : C -> D) (F : B -> list C) (ks : list B) :
  map g (flat_map F ks) = flat_map (fun k => map g (F k)) ks.
Proof.
  induction ks as [|k ks IH]; [reflexivity|].
  cbn [flat_map]. now rewrite map_app, IH.
Qed.

(** The records of the entries, taken together, are the records of the
    input: each record is counted in exactly one entry. *)
Lemma entries_partition {num : Type} `{JsNumber num}
    (data : option (list (Expense.row num))) :
  Permutation
    (flat_map
       (fun c => filter (fun r => (Expense.category r =? c)%string) (rowsOf data))
       (map (@Dashboard.name num) (Dashboard.expensesByCategory data)))
    (rowsOf data).
Proof.
  apply partition_by_key.
  - destruct data as [l|]; cbn [Dashboard.expensesByCategory]; [|constructor].
    apply categoryFold_NoDup. constructor.
  - intros r Hr. destruct data as [l|]; cbn [rowsOf] in Hr; [|destruct Hr].
    cbn [Dashboard.expensesByCategory]. apply categoryFold_names. right.
    now apply in_map.
Qed.

(** The cents of the categories add up to the cents of all rows. *)
Lemma category_cents_total (rows : list (Z * string)) :
  sumZ (map (fun c => sumZ (centsOf c rows))
          (map (@Dashboard.name float)
             (Dashboard.expensesByCategory (Some (map expenseOf rows)))))
  = sumZ (map fst rows).
Proof.
  set (names := map (@Dashboard.name float)
                  (Dashboard.expensesByCategory (Some (map expenseOf rows)))).
  assert (Hperm : Permutation
            (flat_map (fun c => filter (fun r => (snd r =? c)%string) rows) names)
            rows).
  { apply partition_by_key.
    - subst names. cbn [Dashboard.expensesByCategory].
      apply categoryFold_NoDup. constructor.
    - intros r Hr. subst names. cbn [Dashboard.expensesByCategory].
      apply categoryFold_names. right. rewrite map_map.
      change (fun x => Expense.category (expenseOf x)) with (@snd Z string).
      now apply in_map. }
  rewrite <- (sumZ_Permutation (Permutation_map fst Hperm)).
  rewrite map_flat_map, sumZ_flat_map. reflexivity.
Qed.

End CategoryPartition.

(** ** The totals of the dashboard on binary64 *)

Section Binary64Sums.

(** The total of 0.10 and 0.20 is 5404319552844596 * 2^-54, which is
    0.30000000000000004, one unit in the last place above the binary64
    nearest to 0.30; shown with two decimals it is 0.30. *)
Lemma ten_and_twenty_cents_last_bit :
  Prim2SF (Dashboard.totalExpenses (Some tenAndTwentyCents))
  = S754_finite false 5404319552844596 (-54)
  /\ Prim2SF (parseCents 30) = S754_finite false 5404319552844595 (-54)
  /\ toFixed2 (Dashboard.totalExpenses (Some tenAndTwentyCents)) = Some 30%Z.
Proof. repeat split; vm_compute; reflexivity. Qed.

(** 2500 amounts of 99 999 999.99, each one an amount the column takes,
    come to 249 999 999 975.00; the total the dashboard computes is shown
    as 249 999 999 974.99, and the entry of the category rounds to the
    same. *)
Lemma large_total_one_cent_short :
  Forall inColumn largeExpenses
  /\ sumZ (map fst largeExpenses) = 24999999997500%Z
  /\ toFixed2 (Dashboard.totalExpenses (Some (map expenseOf largeExpenses)))
     = Some 24999999997499%Z
  /\ option_map toFixed2
       (valueOf "Hotels" (Dashboard.expensesByCategory (Some (map expenseOf largeExpenses))))
     = Some (Some 24999999997499%Z).
Proof.
  split; [|split; [|split]].
  - apply Forall_forall. intros r Hr. apply repeat_spec in Hr. subst r.
    unfold inColumn. cbn. lia.
  - vm_compute. reflexivity.
  - vm_compute. reflexivity.
  - vm_compute. reflexivity.
Qed.

(** C5, as the page has it.  The sums are binary64 sums taken from left
    to right in input order: the grand total adds every amount to 0 (and
    [|| 0] then replaces a NaN by 0), the entry of a category adds the
    amounts of its records to the first of them, and a category without
    record has no entry.  They are not exact decimal sums; but for
    records whose amounts are amounts of the column (two decimals, not
    negative, below 100 000 000), at most 500 of them, or at most 10 000
    that come to at most 1 000 000 000, the grand total and the total of
    every category, rounded to two decimals as [toFixed(2)] rounds the
    totals of the page, are the exact decimal sums: there is no drift at
    the cent level. *)
Theorem binary64_left_to_right_sums (l : list (Expense.row float)) (c : string) :
  (Dashboard.totalExpenses (Some l)
   = or_zero (Some (fold_left PrimFloat.add (map (@Expense.amount float) l)
                      PrimFloat.zero))
   /\ valueOf c (Dashboard.expensesByCategory (Some l))
      = match amountsIn c l with
        | [] => None
        | a :: rest => Some (fold_left PrimFloat.add rest a)
        end)
  /\ (forall rows : list (Z * string),
        l = map expenseOf rows ->
        Forall inColumn rows ->
        fewEnough (Z.of_nat (List.length rows)) (sumZ (map fst rows)) ->
        toFixed2 (Dashboard.totalExpenses (Some l)) = Some (sumZ (map fst rows))
        /\ option_map toFixed2 (valueOf c (Dashboard.expensesByCategory (Some l)))
           = match centsOf c rows with
             | [] => None
             | _ :: _ => Some (Some (sumZ (centsOf c rows)))
             end).
Proof.
  assert (Hvalue : valueOf c (Dashboard.expensesByCategory (Some l)) = categorySum c l).
  { unfold Dashboard.expensesByCategory. now rewrite valueOf_categoryFold. }
  split; [split|].
  - exact (@totalExpenses_fold float Binary64 l).
  - exact Hvalue.
  - intros rows -> Hrows Hfew. split.
    + now apply total_shown_exact.
    + rewrite Hvalue. now apply category_shown_exact.
Qed.

(** 0.10 for food, 0.10 for a hotel and 0.40 for food: 0.60 in all, 0.50
    of it for food. *)
Lemma binary64_left_to_right_sums_witness :
  toFixed2 (Dashboard.totalExpenses (Some (map expenseOf foodHotelFood))) = Some 60%Z
  /\ option_map toFixed2
       (valueOf "Food" (Dashboard.expensesByCategory (Some (map expenseOf foodHotelFood))))
     = Some (Some 50%Z).
Proof.
  apply (proj2 (binary64_left_to_right_sums (map expenseOf foodHotelFood) "Food")
           foodHotelFood eq_refl).
  - repeat constructor; unfold inColumn; cbn; lia.
  - left. cbn. lia.
Defined.

End Binary64Sums.

(** ** The total and the entries *)

Section TotalAndEntries.
Local Open Scope Q_scope.

(** On 0.10 for food, 0.10 for a hotel and 0.40 for food the total is
    5404319552844596 * 2^-53 (0.6000000000000001), one unit in the last
    place above the sum of the two entries, 0.5 and 0.1, whether that sum
    is taken in binary64 (5404319552844595 * 2^-53, 0.6), from which the
    total differs, or exactly. *)
Lemma total_differs_from_entries_sum :
  Prim2SF (Dashboard.totalExpenses (Some (map expenseOf foodHotelFood)))
  = S754_finite false 5404319552844596 (-53)
  /\ map (fun e => (Dashboard.name e, Prim2SF (Dashboard.value e)))
       (Dashboard.expensesByCategory (Some (map expenseOf foodHotelFood)))
     = [ ("Food"%string, S754_finite false 4503599627370496 (-53));
         ("Hotels"%string, S754_finite false 7205759403792794 (-56)) ]
  /\ Prim2SF
       (fold_left PrimFloat.add
          (map (@Dashboard.value float)
             (Dashboard.expensesByCategory (Some (map expenseOf foodHotelFood))))
          PrimFloat.zero)
     = S754_finite false 5404319552844595 (-53)
  /\ PrimFloat.eqb
       (Dashboard.totalExpenses (Some (map expenseOf foodHotelFood)))
       (fold_left PrimFloat.add
          (map (@Dashboard.value float)
             (Dashboard.expensesByCategory (Some (map expenseOf foodHotelFood))))
          PrimFloat.zero)
     = false
  /\ sumQ (map (fun e => value64 (Dashboard.value e))
             (Dashboard.expensesByCategory (Some (map expenseOf foodHotelFood))))
     < value64 (Dashboard.totalExpenses (Some (map expenseOf foodHotelFood))).
Proof.
  split; [|split; [|split; [|split]]]; vm_compute; reflexivity.
Qed.

(** C2, as the page has it.  Whatever the arithmetic, the entries are
    named after the categories of the records, one entry for each category
    present and none for any other; the entry of a category holds the
    amounts of its records added from left to right; and the records of
    the entries, taken together, are the records of the input, none lost
    and none counted twice.  In exact arithmetic the grand total is the
    sum of the values of the entries, and an entry holds the sum of the
    amounts of its category.  On binary64, where the total and the sum of
    the entries can differ in the last place, this holds to the cent: for
    records whose amounts are amounts of the column, at most 500 of them,
    or at most 10 000 that come to at most 1 000 000 000, the total and
    every entry, rounded to two decimals as [toFixed(2)] rounds the totals
    of the page, are the exact sums, and the entries so rounded add up to
    the total so rounded. *)
Theorem category_totals_partition_total :
  (forall (num : Type) `(JsNumber num) (data : option (list (Expense.row num))),
     (forall c : string,
        In c (map (@Dashboard.name num) (Dashboard.expensesByCategory data))
        <-> In c (map (@Expense.category num) (rowsOf data)))
     /\ NoDup (map (@Dashboard.name num) (Dashboard.expensesByCategory data))
     /\ (forall c : string,
           valueOf c (Dashboard.expensesByCategory data) = categorySum c (rowsOf data))
     /\ Permutation
          (flat_map
             (fun c => filter (fun r => (Expense.category r =? c)%string) (rowsOf data))
             (map (@Dashboard.name num) (Dashboard.expensesByCategory data)))
          (rowsOf data))
  /\ (forall data : option (list (Expense.row Qc)),
        Dashboard.totalExpenses data
        = sumQc (map (@Dashboard.value Qc) (Dashboard.expensesByCategory data))
        /\ (forall c : string,
              valueOf c (Dashboard.expensesByCategory data)
              = match amountsIn c (rowsOf data) with
                | [] => None
                | _ :: _ => Some (sumQc (amountsIn c (rowsOf data)))
                end))
  /\ (forall rows : list (Z * string),
        Forall inColumn rows ->
        fewEnough (Z.of_nat (List.length rows)) (sumZ (map fst rows)) ->
        let entries := Dashboard.expensesByCategory (Some (map expenseOf rows)) in
        toFixed2 (Dashboard.totalExpenses (Some (map expenseOf rows)))
        = Some (sumZ (map fst rows))
        /\ (forall (c : string) (v : float),
              valueOf c entries = Some v -> toFixed2 v = Some (sumZ (centsOf c rows)))
        /\ sumZ (map (fun c => sumZ (centsOf c rows)) (map (@Dashboard.name float) entries))
           = sumZ (map fst rows)).
Proof.
  assert (Hvalue : forall (num : Type) (N : JsNumber num)
            (data : option (list (Expense.row num))) (c : string),
            valueOf c (Dashboard.expensesByCategory data) = categorySum c (rowsOf data)).
  { intros num N data c. destruct data as [l|]; cbn [Dashboard.expensesByCategory rowsOf].
    - now rewrite valueOf_categoryFold.
    - reflexivity. }
  split; [|split].
  - intros num N data. split; [|split; [|split]].
    + intro c. destruct data as [l|]; cbn [Dashboard.expensesByCategory rowsOf].
      * rewrite categoryFold_names. cbn [map In]. tauto.
      * tauto.
    + destruct data as [l|]; cbn [Dashboard.expensesByCategory]; [|constructor].
      apply categoryFold_NoDup. constructor.
    + apply Hvalue.
    + apply entries_partition.
  - intro data. split.
    + rewrite totalExpenses_sum.
      destruct data as [l|]; cbn [Dashboard.expensesByCategory rowsOf]; [|reflexivity].
      rewrite categoryFold_sum. cbn [map]. rewrite sumQc_nil. ring.
    + intro c. rewrite Hvalue. unfold categorySum.
      destruct (amountsIn c (rowsOf data)) as [|a rest]; [reflexivity|].
      now rewrite fold_left_add_sum, sumQc_cons.
  - intros rows Hrows Hfew entries. split; [|split].
    + now apply total_shown_exact.
    + intros c v Hv.
      pose proof (category_shown_exact c Hrows Hfew) as Hshown.
      subst entries. rewrite Hvalue in Hv. cbn [rowsOf] in Hv.
      rewrite Hv in Hshown. cbn [option_map] in Hshown.
      destruct (centsOf c rows); congruence.
    + apply category_cents_total.
Qed.

(** 0.10 for food, 0.10 for a hotel and 0.40 for food: the total is shown
    as 0.60, and the entries, 0.50 and 0.10, come to as much. *)
Lemma category_totals_partition_total_witness :
  toFixed2 (Dashboard.totalExpenses (Some (map expenseOf foodHotelFood))) = Some 60%Z
  /\ sumZ (map (fun c => sumZ (centsOf c foodHotelFood)) ["Food"%string; "Hotels"%string])
     = 60%Z.
Proof.
  destruct (proj2 (proj2 category_totals_partition_total) foodHotelFood)
    as (Htotal & _ & Hsum).
  - repeat constructor; unfold inColumn; cbn; lia.
  - left. cbn. lia.
  - split; [exact Htotal | exact Hsum].
Defined.

End TotalAndEntries.

(** ** The monthly income *)

Section MonthlyIncome.
Local Open Scope Q_scope.

(** Two yearly incomes of 1.00 and 7.00: the code adds a twelfth of each
    and gets 6004799503160662 * 2^-53 (0.6666666666666667); dividing the
    sum of the two by 12 gives 6004799503160661 * 2^-53
    (0.6666666666666666), the float nearest to 2/3; the two differ, and
    the total computed is more than half a unit in the last place away
    from 2/3. *)
Lemma yearly_total_last_bit :
  Prim2SF (Dashboard.totalIncome (Some (map incomeOf yearlyOneAndSeven)))
  = S754_finite false 6004799503160662 (-53)
  /\ Prim2SF (PrimFloat.div (PrimFloat.add (parseCents 100) (parseCents 700))
                (float_of_Z 12))
     = S754_finite false 6004799503160661 (-53)
  /\ PrimFloat.eqb
       (Dashboard.totalIncome (Some (map incomeOf yearlyOneAndSeven)))
       (PrimFloat.div (PrimFloat.add (parseCents 100) (parseCents 700)) (float_of_Z 12))
     = false
  /\ monthlyExact yearlyOneAndSeven == 2 # 3
  /\ monthlyExact yearlyOneAndSeven + pow2 (-54)
     < value64 (Dashboard.totalIncome (Some (map incomeOf yearlyOneAndSeven))).
Proof.
  split; [|split; [|split; [|split]]]; vm_compute; reflexivity.
Qed.

(** C1, as the pages have it.  The monthly income is computed, in the
    dashboard and in the edge function alike, by adding from left to
    right, starting from 0, the amount of every record tagged "monthly"
    and a twelfth of the amount of every record tagged "yearly"; records
    with another tag, "one-time" among them, add nothing, and the empty
    list (or no list at all) gives 0.  In exact arithmetic the result is
    the sum of the monthly amounts plus the sum of the yearly amounts
    divided by 12.  On binary64, which the pages run on, it is that
    number up to rounding: for at most 10 000 records whose amounts are
    amounts of the column (two decimals, not negative, below 100 000 000)
    and whose monthly income is at most 1 000 000 000, the total computed
    is away from it by at most [9 * 2 ^ -27], less than seven
    hundred-millionths, for each record, and so by less than a thousandth
    in all. *)
Theorem normalized_monthly_income :
  (forall (num : Type) `(JsNumber num) (l : list (Income.row num)),
     Dashboard.totalIncome (Some l)
     = or_zero (Some (fold_left js_add (monthlyTerms l) (js_of_Z 0)))
     /\ AiCoach.totalIncome (Some l) = Dashboard.totalIncome (Some l)
     /\ Dashboard.totalIncome
          (Some (filter (fun r => negb (Income.frequency r =? "one-time")%string) l))
        = Dashboard.totalIncome (Some l))
  /\ (forall l : list (Income.row Qc),
        Dashboard.totalIncome (Some l)
        = (sumQc (amountsOf "monthly" l)
           + sumQc (amountsOf "yearly" l) / Qc_of_Z 12)%Qc)
  /\ (Dashboard.totalIncome (Some []) = Qc_of_Z 0
      /\ Dashboard.totalIncome None = Qc_of_Z 0
      /\ Dashboard.totalIncome (Some []) = PrimFloat.zero
      /\ Dashboard.totalIncome None = PrimFloat.zero)
  /\ (forall rows : list (Z * string),
        Forall inColumn rows ->
        (Z.of_nat (List.length rows) <= 10000)%Z ->
        monthlyExact rows <= 1000000000 ->
        Qabs (value64 (Dashboard.totalIncome (Some (map incomeOf rows)))
              - monthlyExact rows)
        <= inject_Z (Z.of_nat (List.length rows)) * (9 # 134217728)
        /\ Qabs (value64 (Dashboard.totalIncome (Some (map incomeOf rows)))
                 - monthlyExact rows) <= 1 # 1000).
Proof.
  split; [|split; [|split]].
  - intros num N l. split; [apply totalIncome_terms|]. split; [reflexivity|].
    rewrite !totalIncome_terms, monthlyTerms_drop by discriminate. reflexivity.
  - intro l. unfold Dashboard.totalIncome. cbn [option_map].
    rewrite or_zero_exact, incomeStep_fold.
    cbn [js_of_Z Exact]. rewrite Qc_of_Z_0. ring.
  - repeat split; reflexivity.
  - intros rows Hrows Hlen Hbound.
    destruct (totalIncome_approx Hrows Hlen Hbound) as [_ Hnear].
    split; [exact Hnear|].
    assert (HL : inject_Z (Z.of_nat (List.length rows)) * (9 # 134217728)
                 <= 10000 * (9 # 134217728)).
    { apply Qmult_le_compat_r; [|discriminate].
      change 10000 with (inject_Z 10000). now rewrite <- Zle_Qle. }
    set (P := inject_Z (Z.of_nat (List.length rows)) * (9 # 134217728)) in *. lra.
Qed.

(** The three incomes come to 2000 a month, exactly on rationals and
    within a thousandth on binary64. *)
Lemma normalized_monthly_income_witness :
  Dashboard.totalIncome (Some (threeIncomes (num := Qc))) = Qc_of_Z 2000
  /\ Qabs (value64 (Dashboard.totalIncome (Some (map incomeOf threeIncomeRows)))
           - 2000) <= 1 # 1000.
Proof.
  split.
  - rewrite (proj1 (proj2 normalized_monthly_income)).
    apply Qc_is_canon. reflexivity.
  - assert (E : monthlyExact threeIncomeRows == 2000) by reflexivity.
    rewrite <- E.
    apply (proj2 (proj2 (proj2 normalized_monthly_income))).
    + repeat constructor; unfold inColumn; cbn; lia.
    + cbn. lia.
    + rewrite E. discriminate.
Defined.

End MonthlyIncome.

(** ** Order facts on rationals *)

Section ExactOrder.
Local Open Scope Qc_scope.

Lemma Qcdiv_mul_cancel (x y : Qc) : y <> 0 -> x / y * y = x.
Proof. intro Hy. field. exact Hy. Qed.

Lemma Qclt_neq0 (y : Qc) : 0 < y -> y <> 0.
Proof. intros Hy Heq. subst y. exact (Qclt_not_le _ _ Hy (Qcle_refl 0)). Qed.

Lemma Qcdiv_nonpos (x y : Qc) : x <= 0 -> 0 < y -> x / y <= 0.
Proof.
  intros Hx Hy. apply (Qcmult_lt_0_le_reg_r _ _ y Hy).
  rewrite Qcdiv_mul_cancel by now apply Qclt_neq0.
  now rewrite Qcmult_0_l.
Qed.

Lemma Qcdiv_pos (x y : Qc) : 0 < x -> 0 < y -> 0 < x / y.
Proof.
  intros Hx Hy. apply Qcnot_le_lt. intro Hle.
  assert (Hxy : x / y * y <= 0 * y).
  { apply Qcmult_le_compat_r; [exact Hle | now apply Qclt_le_weak]. }
  rewrite Qcdiv_mul_cancel, Qcmult_0_l in Hxy by now apply Qclt_neq0.
  exact (Qcle_not_lt _ _ Hxy Hx).
Qed.

Lemma Qcplus_pos_nonneg (a s : Qc) : 0 < a -> 0 <= s -> 0 < a + s.
Proof.
  intros Ha Hs. apply (Qclt_le_trans _ (a + 0)).
  - now rewrite Qcplus_0_r.
  - apply Qcplus_le_compat; [apply Qcle_refl | exact Hs].
Qed.

Lemma sumQc_pos (l : list Qc) :
  Forall (fun a => 0 < a) l -> l <> [] -> 0 < sumQc l.
Proof.
  induction 1 as [|a l Ha Hl IH]; intro Hne; [congruence|].
  rewrite sumQc_cons. apply Qcplus_pos_nonneg; [exact Ha|].
  destruct l as [|b l]; [apply Qcle_refl|].
  apply Qclt_le_weak, IH. discriminate.
Qed.

End ExactOrder.

(** ** Aggregate savings progress *)

Section AggregateProgress.
Local Open Scope Qc_scope.

Lemma totalTargetSavings_sum (data : option (list (Goal.row Qc))) :
  Dashboard.totalTargetSavings data
  = sumQc (map (@Goal.target_amount Qc) (rowsOf data)).
Proof.
  destruct data as [l|]; [|reflexivity].
  unfold Dashboard.totalTargetSavings. cbn [option_map rowsOf].
  rewrite or_zero_exact, sum_fold_left. cbn [js_of_Z Exact].
  rewrite Qc_of_Z_0. ring.
Qed.

Lemma totalCurrentSavings_sum (data : option (list (Goal.row Qc))) :
  Dashboard.totalCurrentSavings data
  = sumQc (map (@Goal.current_amount Qc) (rowsOf data)).
Proof.
  destruct data as [l|]; [|reflexivity].
  unfold Dashboard.totalCurrentSavings. cbn [option_map rowsOf].
  rewrite or_zero_exact, sum_fold_left. cbn [js_of_Z Exact].
  rewrite Qc_of_Z_0. ring.
Qed.

(** C6. With every target amount positive, as the table requires, the
    aggregate progress of a non-empty list of goals is the sum of the
    current amounts over the sum of the target amounts, times 100; with no
    goal, or no query result, it is 0, on rationals and on binary64, where
    an unguarded [0 / 0] would be NaN. *)
Theorem aggregate_savings_progress (goals : list (Goal.row Qc)) :
  Forall (fun g => 0 < Goal.target_amount g) goals ->
  Dashboard.savingsGoalProgress (Some goals)
  = match goals with
    | [] => 0
    | _ :: _ =>
        sumQc (map (@Goal.current_amount Qc) goals)
        / sumQc (map (@Goal.target_amount Qc) goals) * Qc_of_Z 100
    end
  /\ Dashboard.savingsGoalProgress (num := Qc) None = 0
  /\ Dashboard.savingsGoalProgress (num := float) (Some []) = PrimFloat.zero
  /\ Dashboard.savingsGoalProgress (num := float) None = PrimFloat.zero.
Proof.
  intro Hpos. split; [|repeat split].
  unfold Dashboard.savingsGoalProgress.
  rewrite totalTargetSavings_sum, totalCurrentSavings_sum. cbn [rowsOf].
  destruct goals as [|g goals]; [reflexivity|].
  assert (Hsum : 0 < sumQc (map (@Goal.target_amount Qc) (g :: goals))).
  { apply sumQc_pos; [|discriminate]. now apply Forall_map. }
  cbn [js_gt js_of_Z js_div js_mul Exact]. rewrite Qc_of_Z_0.
  apply Qc_gtb_spec in Hsum. now rewrite Hsum.
Qed.

(** A goal of 2000 with 500 saved and one of 1000 with 250 saved: 25%. *)
Lemma aggregate_savings_progress_witness :
  Dashboard.savingsGoalProgress
    (Some [ {| Goal.target_amount := Qc_of_Z 2000; Goal.current_amount := Qc_of_Z 500 |};
            {| Goal.target_amount := Qc_of_Z 1000; Goal.current_amount := Qc_of_Z 250 |} ])
  = Qc_of_Z 25.
Proof.
  refine (eq_trans (proj1 (@aggregate_savings_progress _ _)) _).
  - repeat constructor.
  - apply Qc_is_canon. reflexivity.
Defined.

End AggregateProgress.

(** ** The goal pacer *)

Section GoalPacer.
Local Open Scope Qc_scope.
Import Savings.

(** [ceilDiv a b] is the least integer [d] with [a <= b * d]. *)
Lemma ceilDiv_spec (a b : Z) :
  (0 < b)%Z -> (b * (ceilDiv a b - 1) < a <= b * ceilDiv a b)%Z.
Proof.
  intro Hb. unfold ceilDiv.
  pose proof (Z.mul_div_le (- a) b Hb).
  pose proof (Z.mul_succ_div_gt (- a) b Hb).
  lia.
Qed.

Lemma daysUntilTarget_spec {num : Type} (goal : SavingsGoal num) (now : Z) :
  (msPerDay * (daysUntilTarget goal now - 1)
   < getTime (target_date goal) - now
   <= msPerDay * daysUntilTarget goal now)%Z.
Proof. apply ceilDiv_spec. reflexivity. Qed.

Lemma monthlyNeeded_future (goal : SavingsGoal Qc) (now : Z) :
  (0 < daysUntilTarget goal now)%Z ->
  monthlyNeeded goal now
  = (target_amount goal - current_amount goal)
    / (Qc_of_Z (daysUntilTarget goal now) / Qc_of_Z 30).
Proof.
  intro Hd. unfold monthlyNeeded.
  apply Z.gtb_lt in Hd. rewrite Hd. reflexivity.
Qed.

Lemma months_pos (d : Z) : (0 < d)%Z -> 0 < Qc_of_Z d / Qc_of_Z 30.
Proof.
  intro Hd. apply Qcdiv_pos.
  - apply (proj1 (Qc_of_Z_lt 0 d)). exact Hd.
  - apply (proj1 (Qc_of_Z_lt 0 30)). reflexivity.
Qed.

(** C3. For a goal with a positive number of days remaining, the monthly
    amount is (target - current) / (days / 30), where the number of days
    is the time from now to the target date in days, rounded up; it is the
    figure shown when the target is not reached yet; and 2000 targeted, 500
    saved and 90 days give 500, on rationals and on binary64. *)
Theorem pacing_formula (goal : SavingsGoal Qc) (now : Z) :
  (0 < daysUntilTarget goal now)%Z ->
  monthlyNeeded goal now
  = (target_amount goal - current_amount goal)
    / (Qc_of_Z (daysUntilTarget goal now) / Qc_of_Z 30)
  /\ (msPerDay * (daysUntilTarget goal now - 1)
      < getTime (target_date goal) - now
      <= msPerDay * daysUntilTarget goal now)%Z
  /\ (current_amount goal < target_amount goal ->
      pacingFigure goal now = Some (monthlyNeeded goal now))
  /\ (target_amount goal = Qc_of_Z 2000 ->
      current_amount goal = Qc_of_Z 500 ->
      daysUntilTarget goal now = 90%Z ->
      monthlyNeeded goal now = Qc_of_Z 500)
  /\ (forall goal' : SavingsGoal float,
      target_amount goal' = float_of_Z 2000 ->
      current_amount goal' = float_of_Z 500 ->
      daysUntilTarget goal' now = 90%Z ->
      monthlyNeeded goal' now = float_of_Z 500).
Proof.
  intro Hd. pose proof (monthlyNeeded_future goal now Hd) as Hm.
  split; [exact Hm|]. split; [apply daysUntilTarget_spec|]. split.
  - intro Hlt. unfold pacingFigure.
    assert (Hpos : 0 < monthlyNeeded goal now).
    { rewrite Hm. apply Qcdiv_pos; [|now apply months_pos].
      apply Qclt_minus_iff in Hlt. exact Hlt. }
    cbn [js_gt js_of_Z Exact]. rewrite Qc_of_Z_0.
    apply Qc_gtb_spec in Hpos. now rewrite Hpos.
  - split.
    + intros Ht Hc H90. rewrite Hm, Ht, Hc, H90.
      apply Qc_is_canon. reflexivity.
    + intros goal' Ht Hc H90. unfold monthlyNeeded.
      rewrite Ht, Hc, H90. reflexivity.
Qed.

Lemma pacing_formula_witness :
  daysUntilTarget goal2000 morningOfDay20000 = 90%Z
  /\ monthlyNeeded goal2000 morningOfDay20000 = Qc_of_Z 500
  /\ pacingFigure goal2000 morningOfDay20000 = Some (Qc_of_Z 500).
Proof.
  assert (Hd : (0 < daysUntilTarget goal2000 morningOfDay20000)%Z) by reflexivity.
  destruct (pacing_formula goal2000 morningOfDay20000 Hd)
    as (_ & _ & Hshown & H500 & _).
  assert (Hm : monthlyNeeded goal2000 morningOfDay20000 = Qc_of_Z 500).
  { apply H500; reflexivity. }
  split; [reflexivity|]. split; [exact Hm|].
  rewrite <- Hm. apply Hshown. reflexivity.
Defined.

(** C4. For a goal whose number of days remaining is zero or negative no
    pacing figure is shown: the element is absent, on rationals and on
    binary64 alike (the value computed behind it is the placeholder 0,
    which the guard keeps off the page). *)
Theorem no_pacing_when_due (goal : SavingsGoal Qc) (now : Z) :
  (daysUntilTarget goal now <= 0)%Z ->
  pacingFigure goal now = None
  /\ monthlyNeeded goal now = Qc_of_Z 0
  /\ forall goal' : SavingsGoal float,
       target_date goal' = target_date goal -> pacingFigure goal' now = None.
Proof.
  intro Hd.
  assert (Hguard : (daysUntilTarget goal now >? 0)%Z = false).
  { destruct (daysUntilTarget goal now >? 0)%Z eqn:E; [|reflexivity].
    apply Z.gtb_lt in E. lia. }
  split; [|split].
  - unfold pacingFigure, monthlyNeeded. rewrite Hguard. reflexivity.
  - unfold monthlyNeeded. rewrite Hguard. reflexivity.
  - intros goal' Hdate. unfold pacingFigure, monthlyNeeded.
    replace (daysUntilTarget goal' now) with (daysUntilTarget goal now)
      by (unfold daysUntilTarget; now rewrite Hdate).
    rewrite Hguard. reflexivity.
Qed.

Lemma no_pacing_when_due_witness :
  daysUntilTarget goal2000 afternoonOfDay20090 = 0%Z
  /\ pacingFigure goal2000 afternoonOfDay20090 = None
  /\ daysUntilTarget goal2000 (afternoonOfDay20090 + 7 * msPerDay) = (-7)%Z
  /\ pacingFigure goal2000 (afternoonOfDay20090 + 7 * msPerDay) = None.
Proof.
  split; [reflexivity|]. split.
  - apply (no_pacing_when_due goal2000 afternoonOfDay20090). discriminate.
  - split; [reflexivity|].
    apply (no_pacing_when_due goal2000 (afternoonOfDay20090 + 7 * msPerDay)).
    discriminate.
Defined.

(** C10. For a goal with days remaining whose current amount has reached
    or passed its target, the monthly amount is zero or negative and no
    pacing figure is shown. *)
Theorem no_pacing_when_target_met (goal : SavingsGoal Qc) (now : Z) :
  (0 < daysUntilTarget goal now)%Z ->
  target_amount goal <= current_amount goal ->
  monthlyNeeded goal now <= 0 /\ pacingFigure goal now = None.
Proof.
  intros Hd Hmet.
  assert (Hle : monthlyNeeded goal now <= 0).
  { rewrite (monthlyNeeded_future goal now Hd).
    apply Qcdiv_nonpos; [|now apply months_pos].
    apply Qcnot_lt_le. intro Hlt.
    exact (Qcle_not_lt _ _ Hmet (proj2 (Qclt_minus_iff _ _) Hlt)). }
  split; [exact Hle|].
  unfold pacingFigure. cbn [js_gt js_of_Z Exact]. rewrite Qc_of_Z_0.
  apply Qc_gtb_false in Hle. now rewrite Hle.
Qed.

Lemma no_pacing_when_target_met_witness :
  daysUntilTarget overshotGoal morningOfDay20000 = 90%Z
  /\ monthlyNeeded overshotGoal morningOfDay20000 <= 0
  /\ pacingFigure overshotGoal morningOfDay20000 = None.
Proof.
  split; [reflexivity|].
  apply (no_pacing_when_target_met overshotGoal morningOfDay20000).
  - reflexivity.
  - discriminate.
Defined.

End GoalPacer.

(** ** The stored amount *)

Section StoredAmount.
Local Open Scope Qc_scope.
Import Savings.

Lemma this_Qc_of_Z (n : Z) : (this (Qc_of_Z n) == inject_Z n)%Q.
Proof. unfold Qc_of_Z, Q2Qc, this. apply Qred_correct. Qed.

Lemma Qfloor_plus_half (m : Z) : Qfloor (inject_Z m + (1 # 2))%Q = m.
Proof.
  unfold Qfloor, Qplus, inject_Z. cbn [Qnum Qden].
  replace (m * 2 + 1 * 1)%Z with (1 + m * 2)%Z by lia.
  change (Z.pos (1 * 2)) with 2%Z.
  rewrite Z.div_add by lia. reflexivity.
Qed.

Lemma roundHalfAway_of_Z (n : Z) : roundHalfAway (Qc_of_Z n) = n.
Proof.
  unfold roundHalfAway.
  destruct (Qc_gtb (Qc_of_Z 0) (Qc_of_Z n)).
  - rewrite (Qfloor_comp _ (inject_Z (- n) + (1 # 2))%Q).
    + rewrite Qfloor_plus_half. lia.
    + unfold Qcplus, Qcopp, Q2Qc, this. rewrite !Qred_correct.
      fold (this (Qc_of_Z n)). rewrite this_Qc_of_Z.
      rewrite inject_Z_opp. reflexivity.
  - rewrite (Qfloor_comp _ (inject_Z n + (1 # 2))%Q).
    + apply Qfloor_plus_half.
    + unfold Qcplus, Q2Qc, this. rewrite !Qred_correct.
      fold (this (Qc_of_Z n)). rewrite this_Qc_of_Z. reflexivity.
Qed.

Lemma cents_times_100 (n : Z) : cents n * Qc_of_Z 100 = Qc_of_Z n.
Proof. unfold cents. field. apply Qc_of_Z_neq0. lia. Qed.

Lemma cents_add (a b : Z) : cents (a + b) = cents a + cents b.
Proof.
  unfold cents. rewrite Qc_of_Z_add. field. apply Qc_of_Z_neq0. lia.
Qed.

Lemma cents_0 : cents 0 = 0.
Proof. apply Qc_is_canon. reflexivity. Qed.

Lemma cents_lt (a b : Z) : (a < b)%Z -> cents a < cents b.
Proof.
  intro Hab. unfold cents, Qcdiv.
  apply Qcmult_lt_compat_r; [reflexivity | exact (proj1 (Qc_of_Z_lt a b) Hab)].
Qed.

Lemma cents_le (a b : Z) : (a <= b)%Z -> cents a <= cents b.
Proof.
  intro Hab. unfold cents, Qcdiv.
  apply Qcmult_le_compat_r; [exact (proj1 (Qc_of_Z_le a b) Hab) | discriminate].
Qed.

Lemma cents_inj (a b : Z) : cents a = cents b -> a = b.
Proof.
  intro Heq. apply Qc_of_Z_inj.
  rewrite <- (cents_times_100 a), <- (cents_times_100 b). now rewrite Heq.
Qed.

(** A two-decimal amount in range is stored as it is. *)
Lemma numeric_10_2_cents (n : Z) :
  (Z.abs n < 10 ^ 10)%Z -> numeric_10_2 (cents n) = Some (cents n).
Proof.
  intro Hn. unfold numeric_10_2.
  rewrite cents_times_100, roundHalfAway_of_Z.
  apply Z.ltb_lt in Hn. now rewrite Hn.
Qed.

Lemma storeCurrentAmount_accepts (n : Z) :
  (0 <= n < 10 ^ 10)%Z -> storeCurrentAmount (cents n) = inr (cents n).
Proof.
  intros [H0 Hn]. unfold storeCurrentAmount.
  rewrite numeric_10_2_cents by lia.
  rewrite Qc_of_Z_0, <- cents_0.
  apply cents_le, Qc_gtb_false in H0. now rewrite H0.
Qed.

Lemma storeCurrentAmount_refuses (n : Z) :
  (- 10 ^ 10 < n < 0)%Z -> storeCurrentAmount (cents n) = inl check_violation.
Proof.
  intros [Hn H0]. unfold storeCurrentAmount.
  rewrite numeric_10_2_cents by lia.
  rewrite Qc_of_Z_0, <- cents_0.
  apply cents_lt, Qc_gtb_spec in H0. now rewrite H0.
Qed.

Lemma storeCurrentAmount_out_of_range (m : Z) :
  (10 ^ 10 <= Z.abs m)%Z -> storeCurrentAmount (cents m) = inl numeric_field_overflow.
Proof.
  intro Hm. unfold storeCurrentAmount, numeric_10_2.
  rewrite cents_times_100, roundHalfAway_of_Z.
  assert (Hno : (Z.abs m <? 10 ^ 10)%Z = false) by (apply Z.ltb_ge; lia).
  now rewrite Hno.
Qed.

Lemma this_half : (this half == 1 # 2)%Q.
Proof. reflexivity. Qed.

Lemma this_plus (a b : Qc) : (this (a + b) == this a + this b)%Q.
Proof. unfold Qcplus, Q2Qc, this. apply Qred_correct. Qed.

Lemma this_opp (a : Qc) : (this (- a) == - this a)%Q.
Proof. unfold Qcopp, Q2Qc, this. apply Qred_correct. Qed.

Lemma this_mult (a b : Qc) : (this (a * b) == this a * this b)%Q.
Proof. unfold Qcmult, Q2Qc, this. apply Qred_correct. Qed.

Lemma this_cents (m : Z) : (this (cents m) == inject_Z m / 100)%Q.
Proof.
  unfold cents, Qcdiv. rewrite this_mult, this_Qc_of_Z.
  change (this (/ Qc_of_Z 100)) with (/ 100)%Q. reflexivity.
Qed.

(** A number less than a half away from an integer is rounded to it. *)
Lemma roundHalfAway_near (n : Z) (d : Qc) :
  - half < d -> d < half -> roundHalfAway (Qc_of_Z n + d) = n.
Proof.
  unfold Qclt. rewrite this_opp, this_half. intros Hlo Hhi.
  unfold roundHalfAway. destruct (Qc_gtb (Qc_of_Z 0) (Qc_of_Z n + d)).
  - assert (Hfl : Qfloor (this (- (Qc_of_Z n + d) + half)) = (- n)%Z).
    { apply Qfloor_unique;
        rewrite this_plus, this_opp, this_plus, this_half, this_Qc_of_Z;
        rewrite ?inject_Z_plus, ?inject_Z_opp; change (inject_Z 1) with 1%Q; lra. }
    rewrite Hfl. lia.
  - apply Qfloor_unique;
      rewrite this_plus, this_plus, this_half, this_Qc_of_Z;
      rewrite ?inject_Z_plus; change (inject_Z 1) with 1%Q; lra.
Qed.

(** The column rounds a number that is less than half a cent away from a
    whole number of cents to that number. *)
Lemma storeCurrentAmount_near (m : Z) (e : Qc) :
  - halfCent < e -> e < halfCent ->
  storeCurrentAmount (cents m + e) = storeCurrentAmount (cents m).
Proof.
  intros Hlo Hhi. unfold storeCurrentAmount, numeric_10_2.
  replace ((cents m + e) * Qc_of_Z 100) with (Qc_of_Z m + e * Qc_of_Z 100)
    by (unfold cents; field; apply Qc_of_Z_neq0; lia).
  rewrite cents_times_100, roundHalfAway_of_Z, roundHalfAway_near; [reflexivity| |].
  - unfold Qclt in *. rewrite this_opp in *. rewrite this_mult, this_half.
    change (this halfCent) with (1 # 200)%Q in Hlo.
    change (this (Qc_of_Z 100)) with 100%Q. lra.
  - unfold Qclt in *. rewrite this_mult, this_half.
    change (this halfCent) with (1 # 200)%Q in Hhi.
    change (this (Qc_of_Z 100)) with 100%Q. lra.
Qed.

Lemma fourMills_near (e : Qc) :
  - fourMills <= e -> e <= fourMills -> - halfCent < e /\ e < halfCent.
Proof.
  unfold Qcle, Qclt. rewrite !this_opp.
  change (this fourMills) with (1 # 250)%Q. change (this halfCent) with (1 # 200)%Q.
  generalize (this e). intros q Hlo Hhi. split; lra.
Qed.

(** An amount that is nothing or less, and at most four tenths of a cent
    away from [c] cents: [c] is nothing or less. *)
Lemma nonpositive_cents (c : Z) (e : Qc) :
  - fourMills <= e -> cents c + e <= 0 -> (c <= 0)%Z.
Proof.
  intros Hlo Hle. destruct (Z.le_gt_cases c 0) as [|Hpos]; [assumption|].
  exfalso. assert (H1 : cents 1 <= cents c) by (apply cents_le; lia).
  unfold Qcle in *. rewrite this_plus in Hle. rewrite this_opp in Hlo.
  change (this (cents 1)) with (1 # 100)%Q in H1.
  change (this fourMills) with (1 # 250)%Q in Hlo.
  change (this 0) with 0%Q in Hle. lra.
Qed.

End StoredAmount.

(** ** Contributions to a goal *)

Section Contribution.
Local Open Scope Qc_scope.
Import Savings.

Lemma find_id (i : string) (l : list (SavingsGoal Qc)) (g : SavingsGoal Qc) :
  find (fun g => (id g =? i)%string) l = Some g ->
  id g = i /\ existsb (fun g => (id g =? i)%string) l = true.
Proof.
  intro Hfind. pose proof (find_some _ _ Hfind) as [Hin Hid].
  split; [now apply String.eqb_eq|].
  apply existsb_exists. eauto.
Qed.

Lemma find_after_update (i : string) (v : Qc) (l : list (SavingsGoal Qc)) :
  find (fun g => (id g =? i)%string)
    (map (fun g => if (id g =? i)%string then setCurrentAmount v g else g) l)
  = option_map (setCurrentAmount v) (find (fun g => (id g =? i)%string) l).
Proof.
  induction l as [|g l IH]; [reflexivity|].
  cbn [map find]. destruct (id g =? i)%string eqn:E.
  - cbn [setCurrentAmount id]. now rewrite E.
  - now rewrite E.
Qed.

Lemma storedAmount_find (p : page) (i : string) (v : Qc) :
  storedAmount p i = Some v ->
  exists g, find (fun g => (id g =? i)%string) (table p) = Some g
            /\ current_amount g = v.
Proof.
  unfold storedAmount. destruct (find _ (table p)) as [g|]; [|discriminate].
  cbn [option_map]. intros [= <-]. eauto.
Qed.

(** A click that the store accepts: the new total is stored, the list is
    fetched again and the success toast is shown. *)
Lemma contribute_accepted (p : page) (i : string) (input : option Qc) (n c : Z) :
  inSync p ->
  storedAmount p i = Some (cents n) ->
  inputAmount input = cents c ->
  (0 <= n + c < 10 ^ 10)%Z ->
  storedAmount (contribute i input p) i = Some (cents (n + c))
  /\ inSync (contribute i input p)
  /\ toasts (contribute i input p) = Success "Progress updated." :: toasts p.
Proof.
  intros Hsync Hstored Hinput Hrange.
  destruct (storedAmount_find _ _ Hstored) as (g & Hfind & Hcur).
  destruct (find_id _ _ Hfind) as [Hid Hex].
  unfold contribute. rewrite Hsync, Hfind.
  unfold addClicked, handleUpdateProgress, update.
  fold (inputAmount input). rewrite Hid, Hex, Hcur, Hinput, <- cents_add.
  rewrite (storeCurrentAmount_accepts Hrange).
  unfold fetchSavingsGoals, storedAmount, inSync. cbn [table savingsGoals toasts].
  rewrite find_after_update, Hfind. repeat split.
Qed.

(** A click that the store refuses: nothing changes but the toasts. *)
Lemma contribute_refused (p : page) (i : string) (input : option Qc) (n c : Z)
    (e : dbError) :
  inSync p ->
  storedAmount p i = Some (cents n) ->
  inputAmount input = cents c ->
  storeCurrentAmount (cents (n + c)) = inl e ->
  contribute i input p
  = {| table := table p; savingsGoals := savingsGoals p;
       toasts := Error e :: toasts p |}.
Proof.
  intros Hsync Hstored Hinput Hrefused.
  destruct (storedAmount_find _ _ Hstored) as (g & Hfind & Hcur).
  destruct (find_id _ _ Hfind) as [Hid Hex].
  unfold contribute. rewrite Hsync, Hfind.
  unfold addClicked, handleUpdateProgress, update.
  fold (inputAmount input). rewrite Hid, Hex, Hcur, Hinput, <- cents_add.
  rewrite Hrefused. now rewrite Hsync.
Qed.

(** What a click does, whatever is typed: the page sends the sum of the
    amount shown and the amount typed, and shows what the store says. *)
Lemma contribute_sends (p : page) (i : string) (input : option Qc) (n : Z) :
  inSync p ->
  storedAmount p i = Some (cents n) ->
  contribute i input p
  = handleUpdateProgress i (cents n + inputAmount input) p
  /\ existsb (fun g => (id g =? i)%string) (table p) = true.
Proof.
  intros Hsync Hstored.
  destruct (storedAmount_find _ _ Hstored) as (g & Hfind & Hcur).
  destruct (find_id _ _ Hfind) as [Hid Hex].
  unfold contribute. rewrite Hsync, Hfind. unfold addClicked.
  fold (inputAmount input). now rewrite Hid, Hcur.
Qed.

(** Up to four tenths of a cent more or less make no difference. *)
Lemma contribute_near (p : page) (i : string) (n c : Z) (e : Qc) :
  inSync p ->
  storedAmount p i = Some (cents n) ->
  - fourMills <= e -> e <= fourMills ->
  contribute i (Some (cents c + e)) p = contribute i (Some (cents c)) p.
Proof.
  intros Hsync Hstored Hlo Hhi.
  destruct (@contribute_sends p i (Some (cents c + e)) n Hsync Hstored) as [-> Hex].
  destruct (@contribute_sends p i (Some (cents c)) n Hsync Hstored) as [-> _].
  cbn [inputAmount]. unfold handleUpdateProgress, update. rewrite Hex.
  replace (cents n + (cents c + e)) with (cents (n + c) + e)
    by (rewrite cents_add; ring).
  destruct (fourMills_near Hlo Hhi) as [Hlo' Hhi'].
  now rewrite (storeCurrentAmount_near (n + c) Hlo' Hhi'), cents_add.
Qed.



(** *** Validation of the amount *)

(** A contribution of -50 to the goal holding 100 is taken: the store then
    holds 50 and the page reports success; an empty input is taken as
    well. *)
Lemma negative_contribution_applied :
  notPositive (Some (cents (-5000)))
  /\ storedAmount (contribute "g1" (Some (cents (-5000))) (pageOf goalHolding100)) "g1"
     = Some (cents 5000)
  /\ toasts (contribute "g1" (Some (cents (-5000))) (pageOf goalHolding100))
     = [Success "Progress updated."]
  /\ ~ rejected (pageOf goalHolding100)
        (contribute "g1" (Some (cents (-5000))) (pageOf goalHolding100))
  /\ ~ rejected (pageOf goalHolding100)
        (contribute "g1" None (pageOf goalHolding100)).
Proof.
  destruct (@contribute_accepted (pageOf goalHolding100) "g1"
              (Some (cents (-5000))) 10000 (-5000) eq_refl eq_refl eq_refl)
    as (Hstored & _ & Htoast); [lia|].
  destruct (@contribute_accepted (pageOf goalHolding100) "g1"
              None 10000 0 eq_refl eq_refl)
    as (_ & _ & Htoast0); [symmetry; apply cents_0 | lia |].
  split; [discriminate|]. split; [exact Hstored|]. split; [exact Htoast|].
  split; intros [_ [e He]]; congruence.
Qed.

(** C9, as the page has it.  Neither handler looks at the amount: the
    page adds what is typed to what it shows and writes the sum to the
    store, and only the store can refuse.  On a page in sync with the
    store, for a goal holding [old]: an empty input counts as 0, so [old]
    is written back and a success toast is shown; an amount that is zero
    or less, here any amount at most four tenths of a cent away from a
    two-decimal amount [c], is applied like any other, the store then
    holding [old + c] under a success toast as long as [old + c] is not
    negative (so that -0.004 on a goal holding 0.00 is taken and changes
    nothing); when [old + c] is negative the store refuses, with a check
    violation of [current_amount >= 0] down to -99 999 999.99 and with a
    numeric field overflow of [DECIMAL(10, 2)] below that, and then the
    rows of the store and the list shown stay as they are and the only
    change is the error toast. *)
Theorem contribution_not_validated (p : page) (i : string) (n c : Z) (e : Qc) :
  inSync p ->
  storedAmount p i = Some (cents n) ->
  (0 <= n < 10 ^ 10)%Z ->
  - fourMills <= e -> e <= fourMills -> cents c + e <= 0 ->
  (storedAmount (contribute i None p) i = Some (cents n)
   /\ toasts (contribute i None p) = Success "Progress updated." :: toasts p)
  /\ ((0 <= n + c)%Z ->
      storedAmount (contribute i (Some (cents c + e)) p) i = Some (cents (n + c))
      /\ toasts (contribute i (Some (cents c + e)) p)
         = Success "Progress updated." :: toasts p)
  /\ ((- 10 ^ 10 < n + c < 0)%Z ->
      contribute i (Some (cents c + e)) p
      = {| table := table p; savingsGoals := savingsGoals p;
           toasts := Error check_violation :: toasts p |})
  /\ ((n + c <= - 10 ^ 10)%Z ->
      contribute i (Some (cents c + e)) p
      = {| table := table p; savingsGoals := savingsGoals p;
           toasts := Error numeric_field_overflow :: toasts p |}).
Proof.
  intros Hsync Hstored Hn Hlo Hhi Hc. apply (nonpositive_cents Hlo) in Hc.
  rewrite (@contribute_near p i n c e Hsync Hstored Hlo Hhi).
  split; [|split; [|split]].
  - destruct (@contribute_accepted p i None n 0 Hsync Hstored)
      as (Hs & _ & Ht); [symmetry; apply cents_0 | lia |].
    rewrite Z.add_0_r in Hs. now split.
  - intro Hge.
    destruct (@contribute_accepted p i (Some (cents c)) n c Hsync Hstored eq_refl)
      as (Hs & _ & Ht); [lia|].
    now split.
  - intro Hlt.
    apply (@contribute_refused p i (Some (cents c)) n c _ Hsync Hstored eq_refl).
    now apply storeCurrentAmount_refuses.
  - intro Hlow.
    apply (@contribute_refused p i (Some (cents c)) n c _ Hsync Hstored eq_refl).
    apply storeCurrentAmount_out_of_range. lia.
Qed.

(** The goal holding 100: an empty input, a contribution of -50, one of
    -150 and one of -100 000 100; and -0.004 on the goal holding
    nothing. *)
Lemma contribution_not_validated_witness :
  storedAmount (contribute "g1" None (pageOf goalHolding100)) "g1"
  = Some (cents 10000)
  /\ storedAmount
       (contribute "g1" (Some (cents (-5000) + 0)) (pageOf goalHolding100)) "g1"
     = Some (cents 5000)
  /\ toasts (contribute "g1" (Some (cents (-15000) + 0)) (pageOf goalHolding100))
     = [Error check_violation]
  /\ toasts (contribute "g1" (Some (cents (-10000010000) + 0)) (pageOf goalHolding100))
     = [Error numeric_field_overflow]
  /\ storedAmount
       (contribute "g1" (Some (cents 0 + - fourMills)) (pageOf emptyGoal)) "g1"
     = Some (cents 0)
  /\ toasts (contribute "g1" (Some (cents 0 + - fourMills)) (pageOf emptyGoal))
     = [Success "Progress updated."].
Proof.
  assert (Hrange : forall n : Z, (n = 0 \/ n = 10000 -> 0 <= n < 10 ^ 10)%Z) by lia.
  assert (Hlo : - fourMills <= 0) by (vm_compute; discriminate).
  assert (Hhi : 0 <= fourMills) by (vm_compute; discriminate).
  assert (Hlo' : - fourMills <= - fourMills) by apply Qcle_refl.
  assert (Hhi' : - fourMills <= fourMills) by (vm_compute; discriminate).
  destruct (@contribution_not_validated (pageOf goalHolding100) "g1" 10000 (-5000) 0
              eq_refl eq_refl (Hrange _ (or_intror eq_refl)) Hlo Hhi)
    as ((Hmissing & _) & Htaken & _); [vm_compute; discriminate|].
  destruct (@contribution_not_validated (pageOf goalHolding100) "g1" 10000 (-15000) 0
              eq_refl eq_refl (Hrange _ (or_intror eq_refl)) Hlo Hhi)
    as (_ & _ & Hcheck & _); [vm_compute; discriminate|].
  destruct (@contribution_not_validated (pageOf goalHolding100) "g1" 10000
              (-10000010000) 0
              eq_refl eq_refl (Hrange _ (or_intror eq_refl)) Hlo Hhi)
    as (_ & _ & _ & Hoverflow); [vm_compute; discriminate|].
  destruct (@contribution_not_validated (pageOf emptyGoal) "g1" 0 0 (- fourMills)
              eq_refl eq_refl (Hrange _ (or_introl eq_refl)) Hlo' Hhi')
    as (_ & Hsmall & _); [vm_compute; discriminate|].
  destruct Htaken as [Htaken _]; [lia|].
  destruct Hsmall as [Hsmall Htoast]; [lia|].
  split; [exact Hmissing|]. split; [exact Htaken|].
  split; [rewrite Hcheck by lia; reflexivity|].
  split; [rewrite Hoverflow by lia; reflexivity|].
  split; [exact Hsmall | exact Htoast].
Defined.

End Contribution.

(** ** Failures of the advice request *)

Section AdviceFailures.
Import AiCoach.
Context {num : Type}.

Lemma serve_after_checks (w : World num) :
  reachesTokenCheck w ->
  serve w
  = if getUser w
    then match fetch w with
         | inl error => catchClause error
         | inr response =>
             if negb (ok response) then
               if (gatewayStatus response =? 429)%Z then rateLimited
               else if (gatewayStatus response =? 402)%Z then paymentRequired
               else match text response with
                    | inl error => catchClause error
                    | inr _ => gatewayError
                    end
             else match content response with
                  | inl error => catchClause error
                  | inr recommendation =>
                      {| status := 200;
                         payload := RecommendationJson recommendation |}
                  end
         end
    else unauthorized.
Proof.
  intros (Hmethod & [data Hjson] & Hkey & Hauth & Hclient).
  unfold serve, tryBlock.
  apply String.eqb_neq in Hmethod. rewrite Hmethod.
  rewrite Hjson, Hkey, Hauth, Hclient. cbn [bind].
  destruct (getUser w); cbn [bind ret throw]; [|reflexivity].
  destruct (fetch w) as [error|response]; cbn [bind]; [reflexivity|].
  destruct (negb (ok response)).
  - destruct (gatewayStatus response =? 429)%Z; [reflexivity|].
    destruct (gatewayStatus response =? 402)%Z; [reflexivity|].
    destruct (text response) as [error|[]]; reflexivity.
  - destruct (content response); reflexivity.
Qed.

Lemma not_ok_429 (r : GatewayResponse) : gatewayStatus r = 429%Z -> ok r = false.
Proof. unfold ok. intros ->. reflexivity. Qed.

Lemma not_ok_402 (r : GatewayResponse) : gatewayStatus r = 402%Z -> ok r = false.
Proof. unfold ok. intros ->. reflexivity. Qed.

(** The page shows one toast for an answer outside 2xx, with the message
    of the client. *)
Lemma failed_answer_toast (r : Response) (message : string)
    (transport : Response -> AICoachPage.invoked)
    (customQuestion : option string) (p : AICoachPage.page) :
  reportsStatusOnly message transport -> is2xx r = false ->
  AICoachPage.getRecommendations (fun _ => transport r) customQuestion p
  = AICoachPage.failed message p.
Proof.
  intros Hclient Hstatus. unfold AICoachPage.getRecommendations.
  now rewrite (Hclient r Hstatus).
Qed.

(** C7, on the code.  The function tells the failures apart: a request
    that reaches the token check is answered with status 500 and the text
    "Unauthorized" when the check fails, with the status and a text of
    its own for a 429 and for a 402 of the gateway, with status 500 and
    "AI gateway error" for any other failed status of the gateway (a 401
    among them), and with status 500 and the message thrown when the call
    itself throws.  The user is shown none of this: with a client that
    reports an answer outside 2xx as a failure of its own ([error] set,
    [data] null, as [supabase.functions.invoke] does), the page, which
    throws that error before it looks at [data.error], shows in every one
    of these cases the same toast, with the message of the client. *)
Theorem advice_failures_by_category (w : World num) (message : string)
    (transport : Response -> AICoachPage.invoked)
    (customQuestion : option string) (p : AICoachPage.page) :
  reachesTokenCheck w ->
  reportsStatusOnly message transport ->
  let shown :=
    AICoachPage.toasts
      (AICoachPage.getRecommendations (fun _ => transport (serve w)) customQuestion p) in
  let oneToast :=
    AICoachPage.Error
      (AICoachPage.orElse message "Failed to get recommendations. Please try again.")
    :: AICoachPage.toasts p in
  (getUser w = false ->
   serve w = {| status := 500; payload := ErrorJson "Unauthorized" |}
   /\ shown = oneToast)
  /\ (getUser w = true ->
      (forall r, fetch w = inr r -> gatewayStatus r = 429%Z ->
         serve w
         = {| status := 429;
              payload := ErrorJson "Rate limit exceeded. Please try again later." |}
         /\ shown = oneToast)
      /\ (forall r, fetch w = inr r -> gatewayStatus r = 402%Z ->
            serve w
            = {| status := 402;
                 payload :=
                   ErrorJson
                     "Payment required. Please add credits to your Lovable AI workspace." |}
            /\ shown = oneToast)
      /\ (forall r, fetch w = inr r -> ok r = false ->
            gatewayStatus r <> 429%Z -> gatewayStatus r <> 402%Z ->
            text r = inr tt ->
            serve w = {| status := 500; payload := ErrorJson "AI gateway error" |}
            /\ shown = oneToast)
      /\ (forall error, fetch w = inl error ->
            serve w
            = {| status := 500;
                 payload := ErrorJson match error with
                                      | ErrorObject thrownMessage => thrownMessage
                                      | OtherValue => "Unknown error"
                                      end |}
            /\ shown = oneToast)).
Proof.
  intros Hreach Hclient shown oneToast.
  pose proof (serve_after_checks Hreach) as Hserve.
  assert (Hshown : is2xx (serve w) = false -> shown = oneToast).
  { intro Hstatus. subst shown oneToast.
    now rewrite (@failed_answer_toast (serve w) message transport customQuestion p
                   Hclient Hstatus). }
  split.
  - intro Huser. rewrite Huser in Hserve.
    split; [exact Hserve | apply Hshown; now rewrite Hserve].
  - intro Huser. rewrite Huser in Hserve. split; [|split; [|split]].
    + intros r Hfetch H429.
      rewrite Hfetch, (not_ok_429 r H429), H429 in Hserve. cbn in Hserve.
      split; [exact Hserve | apply Hshown; now rewrite Hserve].
    + intros r Hfetch H402.
      rewrite Hfetch, (not_ok_402 r H402), H402 in Hserve. cbn in Hserve.
      split; [exact Hserve | apply Hshown; now rewrite Hserve].
    + intros r Hfetch Hok H429 H402 Htext.
      apply Z.eqb_neq in H429, H402.
      rewrite Hfetch, Hok, H429, H402, Htext in Hserve. cbn in Hserve.
      split; [exact Hserve | apply Hshown; now rewrite Hserve].
    + intros error Hfetch. rewrite Hfetch in Hserve.
      split; [exact Hserve | apply Hshown; now rewrite Hserve].
Qed.

End AdviceFailures.

Lemma requestWith_reaches (signedIn : bool)
    (answer : AiCoach.attempt AiCoach.GatewayResponse) :
  reachesTokenCheck (requestWith signedIn answer).
Proof.
  repeat split; try discriminate. exists None. reflexivity.
Defined.

Lemma statusOnlyClient_reports :
  reportsStatusOnly "Edge Function returned a non-2xx status code" statusOnlyClient.
Proof. intros r Hr. unfold statusOnlyClient. now rewrite Hr. Defined.

(** A rate-limited call, one without credits, a gateway that answers 401
    and a user who is not signed in: the function gives four answers, the
    page shows the same toast four times. *)
Lemma advice_failures_by_category_witness :
  let page w :=
    AICoachPage.getRecommendations (fun _ => statusOnlyClient (AiCoach.serve w))
      None freshCoachPage in
  let oneToast :=
    [AICoachPage.Error "Edge Function returned a non-2xx status code"] in
  (AiCoach.status (AiCoach.serve (requestWith true (inr (gatewayAnswers 429)))) = 429%Z
   /\ AICoachPage.toasts (page (requestWith true (inr (gatewayAnswers 429)))) = oneToast)
  /\ (AiCoach.status (AiCoach.serve (requestWith true (inr (gatewayAnswers 402)))) = 402%Z
      /\ AICoachPage.toasts (page (requestWith true (inr (gatewayAnswers 402)))) = oneToast)
  /\ (AiCoach.serve (requestWith true (inr (gatewayAnswers 401)))
      = {| AiCoach.status := 500; AiCoach.payload := AiCoach.ErrorJson "AI gateway error" |}
      /\ AICoachPage.toasts (page (requestWith true (inr (gatewayAnswers 401)))) = oneToast)
  /\ (AiCoach.serve (requestWith false (inr (gatewayAnswers 200)))
      = {| AiCoach.status := 500; AiCoach.payload := AiCoach.ErrorJson "Unauthorized" |}
      /\ AICoachPage.toasts (page (requestWith false (inr (gatewayAnswers 200)))) = oneToast).
Proof.
  cbv zeta.
  pose proof (fun signedIn answer =>
    @advice_failures_by_category Qc (requestWith signedIn answer) _ _ None freshCoachPage
      (requestWith_reaches signedIn answer) statusOnlyClient_reports) as H.
  cbv zeta in H.
  split; [|split; [|split]].
  - destruct (proj1 (proj2 (H true (inr (gatewayAnswers 429))) eq_refl)
                (gatewayAnswers 429) eq_refl eq_refl) as [Hs Ht].
    split; [now rewrite Hs | exact Ht].
  - destruct (proj1 (proj2 (proj2 (H true (inr (gatewayAnswers 402))) eq_refl))
                (gatewayAnswers 402) eq_refl eq_refl) as [Hs Ht].
    split; [now rewrite Hs | exact Ht].
  - apply (proj1 (proj2 (proj2 (proj2 (H true (inr (gatewayAnswers 401))) eq_refl)))
             (gatewayAnswers 401)); try reflexivity; discriminate.
  - apply (proj1 (H false (inr (gatewayAnswers 200)))). reflexivity.
Defined.

(** * Further properties *)

(** ** The pie of the dashboard *)

Section Pie.
Context {num : Type} `{JsNumber num}.

Lemma categoryFold_order (l : list (Expense.row num))
    (acc : list (@Dashboard.entry num)) :
  map (@Dashboard.name num) (fold_left Dashboard.categoryStep l acc)
  = map (@Dashboard.name num) acc
    ++ firstSeen (map (@Dashboard.name num) acc) (map (@Expense.category num) l).
Proof.
  revert acc. induction l as [|r l IH]; intro acc; cbn [fold_left map firstSeen].
  - now rewrite app_nil_r.
  - rewrite IH, categoryStep_names.
    destruct (in_dec string_dec (Expense.category r) (map _ acc)) as [Hin|Hno].
    + reflexivity.
    + now rewrite <- app_assoc.
Qed.

(** X1. The entries of [expensesByCategory] come in the order in which
    their categories are met first in the rows, whatever the arithmetic. *)
Theorem categories_in_first_seen_order (data : option (list (Expense.row num))) :
  map (@Dashboard.name num) (Dashboard.expensesByCategory data)
  = firstSeen [] (map (@Expense.category num) (rowsOf data)).
Proof.
  destruct data as [l|]; [|reflexivity].
  cbn [Dashboard.expensesByCategory rowsOf]. now rewrite categoryFold_order.
Qed.

(** X2. The pie is drawn exactly when the query returned at least one
    expense; otherwise the page says there is no expense data. *)
Theorem pie_shown_iff_some_expense (data : option (list (Expense.row num))) :
  DashboardView.pieShown (Dashboard.expensesByCategory data) = true
  <-> rowsOf data <> [].
Proof.
  unfold DashboardView.pieShown. rewrite Nat.ltb_lt.
  rewrite <- (length_map (@Dashboard.name num)), categories_in_first_seen_order.
  destruct (rowsOf data) as [|r l]; cbn [map firstSeen].
  - cbn. split; [lia | congruence].
  - destruct (in_dec string_dec (Expense.category r) []) as [[]|_].
    cbn [List.length]. split; [discriminate | lia].
Qed.

End Pie.

Section PieColours.

Lemma cellFill_some (index : nat) :
  exists c, DashboardView.cellFill index = Some c /\ In c DashboardView.COLORS.
Proof.
  unfold DashboardView.cellFill.
  destruct (nth_error DashboardView.COLORS
              (index mod List.length DashboardView.COLORS)) as [c|] eqn:E.
  - exists c. split; [reflexivity|]. exact (nth_error_In _ _ E).
  - apply nth_error_None in E.
    pose proof (Nat.mod_upper_bound index (List.length DashboardView.COLORS)) as Hlt.
    cbn [List.length DashboardView.COLORS] in *. lia.
Qed.

(** X3. With the categories the table admits, the pie has at most seven
    slices; every slice gets one of the five colours, never none, and a
    slice has the colour of the slice five places before it. *)
Theorem at_most_seven_slices {num : Type} `{JsNumber num}
    (data : option (list (Expense.row num))) :
  Forall (fun r => In (Expense.category r) Expenses.CATEGORIES) (rowsOf data) ->
  (List.length (Dashboard.expensesByCategory data) <= 7)%nat
  /\ (forall index : nat,
        (exists c, DashboardView.cellFill index = Some c
                   /\ In c DashboardView.COLORS)
        /\ DashboardView.cellFill (index + 5) = DashboardView.cellFill index).
Proof.
  intro Hcheck. split.
  - rewrite <- (length_map (@Dashboard.name num)).
    change 7%nat with (List.length Expenses.CATEGORIES).
    apply NoDup_incl_length.
    + destruct data as [l|]; [|constructor].
      apply categoryFold_NoDup. constructor.
    + intros c Hc.
      assert (Hin : In c (map (@Expense.category num) (rowsOf data))).
      { destruct data as [l|]; [|destruct Hc].
        cbn [Dashboard.expensesByCategory rowsOf] in *.
        apply categoryFold_names in Hc. destruct Hc as [[]|Hc]. exact Hc. }
      apply in_map_iff in Hin. destruct Hin as (r & <- & Hr).
      rewrite Forall_forall in Hcheck. now apply Hcheck.
  - intro index. split; [apply cellFill_some|].
    unfold DashboardView.cellFill. cbn [List.length DashboardView.COLORS].
    replace (index + 5)%nat with (index + 1 * 5)%nat by lia.
    now rewrite Nat.Div0.mod_add.
Qed.

Lemma at_most_seven_slices_witness :
  List.length (Dashboard.expensesByCategory (Some oneOfEach)) = 7%nat
  /\ DashboardView.cellFill 5 = DashboardView.cellFill 0
  /\ DashboardView.cellFill 6 = DashboardView.cellFill 1.
Proof.
  assert (Hcheck : Forall (fun r => In (Expense.category r) Expenses.CATEGORIES)
                     (rowsOf (Some oneOfEach))).
  { repeat constructor; cbn; tauto. }
  destruct (at_most_seven_slices (Some oneOfEach) Hcheck) as [_ Hfill].
  split; [reflexivity|].
  split; [exact (proj2 (Hfill 0%nat)) | exact (proj2 (Hfill 1%nat))].
Defined.

End PieColours.

(** ** More order facts on rationals *)

Section ExactOrderMore.
Local Open Scope Qc_scope.

Lemma Qcdiv_nonneg (x y : Qc) : 0 <= x -> 0 < y -> 0 <= x / y.
Proof.
  intros Hx Hy. apply (Qcmult_lt_0_le_reg_r _ _ y Hy).
  rewrite Qcdiv_mul_cancel by now apply Qclt_neq0.
  now rewrite Qcmult_0_l.
Qed.

Lemma Qcdiv_le_1 (x y : Qc) : 0 < y -> (x / y <= 1 <-> x <= y).
Proof.
  intro Hy. split; intro Hle.
  - assert (Hxy : x / y * y <= 1 * y).
    { apply Qcmult_le_compat_r; [exact Hle | now apply Qclt_le_weak]. }
    now rewrite Qcdiv_mul_cancel, Qcmult_1_l in Hxy by now apply Qclt_neq0.
  - apply (Qcmult_lt_0_le_reg_r _ _ y Hy).
    rewrite Qcdiv_mul_cancel by now apply Qclt_neq0.
    now rewrite Qcmult_1_l.
Qed.

Lemma Qcmult_nonneg (x y : Qc) : 0 <= x -> 0 <= y -> 0 <= x * y.
Proof.
  intros Hx Hy. rewrite <- (Qcmult_0_l y). now apply Qcmult_le_compat_r.
Qed.

Lemma Qcplus_nonneg (x y : Qc) : 0 <= x -> 0 <= y -> 0 <= x + y.
Proof.
  intros Hx Hy. rewrite <- (Qcplus_0_l 0). now apply Qcplus_le_compat.
Qed.

Lemma sumQc_nonneg (l : list Qc) : Forall (fun a => 0 <= a) l -> 0 <= sumQc l.
Proof.
  induction 1 as [|a l Ha Hl IH].
  - apply Qcle_refl.
  - rewrite sumQc_cons. now apply Qcplus_nonneg.
Qed.

Lemma Qc_100_pos : 0 < Qc_of_Z 100.
Proof. reflexivity. Qed.

End ExactOrderMore.

(** ** The range of the progress figures *)

Section ProgressRange.
Local Open Scope Qc_scope.

Lemma percent_range (x y : Qc) :
  0 <= x -> 0 < y ->
  0 <= x / y * Qc_of_Z 100
  /\ (x / y * Qc_of_Z 100 <= Qc_of_Z 100 <-> x <= y).
Proof.
  intros Hx Hy. split.
  - apply Qcmult_nonneg; [now apply Qcdiv_nonneg | discriminate].
  - rewrite <- (Qcdiv_le_1 x Hy). split; intro Hle.
    + apply (Qcmult_lt_0_le_reg_r _ _ (Qc_of_Z 100) Qc_100_pos).
      now rewrite Qcmult_1_l.
    + rewrite <- (Qcmult_1_l (Qc_of_Z 100)) at 2.
      apply Qcmult_le_compat_r; [exact Hle | discriminate].
Qed.

(** X4. With positive targets and non-negative current amounts the
    aggregate progress is never negative, and it stays at or below 100
    exactly when the goals together hold no more than they target: the
    figure is not capped. *)
Theorem aggregate_progress_range (goals : list (Goal.row Qc)) :
  Forall (fun g => 0 < Goal.target_amount g /\ 0 <= Goal.current_amount g) goals ->
  0 <= Dashboard.savingsGoalProgress (Some goals)
  /\ (Dashboard.savingsGoalProgress (Some goals) <= Qc_of_Z 100
      <-> sumQc (map (@Goal.current_amount Qc) goals)
          <= sumQc (map (@Goal.target_amount Qc) goals)).
Proof.
  intro Hrows.
  assert (Hcur : 0 <= sumQc (map (@Goal.current_amount Qc) goals)).
  { apply sumQc_nonneg, Forall_map. revert Hrows. apply Forall_impl. tauto. }
  unfold Dashboard.savingsGoalProgress.
  rewrite totalTargetSavings_sum, totalCurrentSavings_sum. cbn [rowsOf].
  destruct goals as [|g goals].
  - split; [discriminate|]. split; intros _; [apply Qcle_refl | discriminate].
  - assert (Hsum : 0 < sumQc (map (@Goal.target_amount Qc) (g :: goals))).
    { apply sumQc_pos; [|discriminate].
      apply Forall_map. revert Hrows. apply Forall_impl. tauto. }
    cbn [js_gt js_of_Z js_div js_mul Exact]. rewrite Qc_of_Z_0.
    pose proof Hsum as Hguard. apply Qc_gtb_spec in Hguard. rewrite Hguard.
    now apply percent_range.
Qed.

Lemma aggregate_progress_range_witness :
  0 <= Dashboard.savingsGoalProgress (Some overshotRows)
  /\ ~ Dashboard.savingsGoalProgress (Some overshotRows) <= Qc_of_Z 100.
Proof.
  assert (Hrows : Forall (fun g => 0 < Goal.target_amount g
                                   /\ 0 <= Goal.current_amount g) overshotRows).
  { repeat constructor. discriminate. }
  destruct (aggregate_progress_range Hrows) as [Hlow Hcap].
  split; [exact Hlow|]. intro Hle. apply Hcap in Hle. now apply Hle.
Defined.

End ProgressRange.

(** ** The trend of the dashboard *)

Section Trend.
Local Open Scope Qc_scope.

Lemma totalIncome_sum (data : option (list (Income.row Qc))) :
  Dashboard.totalIncome data
  = sumQc (amountsOf "monthly" (rowsOf data))
    + sumQc (amountsOf "yearly" (rowsOf data)) / Qc_of_Z 12.
Proof.
  destruct data as [l|].
  - unfold Dashboard.totalIncome. cbn [option_map rowsOf].
    rewrite or_zero_exact, incomeStep_fold.
    cbn [js_of_Z Exact]. rewrite Qc_of_Z_0. ring.
  - apply Qc_is_canon. reflexivity.
Qed.

Lemma amountsOf_nonneg (f : string) (l : list (Income.row Qc)) :
  Forall (fun r => 0 <= Income.amount r) l -> Forall (fun a => 0 <= a) (amountsOf f l).
Proof.
  intro Hl. unfold amountsOf. apply Forall_map.
  rewrite Forall_forall in *. intros r Hr. apply filter_In in Hr. now apply Hl.
Qed.

Lemma totalIncome_nonneg (data : option (list (Income.row Qc))) :
  incomesChecked data -> 0 <= Dashboard.totalIncome data.
Proof.
  intro Hl. rewrite totalIncome_sum. apply Qcplus_nonneg.
  - now apply sumQc_nonneg, amountsOf_nonneg.
  - apply Qcdiv_nonneg; [now apply sumQc_nonneg, amountsOf_nonneg | reflexivity].
Qed.

Lemma totalExpenses_nonneg (data : option (list (Expense.row Qc))) :
  expensesChecked data -> 0 <= Dashboard.totalExpenses data.
Proof.
  intro Hl. rewrite totalExpenses_sum. now apply sumQc_nonneg, Forall_map.
Qed.

Lemma scale_le (x a b : Qc) : 0 <= x -> a <= b -> x * a <= x * b.
Proof.
  intros Hx Hab. rewrite (Qcmult_comm x a), (Qcmult_comm x b).
  now apply Qcmult_le_compat_r.
Qed.

Lemma sorted3 (a b c : Qc) : a <= b -> b <= c -> Sorted Qcle [a; b; c].
Proof.
  intros Hab Hbc.
  apply Sorted_cons; [|apply HdRel_cons; exact Hab].
  apply Sorted_cons; [|apply HdRel_cons; exact Hbc].
  apply Sorted_cons; [apply Sorted_nil | apply HdRel_nil].
Qed.

(** X5. With amounts that are not negative, the three points of the
    trend are labelled Jan, Feb and Mar, income and expenses never fall
    from one point to the next, and the last point is the current totals:
    the chart is drawn from today's figures, not from past months. *)
Theorem trend_rises_to_totals (incomeData : option (list (Income.row Qc)))
    (expensesData : option (list (Expense.row Qc))) :
  incomesChecked incomeData -> expensesChecked expensesData ->
  let trend := DashboardView.monthlyTrend (Dashboard.totalIncome incomeData)
                 (Dashboard.totalExpenses expensesData) in
  map (@DashboardView.month Qc) trend = ["Jan"; "Feb"; "Mar"]%string
  /\ Sorted Qcle (map (@DashboardView.income Qc) trend)
  /\ Sorted Qcle (map (@DashboardView.expenses Qc) trend)
  /\ (forall p, last trend p
                = {| DashboardView.month := "Mar";
                     DashboardView.income := Dashboard.totalIncome incomeData;
                     DashboardView.expenses := Dashboard.totalExpenses expensesData |}).
Proof.
  intros Hinc Hexp trend. subst trend.
  pose proof (totalIncome_nonneg Hinc) as HI.
  pose proof (totalExpenses_nonneg Hexp) as HE.
  unfold DashboardView.monthlyTrend, DashboardView.tenths.
  cbn [map DashboardView.month DashboardView.income DashboardView.expenses
       js_mul js_div js_of_Z Exact].
  split; [reflexivity|].
  assert (Hone : forall x k, 0 <= x -> Qc_of_Z k / Qc_of_Z 10 <= 1 ->
                 x * (Qc_of_Z k / Qc_of_Z 10) <= x).
  { intros x k Hx Hk. rewrite <- (Qcmult_1_r x) at 2. now apply scale_le. }
  split; [|split; [|reflexivity]].
  - apply sorted3.
    + apply scale_le; [exact HI | discriminate].
    + apply Hone; [exact HI | discriminate].
  - apply sorted3.
    + apply scale_le; [exact HE | discriminate].
    + apply Hone; [exact HE | discriminate].
Qed.

Lemma trend_rises_to_totals_witness :
  map (@DashboardView.income Qc)
    (DashboardView.monthlyTrend (Dashboard.totalIncome (Some oneIncome))
       (Dashboard.totalExpenses (Some oneExpense)))
  = [Qc_of_Z 800; Qc_of_Z 900; Qc_of_Z 1000]
  /\ Sorted Qcle (map (@DashboardView.expenses Qc)
       (DashboardView.monthlyTrend (Dashboard.totalIncome (Some oneIncome))
          (Dashboard.totalExpenses (Some oneExpense)))).
Proof.
  assert (Hinc : incomesChecked (Some oneIncome)) by (repeat constructor; discriminate).
  assert (Hexp : expensesChecked (Some oneExpense)) by (repeat constructor; discriminate).
  destruct (trend_rises_to_totals Hinc Hexp) as (_ & _ & Hsorted & _).
  split; [|exact Hsorted].
  cbn [map DashboardView.monthlyTrend DashboardView.income].
  repeat f_equal; apply Qc_is_canon; reflexivity.
Defined.

End Trend.


Section TrendLiterals.

(** On binary64 [tenths 7], [tenths 8] and [tenths 9] are the numbers the
    literals [0.7], [0.8] and [0.9] denote. *)
Example tenths_are_the_literals :
  DashboardView.tenths (num := float) 7 = 0x1.6666666666666p-1%float
  /\ DashboardView.tenths (num := float) 8 = 0x1.999999999999ap-1%float
  /\ DashboardView.tenths (num := float) 9 = 0x1.ccccccccccccdp-1%float.
Proof. repeat split. Qed.

End TrendLiterals.

(** ** The order of the rows *)

Section RowOrder.
Local Open Scope Qc_scope.

Lemma Permutation_filter_same {A : Type} (f : A -> bool) (l l' : list A) :
  Permutation l l' -> Permutation (filter f l) (filter f l').
Proof.
  induction 1 as [|x l l' _ IH|x y l|l l' l'' _ IH1 _ IH2]; cbn [filter].
  - constructor.
  - destruct (f x); [now constructor | exact IH].
  - destruct (f x), (f y); try reflexivity. constructor.
  - now transitivity (filter f l').
Qed.

Lemma sumQc_Permutation (l l' : list Qc) : Permutation l l' -> sumQc l = sumQc l'.
Proof.
  induction 1 as [|x l l' _ IH|x y l|l l' l'' _ IH1 _ IH2].
  - reflexivity.
  - now rewrite !sumQc_cons, IH.
  - rewrite !sumQc_cons. ring.
  - now rewrite IH1.
Qed.

Lemma valueOf_exact (c : string) (data : option (list (Expense.row Qc))) :
  valueOf c (Dashboard.expensesByCategory data)
  = match amountsIn c (rowsOf data) with
    | [] => None
    | _ :: _ => Some (sumQc (amountsIn c (rowsOf data)))
    end.
Proof.
  destruct data as [l|]; [|reflexivity].
  cbn [Dashboard.expensesByCategory rowsOf].
  rewrite valueOf_categoryFold. cbn [valueOf find option_map].
  unfold categorySum. destruct (amountsIn c l) as [|a rest]; [reflexivity|].
  now rewrite fold_left_add_sum, sumQc_cons.
Qed.

(** X6. On exact arithmetic the figures of the dashboard do not depend on
    the order in which the queries return the rows: the income, the
    expenses, the total of each category and the savings progress are the
    same for any rearrangement.  On binary64 they can differ in the last
    bit: 0.10, 0.20 and 0.30 add up to another number than 0.30, 0.20 and
    0.10. *)
Theorem figures_independent_of_row_order
    (incomes incomes' : list (Income.row Qc))
    (expenses expenses' : list (Expense.row Qc))
    (goals goals' : list (Goal.row Qc)) :
  Permutation incomes incomes' ->
  Permutation expenses expenses' ->
  Permutation goals goals' ->
  Dashboard.totalIncome (Some incomes) = Dashboard.totalIncome (Some incomes')
  /\ Dashboard.totalExpenses (Some expenses) = Dashboard.totalExpenses (Some expenses')
  /\ (forall c : string,
        valueOf c (Dashboard.expensesByCategory (Some expenses))
        = valueOf c (Dashboard.expensesByCategory (Some expenses')))
  /\ Dashboard.savingsGoalProgress (Some goals)
     = Dashboard.savingsGoalProgress (Some goals')
  /\ PrimFloat.eqb (Dashboard.totalExpenses (Some threeExpenses))
       (Dashboard.totalExpenses (Some (rev threeExpenses))) = false.
Proof.
  intros Hinc Hexp Hgoals.
  split; [|split; [|split; [|split]]].
  - rewrite !totalIncome_sum. cbn [rowsOf]. unfold amountsOf.
    now rewrite (sumQc_Permutation
                   (Permutation_map _ (Permutation_filter_same _ Hinc))),
                (sumQc_Permutation
                   (Permutation_map _ (Permutation_filter_same
                      (fun r => (Income.frequency r =? "yearly")%string) Hinc))).
  - rewrite !totalExpenses_sum. cbn [rowsOf].
    now rewrite (sumQc_Permutation (Permutation_map _ Hexp)).
  - intro c. rewrite !valueOf_exact. cbn [rowsOf].
    assert (Hperm : Permutation (amountsIn c expenses) (amountsIn c expenses')).
    { unfold amountsIn. now apply Permutation_map, Permutation_filter_same. }
    rewrite (sumQc_Permutation Hperm).
    destruct (amountsIn c expenses) as [|a rest] eqn:E.
    + apply Permutation_nil in Hperm. now rewrite Hperm.
    + destruct (amountsIn c expenses') as [|a' rest']; [|reflexivity].
      apply Permutation_sym, Permutation_nil in Hperm. discriminate.
  - unfold Dashboard.savingsGoalProgress.
    rewrite !totalTargetSavings_sum, !totalCurrentSavings_sum. cbn [rowsOf].
    now rewrite (sumQc_Permutation (Permutation_map (@Goal.target_amount Qc) Hgoals)),
                (sumQc_Permutation (Permutation_map (@Goal.current_amount Qc) Hgoals)).
  - vm_compute. reflexivity.
Qed.

Lemma figures_independent_of_row_order_witness :
  Dashboard.totalIncome (Some (threeIncomes (num := Qc)))
  = Dashboard.totalIncome (Some (rev (threeIncomes (num := Qc))))
  /\ Dashboard.totalExpenses (Some oneExpense)
     = Dashboard.totalExpenses (Some (rev oneExpense))
  /\ Dashboard.savingsGoalProgress (Some overshotRows)
     = Dashboard.savingsGoalProgress (Some (rev overshotRows)).
Proof.
  destruct (figures_independent_of_row_order
              (Permutation_rev (threeIncomes (num := Qc)))
              (Permutation_rev oneExpense) (Permutation_rev overshotRows))
    as (Hinc & Hexp & _ & Hgoals & _).
  split; [exact Hinc|]. split; [exact Hexp | exact Hgoals].
Defined.

End RowOrder.

(** ** What the store keeps *)

Section StoreInvariant.
Local Open Scope Qc_scope.
Import Savings SavingsCrud.

Lemma cents_nonneg_inv (n : Z) :
  Qc_gtb (Qc_of_Z 0) (cents n) = false -> (0 <= n)%Z.
Proof.
  intro Hgt. destruct (Z_lt_le_dec n 0) as [Hneg|Hge]; [|exact Hge].
  apply cents_lt in Hneg. rewrite cents_0 in Hneg.
  apply Qc_gtb_spec in Hneg. rewrite Qc_of_Z_0 in Hgt. congruence.
Qed.

Lemma cents_pos_inv (n : Z) :
  Qc_gtb (cents n) (Qc_of_Z 0) = true -> (0 < n)%Z.
Proof.
  intro Hgt. destruct (Z_lt_le_dec 0 n) as [Hpos|Hle]; [exact Hpos|].
  apply cents_le in Hle. rewrite cents_0 in Hle.
  apply Qc_gtb_false in Hle. rewrite Qc_of_Z_0 in Hgt. congruence.
Qed.

Lemma numeric_10_2_sound (v v' : Qc) :
  numeric_10_2 v = Some v' -> exists n, v' = cents n /\ (Z.abs n < 10 ^ 10)%Z.
Proof.
  unfold numeric_10_2.
  destruct (Z.abs (roundHalfAway (v * Qc_of_Z 100)) <? 10 ^ 10)%Z eqn:E;
    [|discriminate].
  intros [= <-]. apply Z.ltb_lt in E. eauto.
Qed.

Lemma storeCurrentAmount_sound (v v' : Qc) :
  storeCurrentAmount v = inr v' -> exists k, v' = cents k /\ (0 <= k < 10 ^ 10)%Z.
Proof.
  unfold storeCurrentAmount.
  destruct (numeric_10_2 v) as [w|] eqn:E; [|discriminate].
  destruct (numeric_10_2_sound _ E) as (n & -> & Hn).
  destruct (Qc_gtb (Qc_of_Z 0) (cents n)) eqn:Hsign; [discriminate|].
  intros [= <-]. apply cents_nonneg_inv in Hsign. exists n. split; [reflexivity | lia].
Qed.

Lemma storeTargetAmount_sound (v v' : Qc) :
  storeTargetAmount v = inr v' -> exists t, v' = cents t /\ (0 < t < 10 ^ 10)%Z.
Proof.
  unfold storeTargetAmount.
  destruct (numeric_10_2 v) as [w|] eqn:E; [|discriminate].
  destruct (numeric_10_2_sound _ E) as (n & -> & Hn).
  destruct (Qc_gtb (cents n) (Qc_of_Z 0)) eqn:Hsign; [|discriminate].
  intros [= <-]. apply cents_pos_inv in Hsign. exists n. split; [reflexivity | lia].
Qed.

Lemma update_wellStored (table : list (SavingsGoal Qc)) (i : string) (v : Qc)
    (table' : list (SavingsGoal Qc)) :
  wellStored table -> update table i v = inr table' -> wellStored table'.
Proof.
  unfold wellStored, update. intros Hwell.
  destruct (existsb _ table); [|now intros [= <-]].
  destruct (storeCurrentAmount v) as [e|v'] eqn:E; [discriminate|].
  intros [= <-]. destruct (storeCurrentAmount_sound _ E) as (k & -> & Hk).
  apply Forall_map. revert Hwell. apply Forall_impl. intros g Hg.
  destruct (id g =? i)%string; [|exact Hg].
  destruct Hg as (_ & t & _ & _ & Ht & Hrange).
  exists k, t. cbn [setCurrentAmount current_amount target_amount]. tauto.
Qed.

Lemma contribute_keeps (i : string) (input : option Qc) (p : page) :
  inSync p /\ wellStored (table p) ->
  inSync (contribute i input p) /\ wellStored (table (contribute i input p)).
Proof.
  intros [Hsync Hwell]. unfold contribute.
  destruct (find _ (savingsGoals p)) as [goal|]; [|now split].
  unfold addClicked, handleUpdateProgress.
  destruct (update (table p) (id goal) _) as [e|t] eqn:E.
  - now split.
  - split; [reflexivity|]. cbn [fetchSavingsGoals table].
    eapply update_wellStored; eassumption.
Qed.

Lemma handleAddGoal_keeps (newId : string) (f : NewGoal.t) (p : page) :
  inSync p /\ wellStored (table p) ->
  inSync (handleAddGoal newId f p) /\ wellStored (table (handleAddGoal newId f p)).
Proof.
  intros [Hsync Hwell]. unfold handleAddGoal, insert.
  destruct (numeric_10_2 (NewGoal.target_amount f)); [|now split].
  destruct (numeric_10_2 (NewGoal.current_amount f)); [|now split].
  destruct (storeTargetAmount _) as [e|target] eqn:Et; [now split|].
  destruct (storeCurrentAmount _) as [e|current] eqn:Ec; [now split|].
  split; [reflexivity|]. cbn [fetchSavingsGoals table].
  apply Forall_app. split; [exact Hwell|]. constructor; [|constructor].
  destruct (storeTargetAmount_sound _ Et) as (t & -> & Ht).
  destruct (storeCurrentAmount_sound _ Ec) as (k & -> & Hk).
  exists k, t. cbn [current_amount target_amount]. tauto.
Qed.

Lemma handleDeleteGoal_keeps (i : string) (p : page) :
  inSync p /\ wellStored (table p) ->
  inSync (handleDeleteGoal i p) /\ wellStored (table (handleDeleteGoal i p)).
Proof.
  intros [Hsync Hwell]. split; [reflexivity|].
  cbn [handleDeleteGoal fetchSavingsGoals table].
  unfold wellStored in *. rewrite Forall_forall in *.
  intros g Hg. apply filter_In in Hg. now apply Hwell.
Qed.

(** X7. Whatever goals are added, topped up and deleted, in any order and
    with any amounts typed, every goal the store holds keeps a positive
    two-decimal target and a two-decimal current amount that is not
    negative, both below 10^8, and the page shows what the store holds. *)
Theorem store_keeps_amounts_valid (actions : list action) (p : page) :
  inSync p -> wellStored (table p) ->
  inSync (run actions p) /\ wellStored (table (run actions p)).
Proof.
  intros Hsync Hwell. assert (Hinv : inSync p /\ wellStored (table p)) by tauto.
  clear Hsync Hwell. revert p Hinv. unfold run.
  induction actions as [|a actions IH]; intros p Hinv; [exact Hinv|].
  cbn [fold_left]. apply IH. destruct a as [newId f|i input|i]; cbn [step].
  - now apply handleAddGoal_keeps.
  - now apply contribute_keeps.
  - now apply handleDeleteGoal_keeps.
Qed.

(** A goal is added with 100.555 typed, topped up by -1000, by 0.004 and
    by 50, a second one is added and deleted again. *)
Lemma store_keeps_amounts_valid_witness :
  wellStored
    (table (run [ AddGoal "g1" parisForm;
                  Contribute "g1" (Some (Qc_of_Z (-1000)));
                  Contribute "g1" (Some (Qc_of_Z 4 / Qc_of_Z 1000));
                  Contribute "g1" (Some (Qc_of_Z 50));
                  AddGoal "g2" parisForm;
                  DeleteGoal "g2" ] emptyPage)).
Proof.
  apply store_keeps_amounts_valid; [reflexivity | constructor].
Defined.

End StoreInvariant.

(** ** Rounding of the stored amount *)

Section StoreRounding.
Local Open Scope Qc_scope.
Import Savings SavingsCrud.



(** At the middle between two cents the exact sum and the binary64 sum
    part: 0.075 typed on the goal holding 0.01 is 0.085 exactly, which the
    column rounds to 0.09, while the browser adds the two floats to
    6124895493223874 * 2^-56, which is less than 0.085 and is sent as
    0.08499999999999999, which the column rounds to 0.08. *)
Lemma half_cent_tie_on_binary64 :
  storeCurrentAmount (cents 1 + (cents 7 + halfCent)) = inr (cents 9)
  /\ Prim2SF (newTotal64 (parseCents 1) (parseMills 75))
     = S754_finite false 6124895493223874 (-56)
  /\ (value64 (newTotal64 (parseCents 1) (parseMills 75)) < 85 # 1000)%Q
  /\ storeCurrentAmount (Qc_of_Z 8499999999999999 / Qc_of_Z (10 ^ 17))
     = inr (cents 8).
Proof.
  split; [|split; [|split]].
  - replace (cents 1 + (cents 7 + halfCent)) with (cents 9 + - halfCent)
      by (apply Qc_is_canon; reflexivity).
    unfold storeCurrentAmount, numeric_10_2.
    replace ((cents 9 + - halfCent) * Qc_of_Z 100) with (Qc_of_Z 9 + - half)
      by (apply Qc_is_canon; reflexivity).
    assert (Hr : roundHalfAway (Qc_of_Z 9 + - half) = 9%Z) by (vm_compute; reflexivity).
    rewrite Hr. reflexivity.
  - vm_compute. reflexivity.
  - vm_compute. reflexivity.
  - replace (Qc_of_Z 8499999999999999 / Qc_of_Z (10 ^ 17))
      with (cents 8 + (Qc_of_Z 8499999999999999 / Qc_of_Z (10 ^ 17) - cents 8))
      by ring.
    rewrite storeCurrentAmount_near.
    + apply storeCurrentAmount_accepts. lia.
    + vm_compute. reflexivity.
    + vm_compute. reflexivity.
Qed.

Local Open Scope Q_scope.

(** The binary64 sum of a parsed two-decimal amount and a float is within
    [2 ^ -25] of the exact sum of the two. *)
Lemma newTotal64_near (n : Z) (typed : float) (t : Q) :
  (0 <= n < 10 ^ 10)%Z -> finite64 typed = true ->
  Qabs (value64 typed - t) <= pow2 (-27) -> Qabs t <= 100000001 ->
  Qabs (value64 (newTotal64 (parseCents n) typed) - (inject_Z n / 100 + t))
  <= pow2 (-25).
Proof.
  intros Hn Hfin Htyped Ht.
  destruct (parseCents_approx Hn) as [Hnn Hshown].
  pose proof (SFnonneg_finite _ Hnn) as Hsfin. fold (finite64 (parseCents n)) in Hsfin.
  pose proof (@inject_Z_range n 0 (10 ^ 10) Hn) as [Hn0 Hn1].
  change (inject_Z (10 ^ 10)) with 10000000000 in Hn1.
  change (inject_Z 0) with 0 in Hn0.
  assert (E27 : pow2 (-27) == 1 # 134217728) by reflexivity.
  assert (E25 : pow2 (-25) == 1 # 33554432) by reflexivity.
  assert (E26 : pow2 (28 - 54) == 1 # 67108864) by reflexivity.
  assert (E28 : pow2 28 == 268435456) by reflexivity.
  assert (Hn' : 0 <= inject_Z n / 100 /\ inject_Z n / 100 < 100000000).
  { split; [apply Qle_shift_div_l; [reflexivity | lra]
           | apply Qlt_shift_div_r; [reflexivity | exact Hn1]]. }
  apply Qabs_Qle_condition in Ht.
  apply Qabs_diff_Qle_condition in Hshown, Htyped.
  destruct (@add_value_signed (parseCents n) typed 28 Hsfin Hfin ltac:(lia)) as [_ Hsum].
  { apply Qabs_Qlt_condition. split; lra. }
  apply Qabs_diff_Qle_condition in Hsum. unfold newTotal64.
  apply Qabs_diff_Qle_condition. split; lra.
Qed.

(** X23. The sum the browser takes is stored as the exact sum is.  For a
    goal holding a two-decimal amount of the column and an amount typed
    that is at most four tenths of a cent away from a two-decimal amount
    below 100 000 000 in absolute value: whatever float [parseFloat] makes
    of the text typed, within [2 ^ -27] of it (half a unit in the last
    place of such numbers), and whatever decimal [d] the browser sends
    for the binary64 sum [newTotal], within [2 ^ -26] of it (the text of
    [newTotal.toString()] reads back as [newTotal]), the column keeps for
    [d] the two-decimal value it keeps for the exact sum, or refuses both
    with the same error. *)
Theorem page_sum_stored_to_the_cent (n c : Z) (e : Qc) (typed : float) (d : Qc) :
  (0 <= n < 10 ^ 10)%Z -> (- 10 ^ 10 < c < 10 ^ 10)%Z ->
  (- fourMills <= e)%Qc -> (e <= fourMills)%Qc ->
  finite64 typed = true ->
  Qabs (value64 typed - this (cents c + e)%Qc) <= pow2 (-27) ->
  Qabs (this d - value64 (newTotal64 (parseCents n) typed)) <= pow2 (-26) ->
  storeCurrentAmount d = storeCurrentAmount (cents n + (cents c + e))%Qc.
Proof.
  intros Hn Hc Hlo Hhi Hfin Htyped Hd.
  pose proof (@inject_Z_range c (- 10 ^ 10 + 1) (10 ^ 10) ltac:(lia)) as [Hc0 Hc1].
  change (inject_Z (10 ^ 10)) with 10000000000 in Hc1.
  change (inject_Z (- 10 ^ 10 + 1)) with (-9999999999) in Hc0.
  assert (Hc' : -100000000 <= inject_Z c / 100 /\ inject_Z c / 100 <= 100000000).
  { split; [apply Qle_shift_div_l; [reflexivity | lra]
           | apply Qle_shift_div_r; [reflexivity | lra]]. }
  destruct (fourMills_near Hlo Hhi) as [Hlo' Hhi'].
  unfold Qcle in Hlo, Hhi. rewrite this_opp in Hlo.
  change (this fourMills) with (1 # 250) in Hlo, Hhi.
  assert (Hsum : Qabs (value64 (newTotal64 (parseCents n) typed)
                       - (inject_Z n / 100 + this (cents c + e)%Qc)) <= pow2 (-25)).
  { apply newTotal64_near; try assumption.
    rewrite this_plus, this_cents. apply Qabs_Qle_condition. split; lra. }
  rewrite this_plus, this_cents in Hsum.
  assert (E26 : pow2 (-26) == 1 # 67108864) by reflexivity.
  assert (E25 : pow2 (-25) == 1 # 33554432) by reflexivity.
  apply Qabs_diff_Qle_condition in Hd, Hsum.
  replace (cents n + (cents c + e))%Qc with (cents (n + c) + e)%Qc
    by (rewrite cents_add; ring).
  replace d with (cents (n + c) + (d - cents (n + c)))%Qc by ring.
  assert (Hsplit : inject_Z (n + c) / 100 == inject_Z n / 100 + inject_Z c / 100)
    by (rewrite inject_Z_plus; field).
  rewrite (storeCurrentAmount_near (n + c) Hlo' Hhi').
  apply storeCurrentAmount_near; unfold Qclt;
    rewrite ?this_opp; unfold Qcminus; rewrite this_plus, this_opp, this_cents;
    change (this halfCent) with (1 # 200); lra.
Qed.

(** 0.074 typed on a goal holding 0.01: 0.084 is sent, or a number next
    to it, and 0.08 is stored; -50 typed on a goal holding 100: 50 is
    stored. *)
Lemma page_sum_stored_to_the_cent_witness :
  storeCurrentAmount (Qc_of_Z 84 / Qc_of_Z 1000)%Qc
  = storeCurrentAmount (cents 1 + (cents 7 + fourMills))%Qc
  /\ storeCurrentAmount (cents 5000)
     = storeCurrentAmount (cents 10000 + (cents (-5000) + Qc_of_Z 0))%Qc.
Proof.
  split.
  - apply (@page_sum_stored_to_the_cent 1 7 fourMills (parseMills 74));
      try lia; try reflexivity; vm_compute; discriminate.
  - apply (@page_sum_stored_to_the_cent 10000 (-5000) (Qc_of_Z 0)
             (PrimFloat.opp (parseCents 5000)));
      try lia; try reflexivity; vm_compute; discriminate.
Defined.

End StoreRounding.

(** ** What a click on a goal leaves alone *)

Section GoalFrame.
Local Open Scope Qc_scope.
Import Savings SavingsCrud.

Lemma find_update_other (i j : string) (v : Qc) (l : list (SavingsGoal Qc)) :
  j <> i ->
  find (fun g => (id g =? j)%string)
    (map (fun g => if (id g =? i)%string then setCurrentAmount v g else g) l)
  = find (fun g => (id g =? j)%string) l.
Proof.
  intro Hji. induction l as [|g l IH]; [reflexivity|].
  cbn [map find]. destruct (id g =? i)%string eqn:Ei.
  - apply String.eqb_eq in Ei. cbn [setCurrentAmount id]. rewrite Ei.
    assert (Hij : (i =? j)%string = false) by (apply String.eqb_neq; congruence).
    now rewrite Hij.
  - destruct (id g =? j)%string; [reflexivity | exact IH].
Qed.

Lemma update_other (table table' : list (SavingsGoal Qc)) (i j : string) (v : Qc) :
  j <> i -> update table i v = inr table' ->
  find (fun g => (id g =? j)%string) table'
  = find (fun g => (id g =? j)%string) table.
Proof.
  intros Hji. unfold update.
  destruct (existsb _ table); [|now intros [= <-]].
  destruct (storeCurrentAmount v) as [e|v']; [discriminate|].
  intros [= <-]. now apply find_update_other.
Qed.

Lemma update_same (table table' : list (SavingsGoal Qc)) (i : string) (v : Qc)
    (g' : SavingsGoal Qc) :
  update table i v = inr table' ->
  find (fun g => (id g =? i)%string) table' = Some g' ->
  exists g, find (fun g => (id g =? i)%string) table = Some g
            /\ id g' = id g /\ goal_name g' = goal_name g
            /\ target_amount g' = target_amount g
            /\ target_date g' = target_date g.
Proof.
  unfold update. destruct (existsb _ table).
  - destruct (storeCurrentAmount v) as [e|v']; [discriminate|].
    intros [= <-]. rewrite find_after_update.
    destruct (find _ table) as [g|]; [|discriminate].
    cbn [option_map]. intros [= <-]. exists g. now split.
  - intros [= <-] Hfind. exists g'. now split.
Qed.

(** X9. A click on the Add button of goal [i], whatever is typed and
    whatever the page shows, leaves the row of every other goal as it is
    and changes nothing of goal [i] but its current amount. *)
Theorem contribution_touches_one_amount (p : page) (i : string) (input : option Qc) :
  (forall j : string, j <> i ->
     storedGoal (contribute i input p) j = storedGoal p j)
  /\ (forall g' : SavingsGoal Qc,
        storedGoal (contribute i input p) i = Some g' ->
        exists g, storedGoal p i = Some g
                  /\ id g' = id g /\ goal_name g' = goal_name g
                  /\ target_amount g' = target_amount g
                  /\ target_date g' = target_date g).
Proof.
  unfold storedGoal, contribute.
  destruct (find _ (savingsGoals p)) as [goal|] eqn:Hcard.
  - destruct (find_id _ _ Hcard) as [Hid _].
    unfold addClicked, handleUpdateProgress. rewrite Hid.
    destruct (update (table p) i _) as [e|t] eqn:E; cbn [fetchSavingsGoals table].
    + split; [reflexivity|]. intros g' Hg'. exists g'. now split.
    + split.
      * intros j Hji. eapply update_other; eassumption.
      * intros g' Hg'. eapply update_same; eassumption.
  - split; [reflexivity|]. intros g' Hg'. exists g'. now split.
Qed.




Lemma storeCurrentAmount_overflows (m : Z) :
  (10 ^ 10 <= m)%Z -> storeCurrentAmount (cents m) = inl numeric_field_overflow.
Proof.
  intro Hm. unfold storeCurrentAmount, numeric_10_2.
  rewrite cents_times_100, roundHalfAway_of_Z.
  assert (Hno : (Z.abs m <? 10 ^ 10)%Z = false) by (apply Z.ltb_ge; lia).
  now rewrite Hno.
Qed.

(** X11. A contribution that would bring the amount to 100 000 000 or
    more is refused by the column: the store keeps its rows and the page
    shows the error. *)
Theorem contribution_over_range_refused (p : page) (i : string) (n c : Z) :
  inSync p ->
  storedAmount p i = Some (cents n) ->
  (10 ^ 10 <= n + c)%Z ->
  contribute i (Some (cents c)) p
  = {| table := table p; savingsGoals := savingsGoals p;
       toasts := Error numeric_field_overflow :: toasts p |}.
Proof.
  intros Hsync Hstored Hrange.
  destruct (storedAmount_find _ _ Hstored) as (g & Hfind & Hcur).
  destruct (find_id _ _ Hfind) as [Hid Hex].
  unfold contribute. rewrite Hsync, Hfind.
  unfold addClicked, handleUpdateProgress, update.
  rewrite Hid, Hex, Hcur, <- cents_add, (storeCurrentAmount_overflows Hrange).
  now rewrite Hsync.
Qed.

(** 99 999 999.99 added to the goal holding 100. *)
Lemma contribution_over_range_refused_witness :
  rejected (pageOf goalHolding100)
    (contribute "g1" (Some (cents 9999999999)) (pageOf goalHolding100))
  /\ storedAmount
       (contribute "g1" (Some (cents 9999999999)) (pageOf goalHolding100)) "g1"
     = Some (cents 10000).
Proof.
  rewrite (@contribution_over_range_refused (pageOf goalHolding100) "g1"
             10000 9999999999 eq_refl eq_refl); [|lia].
  split; [split; [reflexivity | eexists; reflexivity] | reflexivity].
Defined.

End GoalFrame.

(** ** Adding and deleting goals *)

Section AddAndDelete.
Local Open Scope Qc_scope.
Import Savings SavingsCrud.

Lemma find_after_delete (i j : string) (l : list (SavingsGoal Qc)) :
  find (fun g => (id g =? j)%string)
    (filter (fun g => negb (id g =? i)%string) l)
  = if (j =? i)%string then None else find (fun g => (id g =? j)%string) l.
Proof.
  induction l as [|g l IH]; cbn [filter find].
  - now destruct (j =? i)%string.
  - destruct (id g =? i)%string eqn:Ei; cbn [negb find].
    + rewrite IH. destruct (j =? i)%string eqn:Eji; [reflexivity|].
      apply String.eqb_eq in Ei. apply String.eqb_neq in Eji.
      assert (Hgj : (id g =? j)%string = false)
        by (apply String.eqb_neq; congruence).
      now rewrite Hgj.
    + destruct (id g =? j)%string eqn:Ej; [|exact IH].
      apply String.eqb_eq in Ej. rewrite <- Ej, Ei. reflexivity.
Qed.

(** X12. Deleting goal [i] removes its row and no other, brings the page
    in sync and reports success, also when there was no such goal; the
    card being gone, a contribution to [i] does nothing afterwards. *)
Theorem delete_removes_one_goal (p : page) (i : string) :
  storedGoal (handleDeleteGoal i p) i = None
  /\ (forall j : string, j <> i ->
        storedGoal (handleDeleteGoal i p) j = storedGoal p j)
  /\ inSync (handleDeleteGoal i p)
  /\ toasts (handleDeleteGoal i p) = Success "Savings goal deleted." :: toasts p
  /\ (forall input : option Qc,
        contribute i input (handleDeleteGoal i p) = handleDeleteGoal i p).
Proof.
  unfold storedGoal, handleDeleteGoal, fetchSavingsGoals. cbn [table].
  split; [|split; [|split; [|split]]].
  - now rewrite find_after_delete, String.eqb_refl.
  - intros j Hji. rewrite find_after_delete.
    apply String.eqb_neq in Hji. now rewrite Hji.
  - reflexivity.
  - reflexivity.
  - intro input. unfold contribute. cbn [savingsGoals].
    now rewrite find_after_delete, String.eqb_refl.
Qed.

Lemma find_app_one (j : string) (l : list (SavingsGoal Qc)) (g : SavingsGoal Qc) :
  find (fun g => (id g =? j)%string) (l ++ [g])
  = match find (fun g => (id g =? j)%string) l with
    | Some g0 => Some g0
    | None => if (id g =? j)%string then Some g else None
    end.
Proof.
  induction l as [|g0 l IH]; cbn [app find].
  - now destruct (id g =? j)%string.
  - destruct (id g0 =? j)%string; [reflexivity | exact IH].
Qed.

Lemma storeTargetAmount_accepts (t : Z) :
  (0 < t < 10 ^ 10)%Z -> storeTargetAmount (cents t) = inr (cents t).
Proof.
  intros [H0 Ht]. unfold storeTargetAmount.
  rewrite numeric_10_2_cents by lia.
  rewrite Qc_of_Z_0, <- cents_0.
  apply cents_lt, Qc_gtb_spec in H0. now rewrite H0.
Qed.

Lemma storeTargetAmount_refuses (t : Z) :
  (- 10 ^ 10 < t <= 0)%Z -> storeTargetAmount (cents t) = inl check_violation.
Proof.
  intros [Ht H0]. unfold storeTargetAmount.
  rewrite numeric_10_2_cents by lia.
  rewrite Qc_of_Z_0, <- cents_0.
  apply cents_le, Qc_gtb_false in H0. now rewrite H0.
Qed.

(** X13. A goal submitted with two-decimal amounts in range is stored as
    typed under the id the store chose, next to the goals already there,
    when its target is positive and its current amount not negative; with
    a target of zero or less nothing is stored and the error is shown. *)
Theorem add_goal_stores_or_refuses (p : page) (newId : string) (f : NewGoal.t)
    (t k : Z) :
  storedGoal p newId = None ->
  NewGoal.target_amount f = cents t -> (- 10 ^ 10 < t < 10 ^ 10)%Z ->
  NewGoal.current_amount f = cents k -> (0 <= k < 10 ^ 10)%Z ->
  ((0 < t)%Z ->
   storedGoal (handleAddGoal newId f p) newId
   = Some {| id := newId; goal_name := NewGoal.goal_name f;
             target_amount := cents t; current_amount := cents k;
             target_date := NewGoal.target_date f |}
   /\ (forall j : string, j <> newId ->
         storedGoal (handleAddGoal newId f p) j = storedGoal p j)
   /\ inSync (handleAddGoal newId f p)
   /\ toasts (handleAddGoal newId f p)
      = Success "Savings goal added successfully." :: toasts p)
  /\ ((t <= 0)%Z ->
      handleAddGoal newId f p
      = {| table := table p; savingsGoals := savingsGoals p;
           toasts := Error check_violation :: toasts p |}).
Proof.
  unfold storedGoal. intros Hfresh Htarget Ht Hcurrent Hk.
  unfold handleAddGoal, insert. rewrite Htarget, Hcurrent.
  rewrite !numeric_10_2_cents by lia. split.
  - intro Hpos.
    rewrite storeTargetAmount_accepts, (storeCurrentAmount_accepts Hk) by lia.
    cbn [fetchSavingsGoals table toasts].
    split; [|split; [|split; reflexivity]].
    + now rewrite find_app_one, Hfresh, String.eqb_refl.
    + intros j Hj. rewrite find_app_one. cbn [id].
      assert (Hneq : (newId =? j)%string = false)
        by (apply String.eqb_neq; congruence).
      rewrite Hneq.
      now destruct (find (fun g => (id g =? j)%string) (table p)).
  - intro Hneg. now rewrite storeTargetAmount_refuses by lia.
Qed.

(** The goal of 2000 holding 100 is added to the empty page; the one
    with a target of 0 is not. *)
Lemma add_goal_stores_or_refuses_witness :
  storedAmount (handleAddGoal "g1" goalOf2000Form emptyPage) "g1"
  = Some (cents 10000)
  /\ table (handleAddGoal "g1" zeroTargetForm emptyPage) = [].
Proof.
  destruct (@add_goal_stores_or_refuses emptyPage "g1" goalOf2000Form 200000 10000)
    as [Hadd _]; try reflexivity; try lia.
  destruct (@add_goal_stores_or_refuses emptyPage "g1" zeroTargetForm 0 10000)
    as [_ Hrefuse]; try reflexivity; try lia.
  split.
  - unfold storedAmount. destruct Hadd as [Hrow _]; [lia|].
    unfold storedGoal in Hrow. now rewrite Hrow.
  - rewrite Hrefuse by lia. reflexivity.
Defined.

(** A target of 0 with 1 000 000 000 typed as the amount saved: the
    amount does not fit its column, and that is the error shown, not the
    CHECK on the target. *)
Example overflow_shown_before_check :
  toasts
    (handleAddGoal "g1"
       {| NewGoal.goal_name := "Paris Trip";
          NewGoal.target_amount := cents 0;
          NewGoal.current_amount := Qc_of_Z 1000000000;
          NewGoal.target_date := 20090 |}
       emptyPage)
  = [Error numeric_field_overflow].
Proof. vm_compute. reflexivity. Qed.

End AddAndDelete.

(** ** The progress bar of a goal *)

Section GoalProgress.
Local Open Scope Qc_scope.
Import Savings.

(** X14. For a goal with a positive target and a current amount that is
    not negative, the progress is never negative, it is at most 100
    exactly when the current amount does not exceed the target, and it is
    100 exactly when the two are equal: an overshot goal shows more than
    100. *)
Theorem goal_progress_range (goal : SavingsGoal Qc) :
  0 < target_amount goal -> 0 <= current_amount goal ->
  0 <= progress goal
  /\ (progress goal <= Qc_of_Z 100 <-> current_amount goal <= target_amount goal)
  /\ (progress goal = Qc_of_Z 100 <-> current_amount goal = target_amount goal).
Proof.
  intros Ht Hc. unfold progress. cbn [js_mul js_div js_of_Z Exact].
  destruct (percent_range Hc Ht) as [Hlow Hcap].
  split; [exact Hlow|]. split; [exact Hcap|].
  assert (Hne : target_amount goal <> 0) by now apply Qclt_neq0.
  assert (H100 : Qc_of_Z 100 <> 0) by (apply Qc_of_Z_neq0; lia).
  split; intro Heq.
  - replace (current_amount goal)
      with (current_amount goal / target_amount goal * Qc_of_Z 100
            * (target_amount goal / Qc_of_Z 100))
      by (field; split; assumption).
    rewrite Heq. field. exact H100.
  - rewrite Heq. field. exact Hne.
Qed.

(** The goal of 1000 holding 1200 shows 120. *)
Lemma goal_progress_range_witness :
  progress overshotGoal = Qc_of_Z 120
  /\ ~ progress overshotGoal <= Qc_of_Z 100.
Proof.
  destruct (@goal_progress_range overshotGoal) as (_ & Hcap & _);
    [reflexivity | discriminate |].
  split; [apply Qc_is_canon; reflexivity|].
  intro Hle. apply Hcap in Hle. now apply Hle.
Defined.

End GoalProgress.

(** ** The figures sent to the coach *)

Section PromptFigures.
Local Open Scope Qc_scope.

Lemma get_asObject (c : string) (acc : list (@Dashboard.entry Qc)) :
  AiCoachPrompt.get (asObject acc) c = valueOf c acc.
Proof.
  unfold valueOf, asObject. induction acc as [|e acc IH]; [reflexivity|].
  cbn [map AiCoachPrompt.get find].
  destruct (Dashboard.name e =? c)%string; [reflexivity | exact IH].
Qed.

Lemma set_existing (c : string) (a : Qc) (acc : list (@Dashboard.entry Qc))
    (e : @Dashboard.entry Qc) :
  find (fun e => (Dashboard.name e =? c)%string) acc = Some e ->
  AiCoachPrompt.set (asObject acc) c (Dashboard.value e + a)
  = asObject (Dashboard.addToExisting c a acc).
Proof.
  unfold asObject. induction acc as [|e0 acc IH]; [discriminate|].
  cbn [find map AiCoachPrompt.set Dashboard.addToExisting].
  destruct (Dashboard.name e0 =? c)%string.
  - intros [= <-]. reflexivity.
  - intro Hfind. cbn [map]. now rewrite IH.
Qed.

Lemma set_absent (c : string) (v : Qc) (acc : list (@Dashboard.entry Qc)) :
  find (fun e => (Dashboard.name e =? c)%string) acc = None ->
  AiCoachPrompt.set (asObject acc) c v
  = asObject (acc ++ [{| Dashboard.name := c; Dashboard.value := v |}]).
Proof.
  unfold asObject. induction acc as [|e0 acc IH]; [reflexivity|].
  cbn [find map app AiCoachPrompt.set].
  destruct (Dashboard.name e0 =? c)%string; [discriminate|].
  intro Hfind. now rewrite IH.
Qed.

Lemma object_fold (l : list (Expense.row Qc)) (acc : list (@Dashboard.entry Qc)) :
  fold_left
    (fun o item =>
       AiCoachPrompt.set o (Expense.category item)
         (js_add (or_zero (AiCoachPrompt.get o (Expense.category item)))
                 (Expense.amount item)))
    l (asObject acc)
  = asObject (fold_left Dashboard.categoryStep l acc).
Proof.
  revert acc. induction l as [|r l IH]; intro acc; [reflexivity|].
  cbn [fold_left]. rewrite <- IH. f_equal.
  rewrite get_asObject. unfold valueOf, Dashboard.categoryStep.
  destruct (find _ acc) as [e|] eqn:Efind; cbn [option_map].
  - rewrite or_zero_exact. now apply set_existing.
  - rewrite set_absent by exact Efind.
    replace (js_add (or_zero None) (Expense.amount r)) with (Expense.amount r);
      [reflexivity|].
    cbn [or_zero js_add js_of_Z Exact]. rewrite Qc_of_Z_0. ring.
Qed.

(** X15. Without a question (none, or an empty one) the prompt carries
    the figures of the dashboard: the same monthly income, the same total
    of expenses, their difference as available funds, the same categories
    in the same order with the same totals, and the number of goals; with
    a question the prompt is the question as it came, whatever the tables
    hold. *)
Theorem prompt_carries_dashboard_figures
    (incomeData : option (list (Income.row Qc)))
    (expensesData : option (list (Expense.row Qc)))
    (savingsData : option (list (Goal.row Qc))) :
  let summary :=
    AiCoachPrompt.Summary
      (Dashboard.totalIncome incomeData)
      (Dashboard.totalExpenses expensesData)
      (DashboardView.availableFunds (Dashboard.totalIncome incomeData)
         (Dashboard.totalExpenses expensesData))
      (asObject (Dashboard.expensesByCategory expensesData))
      (List.length (rowsOf savingsData)) in
  AiCoachPrompt.userPrompt None incomeData expensesData savingsData = summary
  /\ AiCoachPrompt.userPrompt (Some ""%string) incomeData expensesData savingsData
     = summary
  /\ (forall (a : Ascii.ascii) (text : string),
        AiCoachPrompt.userPrompt (Some (String a text)) incomeData expensesData
          savingsData
        = AiCoachPrompt.Question (String a text)).
Proof.
  assert (Hobject : AiCoachPrompt.expensesByCategory expensesData
                    = asObject (Dashboard.expensesByCategory expensesData)).
  { destruct expensesData as [l|]; [|reflexivity].
    exact (object_fold l []). }
  unfold AiCoachPrompt.userPrompt. cbn [String.eqb]. rewrite Hobject.
  split; [reflexivity|]. split; reflexivity.
Qed.

End PromptFigures.

(** ** The answers of the edge function *)

Section Answers.
Import AiCoach.
Context {num : Type}.

Lemma catchClause_status (e : thrown) :
  status (catchClause e) = 500%Z
  /\ exists message, payload (catchClause e) = ErrorJson message.
Proof. split; [reflexivity | eexists; reflexivity]. Qed.

(** X16. The status and the body of an answer agree: an error body comes
    with 429, 402 or 500 and never with a 2xx status, a recommendation
    comes with 200, and only the answer to a preflight has no body. *)
Theorem status_tells_failure (w : World num) :
  match payload (serve w) with
  | ErrorJson _ => In (status (serve w)) [429; 402; 500]%Z
  | RecommendationJson _ => status (serve w) = 200%Z /\ method w <> "OPTIONS"%string
  | NoBody => status (serve w) = 200%Z /\ method w = "OPTIONS"%string
  end.
Proof.
  unfold serve. destruct (method w =? "OPTIONS")%string eqn:Em.
  - apply String.eqb_eq in Em. now split.
  - apply String.eqb_neq in Em. unfold tryBlock, bind, require, ret, throw.
    destruct (json w); [cbn; tauto|].
    destruct (LOVABLE_API_KEY w) as [key|]; [|cbn; tauto].
    destruct (key =? "")%string; [cbn; tauto|].
    destruct (Authorization w) as [header|]; [|cbn; tauto].
    destruct (header =? "")%string; [cbn; tauto|].
    destruct (createClient w); [cbn; tauto|].
    destruct (getUser w); [|cbn; tauto].
    destruct (fetch w) as [e|response]; [cbn; tauto|].
    destruct (negb (ok response)).
    + destruct (gatewayStatus response =? 429)%Z; [cbn; tauto|].
      destruct (gatewayStatus response =? 402)%Z; [cbn; tauto|].
      destruct (text response); cbn; tauto.
    + destruct (content response); cbn; tauto.
Qed.

(** X17. The checks come in a fixed order and the first one that fails
    decides the answer: a preflight is answered before anything is read;
    a body that cannot be read is reported before the key is looked for;
    a missing key before the header; a missing header before the token
    and the gateway are asked. *)
Theorem first_failed_check_answers (w : World num) :
  (method w = "OPTIONS"%string -> serve w = {| status := 200; payload := NoBody |})
  /\ (method w <> "OPTIONS"%string ->
      (forall e, json w = inl e -> serve w = catchClause e)
      /\ (forall data, json w = inr data ->
          (LOVABLE_API_KEY w = None \/ LOVABLE_API_KEY w = Some ""%string ->
           serve w = catchClause (ErrorObject "LOVABLE_API_KEY is not configured"))
          /\ (forall (a : Ascii.ascii) (key : string),
                LOVABLE_API_KEY w = Some (String a key) ->
                Authorization w = None \/ Authorization w = Some ""%string ->
                serve w = catchClause (ErrorObject "No authorization header")))).
Proof.
  split.
  - intro Hm. unfold serve. now rewrite Hm.
  - intro Hm. apply String.eqb_neq in Hm. unfold serve. rewrite Hm.
    unfold tryBlock. split.
    + intros e He. now rewrite He.
    + intros data Hdata. rewrite Hdata. split.
      * intros [Hkey|Hkey]; now rewrite Hkey.
      * intros a key Hkey [Hauth|Hauth]; now rewrite Hkey, Hauth.
Qed.

End Answers.

Lemma first_failed_check_answers_witness :
  AiCoach.serve unconfiguredRequest
  = AiCoach.catchClause (AiCoach.ErrorObject "LOVABLE_API_KEY is not configured").
Proof.
  destruct (first_failed_check_answers unconfiguredRequest) as [_ Hchecks].
  destruct Hchecks as [_ Hparsed]; [discriminate|].
  destruct (Hparsed None eq_refl) as [Hkey _].
  apply Hkey. left. reflexivity.
Defined.

(** ** What the page shows of an answer *)

Section CoachPage.
Import AiCoach.
Context {num : Type}.

Lemma error_answer_not_2xx (w : World num) (e : string) :
  payload (serve w) = ErrorJson e -> is2xx (serve w) = false.
Proof.
  intro He. pose proof (status_tells_failure w) as Hs. rewrite He in Hs.
  unfold is2xx. cbn [In] in Hs.
  destruct Hs as [<-|[<-|[<-|[]]]]; reflexivity.
Qed.

(** X18. When the client that calls the function reports every answer
    outside 2xx as one failure with its own message, the page shows that
    message for every failure of the function: the text of the error
    body, be it the rate-limit, the payment or any other message, does
    not reach the toast; the recommendation shown before stays. *)
Theorem error_body_not_shown (message : string)
    (transport : Response -> AICoachPage.invoked) (w : World num) (e : string)
    (question : option string) (p : AICoachPage.page) :
  reportsStatusOnly message transport ->
  payload (serve w) = ErrorJson e ->
  AICoachPage.getRecommendations (fun _ => transport (serve w)) question p
  = AICoachPage.failed message p.
Proof.
  intros Htransport He. unfold AICoachPage.getRecommendations.
  now rewrite (Htransport _ (error_answer_not_2xx w He)).
Qed.

End CoachPage.

(** A rate-limited and an unpaid request leave the same page. *)
Lemma error_body_not_shown_witness :
  AICoachPage.getRecommendations
    (fun _ => statusOnlyClient
                (AiCoach.serve (requestWith true (inr (gatewayAnswers 429)))))
    None freshCoachPage
  = AICoachPage.getRecommendations
      (fun _ => statusOnlyClient
                  (AiCoach.serve (requestWith true (inr (gatewayAnswers 402)))))
      None freshCoachPage
  /\ AICoachPage.toasts
       (AICoachPage.getRecommendations
          (fun _ => statusOnlyClient
                      (AiCoach.serve (requestWith true (inr (gatewayAnswers 429)))))
          None freshCoachPage)
     = [AICoachPage.Error "Edge Function returned a non-2xx status code"].
Proof.
  assert (Hclient : reportsStatusOnly "Edge Function returned a non-2xx status code"
                      statusOnlyClient).
  { intros r Hr. unfold statusOnlyClient. now rewrite Hr. }
  rewrite (@error_body_not_shown Qc _ statusOnlyClient
             (requestWith true (inr (gatewayAnswers 429)))
             "Rate limit exceeded. Please try again later." None freshCoachPage
             Hclient eq_refl).
  rewrite (@error_body_not_shown Qc _ statusOnlyClient
             (requestWith true (inr (gatewayAnswers 402)))
             "Payment required. Please add credits to your Lovable AI workspace."
             None freshCoachPage Hclient eq_refl).
  split; reflexivity.
Defined.

Section CoachPageSuccess.
Import AiCoach.
Context {num : Type}.

(** X19. When the client hands on the body of a 2xx answer, a request
    that the gateway answers with success puts on the page exactly what
    the gateway produced as content and reports success; the card is
    shown for a non-empty text only, so an answer without content is
    reported as a success that shows nothing and takes away the
    recommendation shown before. *)
Theorem gateway_content_reaches_page
    (transport : Response -> AICoachPage.invoked) (w : World num)
    (response : GatewayResponse) (produced : option string)
    (question : option string) (p : AICoachPage.page) :
  handsOnBody transport ->
  reachesTokenCheck w -> getUser w = true ->
  fetch w = inr response -> ok response = true ->
  content response = inr produced ->
  let after :=
    AICoachPage.getRecommendations (fun _ => transport (serve w)) question p in
  AICoachPage.recommendation after = produced
  /\ AICoachPage.toasts after
     = AICoachPage.Success "AI recommendations generated!" :: AICoachPage.toasts p
  /\ AICoachPage.loading after = false
  /\ (AICoachPage.cardShown after = true
      <-> exists (a : Ascii.ascii) (text : string), produced = Some (String a text)).
Proof.
  intros Htransport Hreach Huser Hfetch Hok Hcontent after. subst after.
  assert (Hserve : serve w = {| status := 200;
                                payload := RecommendationJson produced |}).
  { rewrite (serve_after_checks Hreach), Huser, Hfetch, Hok, Hcontent.
    reflexivity. }
  unfold AICoachPage.getRecommendations.
  rewrite Hserve, Htransport by reflexivity.
  cbn [bodyOf payload FunctionData.error FunctionData.recommendation
       AICoachPage.recommendation AICoachPage.toasts AICoachPage.loading].
  split; [reflexivity|]. split; [reflexivity|]. split; [reflexivity|].
  unfold AICoachPage.cardShown. cbn [AICoachPage.recommendation].
  destruct produced as [[|a text]|]; cbn [String.eqb negb].
  - split; [discriminate | intros (a & text & [=])].
  - split; [eauto | reflexivity].
  - split; [discriminate | intros (a & text & [=])].
Qed.

End CoachPageSuccess.

(** The gateway's text arrives; an answer without content shows nothing. *)
Lemma gateway_content_reaches_page_witness :
  AICoachPage.recommendation
    (AICoachPage.getRecommendations
       (fun _ => statusOnlyClient
                   (AiCoach.serve (requestWith true (inr (gatewayAnswers 200)))))
       None freshCoachPage)
  = Some "Book flights early."%string
  /\ AICoachPage.cardShown
       (AICoachPage.getRecommendations
          (fun _ => statusOnlyClient (AiCoach.serve (requestWith true (inr silentGateway))))
          None freshCoachPage)
     = false.
Proof.
  assert (Hclient : handsOnBody statusOnlyClient).
  { intros r Hr. unfold statusOnlyClient. now rewrite Hr. }
  split.
  - apply (@gateway_content_reaches_page Qc statusOnlyClient
             (requestWith true (inr (gatewayAnswers 200))) (gatewayAnswers 200)
             (Some "Book flights early."%string) None freshCoachPage Hclient
             (requestWith_reaches true _) eq_refl eq_refl eq_refl eq_refl).
  - destruct (@gateway_content_reaches_page Qc statusOnlyClient
                (requestWith true (inr silentGateway)) silentGateway
                None None freshCoachPage Hclient
                (requestWith_reaches true _) eq_refl eq_refl eq_refl eq_refl)
      as (_ & _ & _ & Hcard).
    destruct (AICoachPage.cardShown _); [|reflexivity].
    destruct (proj1 Hcard eq_refl) as (a & text & [=]).
Defined.

(** ** Days and pace *)

Section DaysAndPace.
Local Open Scope Qc_scope.
Import Savings.

(** X20. The number of days until the target is the target day minus the
    day (UTC) that [now] falls in, at every time of that day: a goal due
    today has 0 days left from midnight to midnight, one due tomorrow
    has 1. *)
Theorem days_count_calendar_days {num : Type} (goal : SavingsGoal num) (now : Z) :
  daysUntilTarget goal now = (target_date goal - now / msPerDay)%Z.
Proof.
  unfold daysUntilTarget, ceilDiv, getTime.
  replace (- (target_date goal * msPerDay - now))%Z
    with (now + (- target_date goal) * msPerDay)%Z by lia.
  rewrite Z.div_add by discriminate. lia.
Qed.

Lemma months_neq0 (d : Z) : (0 < d)%Z -> Qc_of_Z d / Qc_of_Z 30 <> 0.
Proof. intro Hd. now apply Qclt_neq0, months_pos. Qed.

(** X21. While days remain, the monthly amount times the number of months
    left (days / 30) is the amount still missing; so with 30 days or less
    left and something missing, the monthly amount shown is at least the
    whole missing amount. *)
Theorem pace_closes_the_gap (goal : SavingsGoal Qc) (now : Z) :
  (0 < daysUntilTarget goal now)%Z ->
  monthlyNeeded goal now * (Qc_of_Z (daysUntilTarget goal now) / Qc_of_Z 30)
  = target_amount goal - current_amount goal
  /\ ((daysUntilTarget goal now <= 30)%Z ->
      current_amount goal <= target_amount goal ->
      target_amount goal - current_amount goal <= monthlyNeeded goal now).
Proof.
  intro Hd. pose proof (monthlyNeeded_future goal now Hd) as Hm.
  pose proof (months_pos Hd) as Hmonths.
  assert (Hgap : monthlyNeeded goal now
                 * (Qc_of_Z (daysUntilTarget goal now) / Qc_of_Z 30)
                 = target_amount goal - current_amount goal).
  { rewrite Hm. apply Qcdiv_mul_cancel. now apply Qclt_neq0. }
  split; [exact Hgap|]. intros H30 Hle.
  assert (Hneeded : 0 <= monthlyNeeded goal now).
  { rewrite Hm. apply Qcdiv_nonneg; [|exact Hmonths].
    apply Qcnot_lt_le. intro Hlt.
    apply (Qcle_not_lt _ _ Hle). apply Qclt_minus_iff.
    apply Qclt_minus_iff in Hlt.
    replace (0 + - (target_amount goal - current_amount goal))
      with (current_amount goal + - target_amount goal) in Hlt by ring.
    exact Hlt. }
  rewrite <- Hgap. rewrite <- (Qcmult_1_r (monthlyNeeded goal now)) at 2.
  apply scale_le; [exact Hneeded|].
  apply Qcdiv_le_1; [reflexivity|].
  exact (proj1 (Qc_of_Z_le _ 30) H30).
Qed.

(** Ten days before its target day the goal of 2000 holding 500 asks for
    4500 a month. *)
Lemma pace_closes_the_gap_witness :
  daysUntilTarget goal2000 (20080 * msPerDay) = 10%Z
  /\ monthlyNeeded goal2000 (20080 * msPerDay) = Qc_of_Z 4500
  /\ target_amount goal2000 - current_amount goal2000
     <= monthlyNeeded goal2000 (20080 * msPerDay).
Proof.
  assert (Hd : (0 < daysUntilTarget goal2000 (20080 * msPerDay))%Z) by reflexivity.
  destruct (pace_closes_the_gap goal2000 (20080 * msPerDay) Hd) as [_ Hmore].
  split; [reflexivity|]. split; [apply Qc_is_canon; reflexivity|].
  apply Hmore; discriminate.
Defined.

End DaysAndPace.

(** ** Reaching a goal *)

Section GoalReached.
Local Open Scope Qc_scope.
Import Savings.

Lemma pacing_none_when_met (goal : SavingsGoal Qc) (now : Z) :
  target_amount goal <= current_amount goal -> pacingFigure goal now = None.
Proof.
  intro Hmet.
  assert (Hle : monthlyNeeded goal now <= 0).
  { destruct (Z_lt_le_dec 0 (daysUntilTarget goal now)) as [Hd|Hd].
    - rewrite (monthlyNeeded_future goal now Hd).
      apply Qcdiv_nonpos; [|now apply months_pos].
      apply Qcnot_lt_le. intro Hlt.
      exact (Qcle_not_lt _ _ Hmet (proj2 (Qclt_minus_iff _ _) Hlt)).
    - unfold monthlyNeeded.
      assert (Hguard : (daysUntilTarget goal now >? 0)%Z = false).
      { destruct (daysUntilTarget goal now >? 0)%Z eqn:E; [|reflexivity].
        apply Z.gtb_lt in E. lia. }
      rewrite Hguard. apply Qcle_refl. }
  unfold pacingFigure. cbn [js_gt js_of_Z Exact]. rewrite Qc_of_Z_0.
  apply Qc_gtb_false in Hle. now rewrite Hle.
Qed.

(** X22. Contributing exactly what is missing completes the goal: on a
    page in sync, for a goal holding [k] cents of a target of [t] cents,
    a contribution of [t - k] cents is stored, after which the goal holds
    its target, its progress is 100 and no pace is shown at any time. *)
Theorem topping_up_completes_goal (p : page) (i : string) (g : SavingsGoal Qc)
    (k t : Z) :
  inSync p ->
  storedGoal p i = Some g ->
  current_amount g = cents k -> target_amount g = cents t ->
  (0 <= k <= t)%Z -> (0 < t < 10 ^ 10)%Z ->
  exists g',
    storedGoal (contribute i (Some (cents (t - k))) p) i = Some g'
    /\ current_amount g' = target_amount g'
    /\ target_amount g' = cents t
    /\ progress g' = Qc_of_Z 100
    /\ forall now : Z, pacingFigure g' now = None.
Proof.
  unfold storedGoal. intros Hsync Hfind Hcur Htarget Hk Ht.
  destruct (find_id _ _ Hfind) as [Hid Hex].
  exists (setCurrentAmount (cents t) g).
  assert (Hstored : storedGoal (contribute i (Some (cents (t - k))) p) i
                    = Some (setCurrentAmount (cents t) g)).
  { unfold storedGoal, contribute. rewrite Hsync, Hfind.
    unfold addClicked, handleUpdateProgress, update.
    rewrite Hid, Hex, Hcur, <- cents_add.
    replace (k + (t - k))%Z with t by lia.
    rewrite storeCurrentAmount_accepts by lia.
    cbn [fetchSavingsGoals table]. now rewrite find_after_update, Hfind. }
  unfold storedGoal in Hstored.
  split; [exact Hstored|].
  cbn [setCurrentAmount current_amount target_amount].
  split; [now rewrite Htarget|]. split; [exact Htarget|]. split.
  - unfold progress. cbn [setCurrentAmount current_amount target_amount
                          js_mul js_div js_of_Z Exact].
    rewrite Htarget. field.
    rewrite <- cents_0. intro Heq. apply cents_inj in Heq. lia.
  - intro now. apply pacing_none_when_met.
    cbn [setCurrentAmount current_amount target_amount].
    rewrite Htarget. apply Qcle_refl.
Qed.

(** The goal of 2000 holding 100 is topped up by 1900. *)
Lemma topping_up_completes_goal_witness :
  exists g',
    storedGoal (contribute "g1" (Some (cents 190000)) (pageOf goalHolding100)) "g1"
    = Some g'
    /\ progress g' = Qc_of_Z 100
    /\ pacingFigure g' morningOfDay20000 = None.
Proof.
  destruct (@topping_up_completes_goal (pageOf goalHolding100) "g1" goalHolding100
              10000 200000 eq_refl eq_refl eq_refl eq_refl)
    as (g' & Hstored & _ & _ & Hprogress & Hpace); try lia.
  exists g'. split; [exact Hstored|]. split; [exact Hprogress | apply Hpace].
Defined.

End GoalReached.
